(** * Customer-churn model evaluation notebooks: a shallow embedding

    The repository holds two Jupyter notebooks (the plain pipeline and its
    PCA variant).  Their code cells define a handful of helper functions
    ([null_accuracy_score], [show_cv_classification_report], [export_model],
    ...) and then run a linear pipeline of scikit-learn calls.

    The embedding below keeps the helper functions as Rocq functions, the
    exceptions of Python as an [outcome], and the effects of the pipeline
    (classifier fits, scoring passes, files written) as an event log that is
    threaded through a small monad.  Floating-point numbers are idealised as
    rationals ([Q]) with an explicit [NaN]. *)

From Stdlib Require Import String Ascii.
From Stdlib Require Import List ZArith QArith Qround Qminmax Qfield.
From Stdlib Require Import Lia Lqa Permutation Sorted Bool Arith PeanoNat.
Import ListNotations.

Set Implicit Arguments.

(* ================================================================== *)
(** * Python values, exceptions and floats *)
(* ================================================================== *)

Inductive exn : Type :=
| ValueError (msg : string)
| NameError (name : string)
| NotFittedError (msg : string)
| OtherError (class_name msg : string).

Inductive outcome (A : Type) : Type :=
| Return (a : A)
| Raise (e : exn).

Arguments Return {A} a.
Arguments Raise {A} e.

(** A Python float: a rational, or the not-a-number that pandas returns for
    the mean of an empty Series. *)
Inductive pyfloat : Type :=
| Fin (q : Q)
| NaN.

Definition float_sub (a b : pyfloat) : pyfloat :=
  match a, b with
  | Fin x, Fin y => Fin (x - y)
  | _, _ => NaN
  end.

(** [b > a]; every comparison with NaN is false. *)
Definition float_gt (b a : pyfloat) : bool :=
  match b, a with
  | Fin y, Fin x => negb (Qle_bool y x)
  | _, _ => false
  end.

(** The builtin [max(a, b)]: the first argument unless the second is
    strictly greater. *)
Definition py_max (a b : pyfloat) : pyfloat :=
  if float_gt b a then b else a.

(* ================================================================== *)
(** * pandas Series of integer-coded labels *)
(* ================================================================== *)

(** A label Series; the churn labels are integer codes, which
    [.astype(int)] leaves as they are. *)
Definition Series := list Z.

Definition astype_int (s : Series) : Series := s.

Definition Zsum (s : list Z) : Z := fold_right Z.add 0%Z s.

(** [Series.mean()]: NaN on an empty Series. *)
Definition Series_mean (s : Series) : pyfloat :=
  match s with
  | [] => NaN
  | _ => Fin (inject_Z (Zsum s) / inject_Z (Z.of_nat (length s)))
  end.

(** [Series.value_counts()]: each distinct value with its number of
    occurrences.  Only the largest count is read by the caller. *)
Definition value_counts (s : Series) : list (Z * nat) :=
  map (fun v => (v, count_occ Z.eq_dec s v)) (nodup Z.eq_dec s).

(** [.head(1).item()] of the counts: the largest count, or the ValueError
    that [.item()] raises on an empty Series. *)
Definition head1_item (vc : list (Z * nat)) : outcome nat :=
  match vc with
  | [] => Raise (ValueError "can only convert an array of size 1 to a Python scalar")
  | _ => Return (fold_right Nat.max 0%nat (map snd vc))
  end.

(* ================================================================== *)
(** * The evaluator helper [null_accuracy_score] *)
(* ================================================================== *)

(** The three arms of the [if / elif / else] of [null_accuracy_score]. *)
Inductive branch : Type := BrIf | BrElif | BrElse.

Section NullAccuracy.

(** The module-level global the function reads at call time. *)
Variable CLASSIFICATION_TYPE : string.

(** Which arm runs: the conditions are tested in order, as written. *)
Definition null_accuracy_branch (classification_type : string) : branch :=
  if String.eqb classification_type CLASSIFICATION_TYPE then BrIf
  else if String.eqb classification_type CLASSIFICATION_TYPE then BrElif
  else BrElse.

Definition bad_input_message (classification_type : string) : string :=
  ("Bad input " ++ classification_type
     ++ ". Must specify either 'Binary' or 'Multiple'.")%string.

Definition null_accuracy_score (labels : Series) (classification_type : string)
  : outcome pyfloat :=
  match null_accuracy_branch classification_type with
  | BrIf =>
      Return (py_max (Series_mean (astype_int labels))
                     (float_sub (Fin 1) (Series_mean (astype_int labels))))
  | BrElif =>
      match head1_item (value_counts labels) with
      | Return top =>
          Return (Fin (inject_Z (Z.of_nat top)
                       / inject_Z (Z.of_nat (length labels))))
      | Raise e => Raise e
      end
  | BrElse => Raise (ValueError (bad_input_message classification_type))
  end.

End NullAccuracy.

(** The notebooks set the global once, in their "Define Globals" cell. *)
Definition CLASSIFICATION_TYPE : string := "Binary".
Definition hold_out_percent : Q := 0.2.

(** The fraction of records in the positive class (label 1). *)
Definition positive_fraction (labels : Series) : Q :=
  inject_Z (Z.of_nat (count_occ Z.eq_dec labels 1%Z))
  / inject_Z (Z.of_nat (length labels)).

Definition is_binary (labels : Series) : Prop :=
  Forall (fun v => v = 0%Z \/ v = 1%Z) labels.

(* ================================================================== *)
(** * pandas frames *)
(* ================================================================== *)

(** A DataFrame or Series as the list of its rows, each under its index
    label.  Labels identify records: a split keeps them, so a record can be
    followed through the pipeline. *)
Definition Frame (A : Type) : Type := list (nat * A).

Definition index {A : Type} (f : Frame A) : list nat := map fst f.
Definition values {A : Type} (f : Frame A) : list A := map snd f.

(** Positional selection ([safe_indexing], i.e. [.iloc]).  The positions
    the library passes are always in range. *)
Definition iloc {A : Type} (f : Frame A) (positions : list nat) : Frame A :=
  flat_map (fun p => match nth_error f p with
                     | Some r => [r]
                     | None => []
                     end) positions.

(** One row of features. *)
Definition features : Type := list Q.

(* ================================================================== *)
(** * Estimators and hyper-parameters *)
(* ================================================================== *)

Inductive pv : Type :=
| PNone
| PInt (z : Z)
| PStr (s : string).

(** A keyword dictionary, kept as an association list sorted by key (the
    order in which [ParameterGrid] enumerates it). *)
Definition params : Type := list (string * pv).
Definition param_space : Type := list (string * list pv).

Inductive algorithm : Type :=
| KNeighborsClassifier
| RandomForestClassifier.

Record estimator : Type := {
  algo : algorithm;
  hyper : params
}.

Definition has_key (k : string) (p : params) : bool :=
  existsb (fun kv => String.eqb (fst kv) k) p.

(** [clone(est)] followed by [set_params] with the keywords of [p] *)
Definition set_params (est : estimator) (p : params) : estimator :=
  {| algo := algo est;
     hyper := p ++ filter (fun kv => negb (has_key (fst kv) p)) (hyper est) |}.

Inductive scoring : Type :=
| accuracy
| precision_weighted
| recall_weighted
| f1_weighted.

(* ================================================================== *)
(** * The numerical library, as an interface *)
(* ================================================================== *)

(** What the notebooks import and cannot be computed here: the random
    generator of numpy, the learners, scorers and projections of
    scikit-learn, and the square root.  A learner can fail: a fit, a
    prediction or a scoring returns its value or raises (a K-nearest-
    neighbours classifier asked for more neighbours than it has training
    records, for one).  The theorems hold for every implementation; the
    laws the proofs need are stated in [LibraryLaws].
    The deterministic parts of scikit-learn the notebooks call
    ([train_test_split], [StratifiedKFold], [cross_val_score],
    [GridSearchCV], [RandomizedSearchCV], [StandardScaler]) are written out
    further down, as release 0.19.0 has them: the release the first cell of
    the notebooks prints. *)
Class Library : Type := {
  RandomState : Type;
  (** [np.random.RandomState(seed)] *)
  RandomState_seed : Z -> RandomState;
  (** [rng.permutation(n)], with the generator's next state *)
  rng_permutation : RandomState -> nat -> list nat * RandomState;
  (** [sample_without_replacement(n_population, n_samples, random_state=rng)] *)
  sample_without_replacement : RandomState -> nat -> nat -> list nat * RandomState;
  (** [np.sqrt] *)
  float_sqrt : Q -> Q;
  (** a fitted estimator *)
  Model : Type;
  (** [estimator.fit(X, y)] *)
  lib_fit : estimator -> Frame features -> Frame Z -> outcome Model;
  (** [model.predict(X)] and the second column of [model.predict_proba(X)] *)
  lib_predict : Model -> Frame features -> outcome (list Z);
  lib_predict_proba : Model -> Frame features -> outcome (list Q);
  (** a scorer applied to a fitted estimator and a test fold *)
  lib_score : scoring -> Model -> Frame features -> Frame Z -> outcome Q;
  (** position of the candidate ranked first by its fold scores *)
  lib_best_index : list (list Q) -> nat;
  (** a fitted PCA projection and its application to one row *)
  Projection : Type;
  lib_pca_fit : nat -> Frame features -> Projection;
  lib_pca_transform : Projection -> features -> features
}.

Class LibraryLaws (L : Library) : Prop := {
  rng_permutation_perm :
    forall g n, Permutation (fst (rng_permutation g n)) (seq 0 n);
  sample_without_replacement_length :
    forall g n k, (k <= n)%nat ->
                  length (fst (sample_without_replacement g n k)) = k;
  sample_without_replacement_range :
    forall g n k, Forall (fun i => (i < n)%nat)
                         (fst (sample_without_replacement g n k));
  sample_without_replacement_NoDup :
    forall g n k, NoDup (fst (sample_without_replacement g n k));
  lib_best_index_lt :
    forall scores, scores <> [] -> (lib_best_index scores < length scores)%nat
}.

(* ================================================================== *)
(** * Effects: the world, the event log and the monad *)
(* ================================================================== *)

Section Effects.

Context {L : Library}.

(** What a run leaves behind that the claims speak of. *)
Inductive event : Type :=
| Fit (est : estimator) (rows : list nat)
    (** [fit] is called on the records with these index labels *)
| Score (s : scoring) (rows : list nat)
    (** a scorer is called with a fitted classifier and these records *)
| Predict (rows : list nat)
    (** predictions are asked for these records *)
| Split (train test : list nat)
    (** [train_test_split] returned these two subsets *).

(** A pickle stream: the objects dumped into it, in order. *)
Definition file_content : Type := list Model.

Record world : Type := {
  np_random : RandomState;          (** numpy's global generator *)
  files : list (string * file_content)  (** the working directory *)
}.

Definition M (A : Type) : Type := world -> outcome A * world * list event.

Definition ret {A : Type} (a : A) : M A := fun w => (Return a, w, []).

Definition raise {A : Type} (e : exn) : M A := fun w => (Raise e, w, []).

Definition bind {A B : Type} (m : M A) (f : A -> M B) : M B :=
  fun w =>
    match m w with
    | (Return a, w1, l1) =>
        match f a w1 with
        | (r, w2, l2) => (r, w2, l1 ++ l2)
        end
    | (Raise e, w1, l1) => (Raise e, w1, l1)
    end.

Definition emit (ev : event) : M unit := fun w => (Return tt, w, [ev]).

Definition lift {A : Type} (o : outcome A) : M A := fun w => (o, w, []).

Definition result_of {A : Type} (r : outcome A * world * list event) : outcome A :=
  fst (fst r).
Definition world_of {A : Type} (r : outcome A * world * list event) : world :=
  snd (fst r).
Definition events_of {A : Type} (r : outcome A * world * list event) : list event :=
  snd r.

End Effects.

Notation "x <- m ;; k" := (bind m (fun x => k))
  (at level 61, m at next level, right associativity).
Notation "' pat <- m ;; k" := (bind m (fun x => match x with pat => k end))
  (at level 61, pat pattern, m at next level, right associativity).
Notation "m ;;; k" := (bind m (fun _ => k))
  (at level 61, right associativity).

Section Sklearn.

Context {L : Library}.

Fixpoint mapM {A B : Type} (f : A -> M B) (l : list A) : M (list B) :=
  match l with
  | [] => ret []
  | a :: l' => b <- f a ;; bs <- mapM f l' ;; ret (b :: bs)
  end.

(* ------------------------------------------------------------------ *)
(** ** [train_test_split] *)

(** [check_random_state]: an integer seeds a fresh generator, [None] is
    numpy's global one. *)
Definition check_random_state (random_state : option Z) (w : world) : RandomState :=
  match random_state with
  | Some seed => RandomState_seed seed
  | None => np_random w
  end.

(** A draw from the generator [random_state] designates; only numpy's
    global generator keeps the state the draw leaves. *)
Definition with_rng {A : Type} (random_state : option Z)
    (draw : RandomState -> A * RandomState) : M A :=
  fun w =>
    let (a, g') := draw (check_random_state random_state w) in
    match random_state with
    | Some _ => (Return a, w, [])
    | None => (Return a, {| np_random := g'; files := files w |}, [])
    end.

(** [ceil(test_size * n_samples)] *)
Definition n_test_of (test_size : Q) (n_samples : nat) : nat :=
  Z.to_nat (Qceiling (test_size * inject_Z (Z.of_nat n_samples))).

(** [train_test_split(X, y, test_size=..., random_state=...)] with a float
    [test_size]: the first [n_test] entries of a random permutation index
    the test subset, the next [n_samples - n_test] the train subset.
    Returns [(X_train, X_test, y_train, y_test)]. *)
Definition train_test_split {A B : Type} (X : Frame A) (y : Frame B)
    (test_size : Q) (random_state : option Z)
  : M (Frame A * Frame A * Frame B * Frame B) :=
  if Qle_bool 1 test_size then
    raise (ValueError "test_size should be smaller than 1.0 or be an integer")
  else
    let n_samples := length X in
    let n_test := n_test_of test_size n_samples in
    let n_train := (n_samples - n_test)%nat in
    permutation <- with_rng random_state (fun rng => rng_permutation rng n_samples) ;;
    let ind_test := firstn n_test permutation in
    let ind_train := firstn n_train (skipn n_test permutation) in
    emit (Split (index (iloc X ind_train)) (index (iloc X ind_test))) ;;;
    ret (iloc X ind_train, iloc X ind_test, iloc y ind_train, iloc y ind_test).

(* ------------------------------------------------------------------ *)
(** ** Stratified K-fold cross-validation *)

(** [KFold] without shuffling: the first [n_samples % n_splits] folds have
    [n_samples // n_splits + 1] samples, the others [n_samples // n_splits]. *)
Definition fold_sizes (n_samples n_splits : nat) : list nat :=
  map (fun i => (n_samples / n_splits
                 + (if i <? n_samples mod n_splits then 1 else 0))%nat)
      (seq 0 n_splits).

(** The fold whose test slice holds position [r], the slices being
    consecutive and of the given sizes. *)
Fixpoint fold_of (sizes : list nat) (r : nat) : nat :=
  match sizes with
  | [] => 0%nat
  | s :: rest => if (r <? s)%nat then 0%nat else S (fold_of rest (r - s))
  end.

(** [StratifiedKFold._make_test_folds]: every class is split on its own by
    a [KFold] over [max(count, n_splits)] places; the sample that is the
    [r]-th of its class goes to the fold that holds place [r].  [seen] are
    the labels already passed. *)
Fixpoint assign_folds (n_splits : nat) (y_all seen y : list Z) : list nat :=
  match y with
  | [] => []
  | c :: y' =>
      fold_of (fold_sizes (Nat.max (count_occ Z.eq_dec y_all c) n_splits) n_splits)
              (count_occ Z.eq_dec seen c)
      :: assign_folds n_splits y_all (c :: seen) y'
  end.

Definition make_test_folds (n_splits : nat) (y : list Z) : list nat :=
  assign_folds n_splits y [] y.

(** [indices[test_folds == i]] and [indices[test_folds != i]] *)
Definition test_indices (test_folds : list nat) (i : nat) : list nat :=
  map fst (filter (fun p => (snd p =? i)%nat)
                  (combine (seq 0 (length test_folds)) test_folds)).

Definition train_indices (test_folds : list nat) (i : nat) : list nat :=
  map fst (filter (fun p => negb (snd p =? i)%nat)
                  (combine (seq 0 (length test_folds)) test_folds)).

(** [StratifiedKFold(n_splits).split(X, y)]: the [(train, test)] index
    pairs, or the ValueError of a split that cannot be made. *)
Definition StratifiedKFold_split (n_splits : nat) (y : list Z)
  : outcome (list (list nat * list nat)) :=
  if (n_splits <=? 1)%nat then
    Raise (ValueError "k-fold cross-validation requires at least one train/test split")
  else if (length y <? n_splits)%nat then
    Raise (ValueError "Cannot have number of splits greater than the number of samples")
  else if forallb (fun c => (count_occ Z.eq_dec y c <? n_splits)%nat)
                  (nodup Z.eq_dec y) then
    Raise (ValueError "All the n_groups for individual classes are less than n_splits")
  else
    let test_folds := make_test_folds n_splits y in
    Return (map (fun i => (train_indices test_folds i, test_indices test_folds i))
                (seq 0 n_splits)).

(** [estimator.fit(X, y)]; every classifier fit of a run passes here.  The
    call is logged, then the learner returns the fitted model or raises. *)
Definition estimator_fit (est : estimator) (X : Frame features) (y : Frame Z)
  : M Model :=
  emit (Fit est (index X)) ;;;
  lift (lib_fit est X y).

(** [model.predict(X)] *)
Definition model_predict (m : Model) (X : Frame features) : M (list Z) :=
  emit (Predict (index X)) ;;;
  lift (lib_predict m X).

(** [model.predict_proba(X)], of which the notebooks read the second column *)
Definition model_predict_proba (m : Model) (X : Frame features) : M (list Q) :=
  emit (Predict (index X)) ;;;
  lift (lib_predict_proba m X).

(** [_fit_and_score] with [error_score='raise']: one fit/evaluate cycle of
    a cross-validation; an exception of the fit or of the scorer goes up
    to the caller. *)
Definition fit_and_score (est : estimator) (X : Frame features) (y : Frame Z)
    (s : scoring) (fold : list nat * list nat) : M Q :=
  let (train, test) := fold in
  m <- estimator_fit est (iloc X train) (iloc y train) ;;
  emit (Score s (index (iloc X test))) ;;;
  lift (lib_score s m (iloc X test) (iloc y test)).

(** [indexable(X, y)]: the ValueError of [check_consistent_length]. *)
Definition inconsistent_length_error : exn :=
  ValueError "Found input variables with inconsistent numbers of samples".

(** [cross_val_score(estimator, X, y, scoring=..., cv=K)] for a classifier
    and class labels: one score per fold of a [StratifiedKFold(K)]. *)
Definition cross_val_score (est : estimator) (X : Frame features) (y : Frame Z)
    (s : scoring) (cv : nat) : M (list Q) :=
  if negb (length X =? length y)%nat then raise inconsistent_length_error
  else
    folds <- lift (StratifiedKFold_split cv (values y)) ;;
    mapM (fit_and_score est X y s) folds.

(* ------------------------------------------------------------------ *)
(** ** Hyper-parameter search *)

(** [ParameterGrid(space)]: every combination, the last key varying
    fastest. *)
Fixpoint ParameterGrid (space : param_space) : list params :=
  match space with
  | [] => [[]]
  | (k, vs) :: rest =>
      flat_map (fun v => map (fun p => (k, v) :: p) (ParameterGrid rest)) vs
  end.

Record search_result : Type := {
  cv_results_params : list params;
  cv_results_scores : list (list Q);
  best_index_ : nat;
  best_params_ : params;
  best_estimator_ : Model
}.

(** What [BaseSearchCV.fit] does once it has its candidates: the folds are
    made, every candidate is scored on every fold, and the best one is
    refitted on all of [X].  With no candidate at all the scores cannot be
    unpacked, a ValueError. *)
Definition evaluate_candidates (est : estimator) (candidates : list params)
    (cv : nat) (s : scoring) (X : Frame features) (y : Frame Z)
  : M search_result :=
  folds <- lift (StratifiedKFold_split cv (values y)) ;;
  scores <- mapM (fun p => mapM (fit_and_score (set_params est p) X y s) folds)
                 candidates ;;
  match candidates with
  | [] => raise (ValueError "not enough values to unpack")
  | _ :: _ =>
      let best_index := lib_best_index scores in
      let best_params := nth best_index candidates [] in
      best <- estimator_fit (set_params est best_params) X y ;;
      ret {| cv_results_params := candidates;
             cv_results_scores := scores;
             best_index_ := best_index;
             best_params_ := best_params;
             best_estimator_ := best |}
  end.

(** [BaseSearchCV.fit(X, y)], the candidates being those that
    [_get_param_iterator] yields: [check_cv] and [indexable] come first,
    then the candidates are listed and evaluated. *)
Definition BaseSearchCV_fit (est : estimator) (param_iterator : M (list params))
    (cv : nat) (s : scoring) (X : Frame features) (y : Frame Z)
  : M search_result :=
  if (cv <=? 1)%nat then
    raise (ValueError "k-fold cross-validation requires at least one train/test split")
  else if negb (length X =? length y)%nat then raise inconsistent_length_error
  else
    candidates <- param_iterator ;;
    evaluate_candidates est candidates cv s X y.

(** [GridSearchCV(est, param_grid, cv=..., scoring=...).fit(X, y)] *)
Definition GridSearchCV_fit (est : estimator) (param_grid : param_space)
    (cv : nat) (s : scoring) (X : Frame features) (y : Frame Z)
  : M search_result :=
  if existsb (fun kv => match snd kv with [] => true | _ => false end) param_grid
  then raise (ValueError "Parameter values for parameter need to be a non-empty sequence.")
  else BaseSearchCV_fit est (ret (ParameterGrid param_grid)) cv s X y.

(** [ParameterSampler] over lists: [n_iter] grid points drawn without
    replacement. *)
Definition ParameterSampler (param_distributions : param_space) (n_iter : nat)
    (random_state : option Z) : M (list params) :=
  let param_grid := ParameterGrid param_distributions in
  let grid_size := length param_grid in
  if (grid_size <? n_iter)%nat then
    raise (ValueError "The total space of parameters is smaller than n_iter. For exhaustive searches, use GridSearchCV.")
  else
    picks <- with_rng random_state
               (fun rnd => sample_without_replacement rnd grid_size n_iter) ;;
    ret (map (fun i => nth i param_grid []) picks).

(** [RandomizedSearchCV(est, param_distributions, cv=..., scoring=...,
    n_iter=..., random_state=...).fit(X, y)] *)
Definition RandomizedSearchCV_fit (est : estimator)
    (param_distributions : param_space) (cv : nat) (s : scoring)
    (n_iter : nat) (random_state : option Z)
    (X : Frame features) (y : Frame Z) : M search_result :=
  BaseSearchCV_fit est (ParameterSampler param_distributions n_iter random_state)
                   cv s X y.

End Sklearn.

(* ================================================================== *)
(** * Feature standardisation ([StandardScaler]) *)
(* ================================================================== *)

Record scaler_params : Type := {
  mean_ : list Q;
  var_ : list Q;
  scale_ : list Q;
  n_samples_seen_ : nat
}.

(** The scaler object: [None] until it is fitted. *)
Definition StandardScaler : Type := option scaler_params.

Definition Qsum (l : list Q) : Q := fold_right Qplus 0 l.

Definition Qmean (l : list Q) : Q := Qsum l / inject_Z (Z.of_nat (length l)).

(** The population variance ([ddof = 0]). *)
Definition Qvar (l : list Q) : Q :=
  Qmean (map (fun x => (x - Qmean l) * (x - Qmean l)) l).

Definition column (j : nat) (X : Frame features) : list Q :=
  map (fun r => nth j (snd r) 0) X.

Definition n_features (X : Frame features) : nat :=
  match X with
  | [] => 0%nat
  | r :: _ => length (snd r)
  end.

Definition handle_zeros_in_scale (s : Q) : Q :=
  if Qeq_bool s 0 then 1 else s.

Section Scaler.

Context {L : Library}.

(** The statistics [fit] learns from its argument, and from nothing else. *)
Definition scaler_statistics (X : Frame features) : scaler_params :=
  let cols := map (fun j => column j X) (seq 0 (n_features X)) in
  {| mean_ := map Qmean cols;
     var_ := map Qvar cols;
     scale_ := map (fun c => handle_zeros_in_scale (float_sqrt (Qvar c))) cols;
     n_samples_seen_ := length X |}.

(** [(row - mean_) / scale_], column by column, on a row of the width the
    statistics were learned from.  A frame is scaled row by row; the rows
    stay under their index labels, so that a record can be followed, where
    the array scikit-learn returns has them by position only. *)
Definition scale_row (p : scaler_params) (row : features) : features :=
  map (fun xms => (fst xms - fst (snd xms)) / snd (snd xms))
      (combine row (combine (mean_ p) (scale_ p))).

Definition scale_frame (p : scaler_params) (X : Frame features) : Frame features :=
  map (fun r => (fst r, scale_row p (snd r))) X.

Definition empty_array_error : exn :=
  ValueError "Found array with 0 sample(s) while a minimum of 1 is required by StandardScaler.".

(** [sc.transform(X)]: the scaled copy and the scaler as the call leaves it. *)
Definition StandardScaler_transform (sc : StandardScaler) (X : Frame features)
  : outcome (Frame features * StandardScaler) :=
  match sc with
  | None => Raise (NotFittedError "This StandardScaler instance is not fitted yet.")
  | Some p =>
      match X with
      | [] => Raise empty_array_error
      | _ => Return (scale_frame p X, sc)
      end
  end.

(** [sc.fit_transform(X)]: resets the scaler, learns the statistics of [X]
    and scales [X] with them. *)
Definition StandardScaler_fit_transform (sc : StandardScaler) (X : Frame features)
  : outcome (Frame features * StandardScaler) :=
  match X with
  | [] => Raise empty_array_error
  | _ => StandardScaler_transform (Some (scaler_statistics X)) X
  end.

(** The cell "Perform Scalar Normalization of Each Dataset": returns the
    four scaled frames [(X_train, X_test, X, X_eval)] and the scaler [sc]
    as the cell leaves it. *)
Definition normalization_cell (X_train X_test X X_eval : Frame features)
  : outcome (Frame features * Frame features * Frame features * Frame features
             * StandardScaler) :=
  let sc : StandardScaler := None in
  match StandardScaler_fit_transform sc X_train with
  | Raise e => Raise e
  | Return (X_train, sc) =>
      match StandardScaler_transform sc X_test with
      | Raise e => Raise e
      | Return (X_test, sc) =>
          match StandardScaler_fit_transform sc X with
          | Raise e => Raise e
          | Return (X, sc) =>
              match StandardScaler_transform sc X_eval with
              | Raise e => Raise e
              | Return (X_eval, sc) => Return (X_train, X_test, X, X_eval, sc)
              end
          end
      end
  end.

End Scaler.

(* ================================================================== *)
(** * The helper functions of the "Define Globals" cell *)
(* ================================================================== *)

Section Helpers.

Context {L : Library}.

(** [accuracy_score(y_actuals, y_predictions)]: the share of the
    predictions that are the actual label; a ValueError when there is not
    one prediction per actual label. *)
Definition accuracy_score (y_actuals y_predictions : list Z) : outcome pyfloat :=
  if negb (length y_actuals =? length y_predictions)%nat then
    Raise (ValueError "Found input variables with inconsistent numbers of samples")
  else
    match y_actuals with
    | [] => Return NaN
    | _ =>
        Return
          (Fin (inject_Z (Z.of_nat (length (filter (fun ab => Z.eqb (fst ab) (snd ab))
                                                   (combine y_actuals y_predictions))))
                / inject_Z (Z.of_nat (length y_actuals))))
    end.

(** [show_accuracy]: the two numbers it prints. *)
Definition show_accuracy (y_actuals : Frame Z) (y_predictions : list Z)
    (classification_type : string) : M (pyfloat * pyfloat) :=
  accuracy <- lift (accuracy_score (values y_actuals) y_predictions) ;;
  null_accuracy <- lift (null_accuracy_score CLASSIFICATION_TYPE
                                             (values y_actuals) classification_type) ;;
  ret (accuracy, null_accuracy).

(** [show_cv_classification_report]: the four score arrays it prints. *)
Definition show_cv_classification_report (classifier : estimator)
    (X : Frame features) (y : Frame Z) (K : nat)
  : M (list Q * list Q * list Q * list Q) :=
  accuracy_ <- cross_val_score classifier X y accuracy K ;;
  precision <- cross_val_score classifier X y precision_weighted K ;;
  recall <- cross_val_score classifier X y recall_weighted K ;;
  f1 <- cross_val_score classifier X y f1_weighted K ;;
  ret (accuracy_, precision, recall, f1).

(** The names [export_model] looks up in the notebook's global scope:
    [rfc], when the cell that assigns it has run, and [pickle], when the
    module has been imported. *)
Record globals : Type := {
  g_rfc : option Model;
  g_pickle : bool
}.

Definition remove_file (name : string) (fs : list (string * file_content))
  : list (string * file_content) :=
  filter (fun kv => negb (String.eqb (fst kv) name)) fs.

Definition read_file (name : string) (fs : list (string * file_content))
  : option file_content :=
  match filter (fun kv => String.eqb (fst kv) name) fs with
  | [] => None
  | kv :: _ => Some (snd kv)
  end.

(** [open(os.path.join(os.getcwd(), file_name), 'wb')]: the file is created
    empty, or emptied. *)
Definition open_wb (file_name : string) : M string :=
  fun w => (Return file_name,
            {| np_random := np_random w;
               files := (file_name, []) :: remove_file file_name (files w) |},
            []).

(** [pickle.dump(obj, file_target, ...)] *)
Definition pickle_dump (obj : Model) (file_target : string) : M unit :=
  fun w =>
    let old := match read_file file_target (files w) with
               | Some c => c
               | None => []
               end in
    (Return tt,
     {| np_random := np_random w;
        files := (file_target, old ++ [obj]) :: remove_file file_target (files w) |},
     []).

Definition lookup_global {A : Type} (name : string) (v : option A) : M A :=
  match v with
  | Some a => ret a
  | None => raise (NameError name)
  end.

(** [export_model(model, algorithm_name)], run with the globals [g]. *)
Definition export_model (g : globals) (model : Model) (algorithm_name : string)
  : M unit :=
  let file_name := ("Customer_Churn_" ++ algorithm_name ++ ".pkl")%string in
  file_target <- open_wb file_name ;;
  lookup_global "pickle" (if g_pickle g then Some tt else None) ;;;
  rfc <- lookup_global "rfc" (g_rfc g) ;;
  pickle_dump rfc file_target ;;;
  ret tt.

(** What a later process gets from [pickle.load] on the file. *)
Definition pickle_load (file_name : string) (w : world) : option Model :=
  match read_file file_name (files w) with
  | Some (m :: _) => Some m
  | _ => None
  end.

End Helpers.

(* ================================================================== *)
(** * The notebooks *)
(* ================================================================== *)

Section Notebooks.

Context {L : Library}.

(** [list(range(a, b))] as parameter values *)
Definition range (a b : nat) : list pv :=
  map (fun k => PInt (Z.of_nat k)) (seq a (b - a)).

(** [d[key]] on a parameter dictionary that holds the key. *)
Definition get_param (key : string) (d : params) : pv :=
  match filter (fun kv => String.eqb (fst kv) key) d with
  | [] => PNone
  | kv :: _ => snd kv
  end.

(** The eight frames a run works on once the data is partitioned. *)
Record partition : Type := {
  X_train : Frame features;
  X_test : Frame features;
  X_ : Frame features;
  X_eval : Frame features;
  y_train : Frame Z;
  y_test : Frame Z;
  y_ : Frame Z;
  y_eval : Frame Z
}.

(** The two cells that partition the data: first the hold-out subset is
    carved off, then the remainder is split into train and test. *)
Definition two_stage_split (hold_out test_size : Q) (random_state : option Z)
    (X : Frame features) (y : Frame Z) : M partition :=
  ' (X, X_eval, y, y_eval) <- train_test_split X y hold_out random_state ;;
  ' (X_train, X_test, y_train, y_test) <- train_test_split X y test_size random_state ;;
  ret {| X_train := X_train; X_test := X_test; X_ := X; X_eval := X_eval;
         y_train := y_train; y_test := y_test; y_ := y; y_eval := y_eval |}.

Definition partition_cells : Frame features -> Frame Z -> M partition :=
  two_stage_split hold_out_percent 0.2 (Some 42%Z).

(** The scaling cell, on a partition. *)
Definition normalization_cells (p : partition) : M partition :=
  ' (X_train', X_test', X', X_eval', _) <-
    lift (normalization_cell (X_train p) (X_test p) (X_ p) (X_eval p)) ;;
  ret {| X_train := X_train'; X_test := X_test'; X_ := X'; X_eval := X_eval';
         y_train := y_train p; y_test := y_test p; y_ := y_ p; y_eval := y_eval p |}.

(** The PCA cells of the second notebook: one projection is fitted on the
    training subset, another on the whole train/test set. *)
Definition project (pr : Projection) (X : Frame features) : Frame features :=
  map (fun r => (fst r, lib_pca_transform pr (snd r))) X.

Definition pca_cells (p : partition) : M partition :=
  let n_components := 18%nat in
  let pca := lib_pca_fit n_components (X_train p) in
  let pca_holdout := lib_pca_fit n_components (X_ p) in
  ret {| X_train := project pca (X_train p); X_test := project pca (X_test p);
         X_ := project pca_holdout (X_ p); X_eval := project pca_holdout (X_eval p);
         y_train := y_train p; y_test := y_test p; y_ := y_ p; y_eval := y_eval p |}.

(* ------------------------------------------------------------------ *)
(** ** The K-nearest-neighbours cells of the first notebook *)

Definition k_range : list pv := range 2 26.
Definition weight_options : list pv := [PStr "uniform"; PStr "distance"].
Definition param_grid : param_space :=
  [("n_neighbors", k_range); ("weights", weight_options)]%string.

Definition knn_cells (X : Frame features) (y : Frame Z) : M unit :=
  let knn := {| algo := KNeighborsClassifier; hyper := [] |} in
  show_cv_classification_report knn X y 10 ;;;
  grid <- GridSearchCV_fit knn param_grid 10 accuracy X y ;;
  let n_neighbors := get_param "n_neighbors" (best_params_ grid) in
  let weights_option := get_param "weights" (best_params_ grid) in
  let knn := {| algo := KNeighborsClassifier;
                hyper := [("n_neighbors", n_neighbors);
                          ("weights", weights_option)]%string |} in
  show_cv_classification_report knn X y 10 ;;;
  ret tt.

(* ------------------------------------------------------------------ *)
(** ** The random-forest cells, common to both notebooks *)

Definition estimator_range : list pv := range 2 21.
Definition criterion_options : list pv := [PStr "gini"; PStr "entropy"].
Definition max_features_options : list pv :=
  [PNone; PStr "auto"; PStr "sqrt"; PStr "log2"].
Definition max_depth_range : list pv := range 2 21.

Definition param_dist : param_space :=
  [("criterion", criterion_options);
   ("max_depth", max_depth_range);
   ("max_features", max_features_options);
   ("n_estimators", estimator_range)]%string.

(** [rand = RandomizedSearchCV(rfc, param_dist, cv=10, scoring='accuracy',
    n_iter=10, random_state=42)] followed by [rand.fit(X_train, y_train)] *)
Definition rand_fit (rfc : estimator) (X_train : Frame features) (y_train : Frame Z)
  : M search_result :=
  RandomizedSearchCV_fit rfc param_dist 10 accuracy 10 (Some 42%Z) X_train y_train.

Definition forest_cells (p : partition) : M unit :=
  let rfc := {| algo := RandomForestClassifier;
                hyper := [("random_state", PInt 42)]%string |} in
  rfc_fitted <- estimator_fit rfc (X_train p) (y_train p) ;;
  y_pred <- model_predict rfc_fitted (X_test p) ;;
  y_probs <- model_predict_proba rfc_fitted (X_test p) ;;
  show_accuracy (y_test p) y_pred CLASSIFICATION_TYPE ;;;
  rand <- rand_fit rfc (X_train p) (y_train p) ;;
  let n_estimators := get_param "n_estimators" (best_params_ rand) in
  let max_feature := get_param "max_features" (best_params_ rand) in
  let max_depth := get_param "max_depth" (best_params_ rand) in
  let criteria := get_param "criterion" (best_params_ rand) in
  let rfc := {| algo := RandomForestClassifier;
                hyper := [("n_estimators", n_estimators);
                          ("max_features", max_feature);
                          ("criterion", criteria);
                          ("max_depth", max_depth);
                          ("random_state", PInt 42)]%string |} in
  rfc_fitted <- estimator_fit rfc (X_ p) (y_ p) ;;
  y_pred <- model_predict (best_estimator_ rand) (X_eval p) ;;
  y_probs <- model_predict_proba (best_estimator_ rand) (X_eval p) ;;
  show_accuracy (y_eval p) y_pred CLASSIFICATION_TYPE ;;;
  show_cv_classification_report rfc (X_ p) (y_ p) 10 ;;;
  export_model {| g_rfc := Some rfc_fitted; g_pickle := false |}
               rfc_fitted "RandomForestsClassifier".

(** The first notebook, run from top to bottom on the loaded data.  Cells
    that only print or plot what was computed (the confusion matrix, the
    classification report, the ROC curve, the tables and plots of the
    search results) are left out; calls run in sequence, [n_jobs] apart. *)
Definition notebook (X : Frame features) (y : Frame Z) : M unit :=
  knn_cells X y ;;;
  p <- partition_cells X y ;;
  p <- normalization_cells p ;;
  forest_cells p.

(** The PCA notebook, run from top to bottom on the loaded data. *)
Definition notebook_pca (X : Frame features) (y : Frame Z) : M unit :=
  p <- partition_cells X y ;;
  p <- normalization_cells p ;;
  p <- pca_cells p ;;
  forest_cells p.

(* ------------------------------------------------------------------ *)
(** ** Reading a run's event log *)

Definition is_fit (ev : event) : bool :=
  match ev with
  | Fit _ _ => true
  | _ => false
  end.

Definition is_split (ev : event) : bool :=
  match ev with
  | Split _ _ => true
  | _ => false
  end.

(** The hold-out records (the test side of the first split of the run)
    and the events logged after that split. *)
Fixpoint after_first_split (l : list event) : option (list nat * list event) :=
  match l with
  | [] => None
  | Split _ hold_out :: rest => Some (hold_out, rest)
  | _ :: rest => after_first_split rest
  end.

(** The events logged before the first split. *)
Fixpoint before_first_split (l : list event) : list event :=
  match l with
  | [] => []
  | Split _ _ :: _ => []
  | ev :: rest => ev :: before_first_split rest
  end.

End Notebooks.

(* ================================================================== *)
(** * A small implementation of the library interface *)
(* ================================================================== *)

(** A deterministic stand-in for numpy and scikit-learn, to run the
    notebooks on concrete data: the generator's state is a counter, a
    permutation is a rotation by that counter, a sample takes the first
    grid points, a fitted model remembers its estimator and the records it
    was fitted on, and the square root is taken to three decimals.  As in
    scikit-learn, a K-nearest-neighbours model fitted on fewer records than
    it wants neighbours raises when it predicts or is scored. *)
Definition rotation (g n : nat) : list nat :=
  skipn (g mod n) (seq 0 n) ++ firstn (g mod n) (seq 0 n).

Definition sqrt_3_decimals (q : Q) : Q :=
  Z.sqrt (Qnum q * Zpos (Qden q) * 1000000) # (Qden q * 1000).

(** [n_neighbors] of a K-nearest-neighbours estimator: 5 unless it is set. *)
Definition n_neighbors_of (est : estimator) : Z :=
  match filter (fun kv => String.eqb (fst kv) "n_neighbors") (hyper est) with
  | (_, PInt k) :: _ => k
  | _ => 5%Z
  end.

Definition too_few_records (m : estimator * list nat) : bool :=
  match algo (fst m) with
  | KNeighborsClassifier => (Z.of_nat (length (snd m)) <? n_neighbors_of (fst m))%Z
  | RandomForestClassifier => false
  end.

Definition toy_library : Library := {|
  RandomState := nat;
  RandomState_seed := Z.to_nat;
  rng_permutation := fun g n => (rotation g n, S g);
  sample_without_replacement := fun g n k => (firstn k (seq 0 n), S g);
  float_sqrt := sqrt_3_decimals;
  Model := estimator * list nat;
  lib_fit := fun est X _ => Return (est, index X);
  lib_predict := fun m X =>
    if too_few_records m then Raise (ValueError "Expected n_neighbors <= n_samples")
    else Return (map (fun _ => 0%Z) X);
  lib_predict_proba := fun m X =>
    if too_few_records m then Raise (ValueError "Expected n_neighbors <= n_samples")
    else Return (map (fun _ => 0) X);
  lib_score := fun _ m _ _ =>
    if too_few_records m then Raise (ValueError "Expected n_neighbors <= n_samples")
    else Return 0;
  lib_best_index := fun _ => 0%nat;
  Projection := unit;
  lib_pca_fit := fun _ _ => tt;
  lib_pca_transform := fun _ row => row
|}.

Definition toy_world : @world toy_library :=
  {| np_random := 0%nat : @RandomState toy_library; files := [] |}.

(** Sample data: [n] records, record [i] with the features [(i, i * i)] and
    the label [i mod 2]. *)
Definition sample_X (n : nat) : Frame features :=
  map (fun i => (i, [inject_Z (Z.of_nat i); inject_Z (Z.of_nat (i * i))])) (seq 0 n).

Definition sample_y (n : nat) : Frame Z :=
  map (fun i => (i, Z.of_nat (i mod 2))) (seq 0 n).

(* ================================================================== *)
(** * Vocabulary of the statements *)
(* ================================================================== *)

Section Vocabulary.

Context {L : Library}.

(** A computation that neither reads nor changes the world. *)
Definition pure_run {A : Type} (m : M A) (r : outcome A) (evs : list event) : Prop :=
  forall w, m w = (r, w, evs).

(** The outcome of a seeded split, as a function of its arguments alone. *)
Definition seeded_split {A B : Type} (X : Frame A) (y : Frame B)
    (test_size : Q) (seed : Z) : Frame A * Frame A * Frame B * Frame B :=
  let permutation := fst (rng_permutation (RandomState_seed seed) (length X)) in
  let n_test := n_test_of test_size (length X) in
  let ind_test := firstn n_test permutation in
  let ind_train := firstn (length X - n_test) (skipn n_test permutation) in
  (iloc X ind_train, iloc X ind_test, iloc y ind_train, iloc y ind_test).

(** The folds [StratifiedKFold(K)] makes of the labels [y], when it makes
    them: the [(train, test)] positions of fold 0, 1, ..., K-1. *)
Definition cv_folds (K : nat) (y : list Z) : list (list nat * list nat) :=
  map (fun i => (train_indices (make_test_folds K y) i,
                 test_indices (make_test_folds K y) i))
      (seq 0 K).

(** The events of one cross-validation pass: a fit on the train side and a
    scoring on the test side of every fold, in order. *)
Definition cv_pass (est : estimator) (X : Frame features) (s : scoring)
    (folds : list (list nat * list nat)) : list event :=
  flat_map (fun fold => [Fit est (index (iloc X (fst fold)));
                         Score s (index (iloc X (snd fold)))]) folds.

(** [K] folds can be made of [y]: [K] is at least 2 and some class has at
    least [K] members. *)
Definition stratifiable (K : nat) (y : list Z) : Prop :=
  (1 < K)%nat /\ exists c, (K <= count_occ Z.eq_dec y c)%nat.

Definition n_classes (y : list Z) : nat := length (nodup Z.eq_dec y).

(** Every label with its rank among the equal labels before it; [seen] are
    the labels already passed. *)
Fixpoint ranks (seen y : list Z) : list (Z * nat) :=
  match y with
  | [] => []
  | c :: y' => (c, count_occ Z.eq_dec seen c) :: ranks (c :: seen) y'
  end.

(** How many of the first [cnt] places of a class fall into fold [i]. *)
Definition share (K cnt i : nat) : nat :=
  length (filter (fun r => (fold_of (fold_sizes (Nat.max cnt K) K) r =? i)%nat)
                 (seq 0 cnt)).

(** The score of one fit/evaluate cycle, as the library computes it: a
    number, or the exception that the fit or the scorer raises. *)
Definition fold_score (est : estimator) (X : Frame features) (y : Frame Z)
    (s : scoring) (fold : list nat * list nat) : outcome Q :=
  match lib_fit est (iloc X (fst fold)) (iloc y (fst fold)) with
  | Return m => lib_score s m (iloc X (snd fold)) (iloc y (snd fold))
  | Raise e => Raise e
  end.

(** The events of one cycle: the fit, and the scoring when the fit has
    returned. *)
Definition cycle_events (est : estimator) (X : Frame features) (y : Frame Z)
    (s : scoring) (fold : list nat * list nat) : list event :=
  Fit est (index (iloc X (fst fold)))
  :: match lib_fit est (iloc X (fst fold)) (iloc y (fst fold)) with
     | Return _ => [Score s (index (iloc X (snd fold)))]
     | Raise _ => []
     end.

(** A sequence of steps that stops at the first exception: the values in
    order, or that exception; and the events logged up to there. *)
Fixpoint all_or_first {A B : Type} (g : A -> outcome B) (l : list A)
  : outcome (list B) :=
  match l with
  | [] => Return []
  | a :: l' =>
      match g a with
      | Return b =>
          match all_or_first g l' with
          | Return bs => Return (b :: bs)
          | Raise e => Raise e
          end
      | Raise e => Raise e
      end
  end.

Fixpoint log_until_raise {A B : Type} (g : A -> outcome B) (ev : A -> list event)
    (l : list A) : list event :=
  match l with
  | [] => []
  | a :: l' =>
      ev a ++ match g a with
              | Return _ => log_until_raise g ev l'
              | Raise _ => []
              end
  end.

(** The scores of a candidate of a search on the folds, or the first
    exception of the learner, and the cycles run for it. *)
Definition candidate_scores (est : estimator) (X : Frame features) (y : Frame Z)
    (s : scoring) (folds : list (list nat * list nat)) (p : params)
  : outcome (list Q) :=
  all_or_first (fold_score (set_params est p) X y s) folds.

Definition candidate_events (est : estimator) (X : Frame features) (y : Frame Z)
    (s : scoring) (folds : list (list nat * list nat)) (p : params)
  : list event :=
  log_until_raise (fold_score (set_params est p) X y s)
                  (cycle_events (set_params est p) X y s) folds.

(** The learner goes through every cycle of a pass without raising. *)
Definition accepts (est : estimator) (X : Frame features) (y : Frame Z)
    (s : scoring) (folds : list (list nat * list nat)) : Prop :=
  forall fold, In fold folds -> exists q, fold_score est X y s fold = Return q.

(** The number an outcome holds. *)
Definition score_of (o : outcome Q) : Q :=
  match o with
  | Return q => q
  | Raise _ => 0
  end.

(** The outcome is a value, not an exception. *)
Definition returns {A : Type} (r : outcome A) : Prop := exists a, r = Return a.

(** The events of a search over [candidates]: one cross-validation pass
    per candidate, then the refit of the best one on all of [X]. *)
Definition search_events (est : estimator) (candidates : list params)
    (s : scoring) (X : Frame features) (folds : list (list nat * list nat))
    (best_params : params) : list event :=
  flat_map (fun p => cv_pass (set_params est p) X s folds) candidates
  ++ [Fit (set_params est best_params) (index X)].

(** The records a classifier learns from, or is validated on, in an event
    of the log.  Predictions are not counted: the final evaluation predicts
    on the hold-out records. *)
Definition learning_rows (ev : event) : list nat :=
  match ev with
  | Fit _ rows => rows
  | Score _ rows => rows
  | _ => []
  end.

(** An event that is no split and touches only records of [R]. *)
Definition within (R : list nat) (ev : event) : Prop :=
  is_split ev = false /\ incl (learning_rows ev) R.

(** Every event [m] logs satisfies [P], and a value it returns satisfies
    [Q], whatever the world it starts from. *)
Definition emits {A : Type} (P : event -> Prop) (Q : A -> Prop) (m : M A) : Prop :=
  forall w, Forall P (events_of (m w))
            /\ (forall a, result_of (m w) = Return a -> Q a).

(** Scaling and projecting keep the records of every subset. *)
Definition same_records (p0 p : partition) : Prop :=
  index (X_train p) = index (X_train p0) /\ index (X_ p) = index (X_ p0).

End Vocabulary.

(* ================================================================== *)
(** * More of the notebooks' code *)
(* ================================================================== *)

(** The expression of the [elif] arm of [null_accuracy_score], on its own:
    [labels.value_counts().head(1).item() / len(labels)], the share of the
    most frequent label. *)
Definition most_frequent_share (labels : Series) : outcome pyfloat :=
  match head1_item (value_counts labels) with
  | Return top =>
      Return (Fin (inject_Z (Z.of_nat top) / inject_Z (Z.of_nat (length labels))))
  | Raise e => Raise e
  end.

(** [list.sort()] on integers. *)
Fixpoint sorted_insert (v : Z) (l : list Z) : list Z :=
  match l with
  | [] => [v]
  | x :: l' => if Z.leb v x then v :: l else x :: sorted_insert v l'
  end.

Definition py_sort (l : list Z) : list Z := fold_right sorted_insert [] l.

(** [d[key]] where the search put an integer; [None] stands for a missing
    key or a value that is no integer. *)
Definition int_param (key : string) (d : params) : option Z :=
  match filter (fun kv => String.eqb (fst kv) key) d with
  | (_, PInt z) :: _ => Some z
  | _ => None
  end.

(** What release 0.19.0 does when a K-nearest-neighbours classifier is to
    predict with more neighbours than it was given training records:
    [kneighbors] raises ValueError, and so do the scorers, which predict. *)
Class KNeighborsLaws (L : Library) : Prop := {
  too_few_training_records :
    forall (est : estimator) (X : Frame features) (y : Frame Z) (m : Model)
           (k : Z) (s : scoring) (X_test : Frame features) (y_test : Frame Z),
      algo est = KNeighborsClassifier ->
      int_param "n_neighbors" (hyper est) = Some k ->
      lib_fit est X y = Return m ->
      (Z.of_nat (length X) < k)%Z ->
      exists msg, lib_score s m X_test y_test = Raise (ValueError msg)
}.

(** The loop of the cell that lists the estimator counts of the sampled
    candidates: every value is appended, and the list sorted, in turn.
    [estimators] is the list built so far. *)
Fixpoint estimators_loop (estimators : list Z) (param_estimators : list params)
  : option (list Z) :=
  match param_estimators with
  | [] => Some estimators
  | d :: rest =>
      match int_param "n_estimators" d with
      | Some v => estimators_loop (py_sort (estimators ++ [v])) rest
      | None => None
      end
  end.

Definition estimators_cell (param_estimators : list params) : option (list Z) :=
  estimators_loop [] param_estimators.

(** The product of the sizes of the value lists of a space. *)
Definition space_size (space : param_space) : nat :=
  fold_right (fun kv n => (length (snd kv) * n)%nat) 1%nat space.

(** The cell that splits the mean test scores of the grid search by
    weight.  Its loop fills [weights] with [params[i]['weights']], the frame
    [results] has one row per candidate, and
    [results[results.weights == weight].scores] keeps the scores of the rows
    with that weight. *)
Definition is_weight (weight : string) (v : pv) : bool :=
  match v with
  | PStr s => String.eqb s weight
  | _ => false
  end.

Definition scores_by_weight (mean_test_scores : list Q) (params : list params)
    (weight : string) : list Q :=
  let weights := map (get_param "weights") params in
  let results := combine mean_test_scores weights in
  map fst (filter (fun row => is_weight weight (snd row)) results).

(** The cells "Use the Best Parameters to Make Predictions Using the
    Hold-Out Data" and the evaluation after it, on their own: a forest with
    the best parameters of the search [rand] is fitted on the train/test
    set, [rand.predict] and [rand.predict_proba] are called on the hold-out
    features, and [show_accuracy] shows the accuracy of the predictions.
    Returns the fitted forest, the predictions and the two numbers shown. *)
Section FinalCells.

Context {L : Library}.

Definition best_forest (rand : search_result) : estimator :=
  let n_estimators := get_param "n_estimators" (best_params_ rand) in
  let max_feature := get_param "max_features" (best_params_ rand) in
  let max_depth := get_param "max_depth" (best_params_ rand) in
  let criteria := get_param "criterion" (best_params_ rand) in
  {| algo := RandomForestClassifier;
     hyper := [("n_estimators", n_estimators);
               ("max_features", max_feature);
               ("criterion", criteria);
               ("max_depth", max_depth);
               ("random_state", PInt 42)]%string |}.

Definition holdout_cells (rand : search_result) (p : partition)
  : M (Model * list Z * (pyfloat * pyfloat)) :=
  rfc_fitted <- estimator_fit (best_forest rand) (X_ p) (y_ p) ;;
  y_pred <- model_predict (best_estimator_ rand) (X_eval p) ;;
  y_probs <- model_predict_proba (best_estimator_ rand) (X_eval p) ;;
  shown <- show_accuracy (y_eval p) y_pred CLASSIFICATION_TYPE ;;
  ret (rfc_fitted, y_pred, shown).

End FinalCells.

(* ================================================================== *)
(** * Theorems *)
(* ================================================================== *)

(* ------------------------------------------------------------------ *)
(** ** [null_accuracy_score] *)

Lemma Zsum_binary (labels : Series) :
  is_binary labels ->
  Zsum labels = Z.of_nat (count_occ Z.eq_dec labels 1%Z).
Proof.
  induction 1 as [|v l Hv _ IH]; simpl.
  - reflexivity.
  - rewrite IH. destruct Hv; subst v; destruct (Z.eq_dec _ _); try lia; congruence.
Qed.

Lemma py_max_Fin (x y : Q) :
  exists r, py_max (Fin x) (Fin y) = Fin r /\ r == Qmax x y.
Proof.
  unfold py_max, float_gt.
  destruct (Qle_bool y x) eqn:E; simpl.
  - exists x. split; [reflexivity|].
    apply Qle_bool_iff in E. symmetry. apply Q.max_l. exact E.
  - exists y. split; [reflexivity|].
    symmetry. apply Q.max_r. apply Qlt_le_weak. apply Qnot_le_lt.
    intro H. apply Qle_bool_iff in H. congruence.
Qed.

Lemma null_accuracy_branch_self (g : string) : null_accuracy_branch g g = BrIf.
Proof. unfold null_accuracy_branch. now rewrite String.eqb_refl. Qed.

(** C2. For a non-empty Series of 0/1 labels with positive fraction [p],
    [null_accuracy_score(labels, 'Binary')] returns [max(p, 1 - p)]. *)
Theorem null_accuracy_score_binary (labels : Series) :
  labels <> [] ->
  is_binary labels ->
  exists r,
    null_accuracy_score CLASSIFICATION_TYPE labels "Binary" = Return (Fin r)
    /\ r == Qmax (positive_fraction labels) (1 - positive_fraction labels).
Proof.
  intros Hne Hbin.
  unfold null_accuracy_score.
  change "Binary"%string with CLASSIFICATION_TYPE.
  rewrite null_accuracy_branch_self.
  unfold astype_int, Series_mean.
  destruct labels as [|v l]; [congruence|].
  cbv beta iota. unfold float_sub.
  destruct (py_max_Fin (inject_Z (Zsum (v :: l)) / inject_Z (Z.of_nat (length (v :: l))))
              (1 - inject_Z (Zsum (v :: l)) / inject_Z (Z.of_nat (length (v :: l)))))
    as (r & Hr & Hmax).
  exists r. split.
  - now rewrite Hr.
  - rewrite Hmax. unfold positive_fraction. now rewrite (Zsum_binary Hbin).
Qed.

(** The example of C2: for the labels [1, 1, 1, 0] the score is 0.75. *)
Lemma null_accuracy_score_binary_example :
  exists r,
    null_accuracy_score CLASSIFICATION_TYPE [1; 1; 1; 0]%Z "Binary" = Return (Fin r)
    /\ r == 0.75.
Proof.
  destruct (@null_accuracy_score_binary [1; 1; 1; 0]%Z) as (r & Hr & Hmax).
  - discriminate.
  - repeat (apply Forall_cons; [lia|]). apply Forall_nil.
  - exists r. split; [exact Hr|].
    rewrite Hmax. vm_compute. reflexivity.
Defined.

(** C3 (the behaviour of the code). With the notebooks' global
    [CLASSIFICATION_TYPE = 'Binary'], the validation error is raised for
    every argument other than ['Binary'], ['Multiple'] included; only
    ['Binary'] yields a score. *)
Theorem null_accuracy_score_raises_iff (labels : Series) (classification_type : string) :
  (null_accuracy_score CLASSIFICATION_TYPE labels classification_type
   = Raise (ValueError (bad_input_message classification_type))
   <-> classification_type <> "Binary"%string)
  /\ null_accuracy_score CLASSIFICATION_TYPE labels "Multiple"
     = Raise (ValueError "Bad input Multiple. Must specify either 'Binary' or 'Multiple'.").
Proof.
  split; [|reflexivity].
  unfold null_accuracy_score, null_accuracy_branch, CLASSIFICATION_TYPE.
  destruct (String.eqb_spec classification_type "Binary") as [E|E].
  - split; [discriminate | congruence].
  - split; [intros _; exact E | reflexivity].
Qed.

(** C4. The [elif] arm of [null_accuracy_score] is never executed, whatever
    the labels, the argument and the value of the global: its condition is
    the condition of the first arm, and the function is the two-armed one. *)
Theorem null_accuracy_elif_unreachable
    (g : string) (labels : Series) (classification_type : string) :
  null_accuracy_branch g classification_type <> BrElif
  /\ null_accuracy_score g labels classification_type
     = if String.eqb classification_type g
       then Return (py_max (Series_mean (astype_int labels))
                           (float_sub (Fin 1) (Series_mean (astype_int labels))))
       else Raise (ValueError (bad_input_message classification_type)).
Proof.
  unfold null_accuracy_score, null_accuracy_branch.
  destruct (String.eqb classification_type g); split; (discriminate || reflexivity).
Qed.

(* ------------------------------------------------------------------ *)
(** ** The monad: how results, worlds and logs compose *)

Section MonadFacts.

Context {L : Library}.

Lemma bind_Return {A B : Type} (m : M A) (f : A -> M B) w a w1 l1 :
  m w = (Return a, w1, l1) ->
  bind m f w = (result_of (f a w1), world_of (f a w1), l1 ++ events_of (f a w1)).
Proof.
  intros H. unfold bind. rewrite H.
  destruct (f a w1) as [[r w2] l2]. reflexivity.
Qed.

Lemma bind_Raise {A B : Type} (m : M A) (f : A -> M B) w e w1 l1 :
  m w = (Raise e, w1, l1) ->
  bind m f w = (Raise e, w1, l1).
Proof. intros H. unfold bind. now rewrite H. Qed.

Lemma pure_run_bind {A B : Type} (m : M A) (f : A -> M B) a evs r evs' :
  pure_run m (Return a) evs ->
  pure_run (f a) r evs' ->
  pure_run (bind m f) r (evs ++ evs').
Proof.
  intros Hm Hf w. unfold bind; rewrite (Hm w), (Hf w). reflexivity.
Qed.

Lemma pure_run_bind_raise {A B : Type} (m : M A) (f : A -> M B) e evs :
  pure_run m (Raise e) evs ->
  pure_run (bind m f) (Raise e) evs.
Proof. intros Hm w. unfold bind; now rewrite (Hm w). Qed.

Lemma events_of_bind {A B : Type} (m : M A) (f : A -> M B) (w : world) :
  events_of (bind m f w)
  = events_of (m w)
    ++ match result_of (m w) with
       | Return a => events_of (f a (world_of (m w)))
       | Raise _ => []
       end.
Proof.
  unfold bind, events_of, result_of, world_of.
  destruct (m w) as [[[a|e] w1] l1]; simpl.
  - destruct (f a w1) as [[r w2] l2]. reflexivity.
  - now rewrite app_nil_r.
Qed.

Lemma result_of_bind {A B : Type} (m : M A) (f : A -> M B) (w : world) (b : B) :
  result_of (bind m f w) = Return b ->
  exists a, result_of (m w) = Return a
            /\ result_of (f a (world_of (m w))) = Return b.
Proof.
  unfold bind, result_of, world_of.
  destruct (m w) as [[[a|e] w1] l1]; simpl.
  - destruct (f a w1) as [[r w2] l2] eqn:E. simpl. intros ->.
    exists a. rewrite E. split; reflexivity.
  - discriminate.
Qed.

Lemma pure_run_ret {A : Type} (a : A) : pure_run (ret a) (Return a) [].
Proof. intros w. reflexivity. Qed.

Lemma pure_run_emit (ev : event) : pure_run (emit ev) (Return tt) [ev].
Proof. intros w. reflexivity. Qed.

Lemma pure_run_lift {A : Type} (o : outcome A) : pure_run (lift o) o [].
Proof. intros w. reflexivity. Qed.

Lemma pure_run_with_rng {A : Type} (seed : Z) (draw : RandomState -> A * RandomState) :
  pure_run (with_rng (Some seed) draw) (Return (fst (draw (RandomState_seed seed)))) [].
Proof.
  intros w. unfold with_rng, check_random_state.
  destruct (draw (RandomState_seed seed)). reflexivity.
Qed.

End MonadFacts.

(* ------------------------------------------------------------------ *)
(** ** [train_test_split]: determinism *)

Section SplitDeterminism.

Context {L : Library}.

Lemma train_test_split_seeded {A B : Type} (X : Frame A) (y : Frame B)
    (test_size : Q) (seed : Z) :
  Qle_bool 1 test_size = false ->
  pure_run (train_test_split X y test_size (Some seed))
           (Return (seeded_split X y test_size seed))
           [Split (index (fst (fst (fst (seeded_split X y test_size seed)))))
                  (index (snd (fst (fst (seeded_split X y test_size seed)))))].
Proof.
  intros Hlt. unfold train_test_split. rewrite Hlt.
  eapply pure_run_bind with (evs := []); [apply pure_run_with_rng|].
  eapply pure_run_bind with (evs := [_]) (evs' := []); [apply pure_run_emit|].
  apply pure_run_ret.
Qed.

Lemma train_test_split_seeded_any {A B : Type} (X : Frame A) (y : Frame B)
    (test_size : Q) (seed : Z) :
  exists r evs, pure_run (train_test_split X y test_size (Some seed)) r evs.
Proof.
  destruct (Qle_bool 1 test_size) eqn:E.
  - exists (Raise (ValueError "test_size should be smaller than 1.0 or be an integer")), [].
    intros w. unfold train_test_split. rewrite E. reflexivity.
  - eexists; eexists. apply train_test_split_seeded. exact E.
Qed.

Lemma two_stage_split_seeded_any (hold_out test_size : Q) (seed : Z)
    (X : Frame features) (y : Frame Z) :
  exists r evs, pure_run (two_stage_split hold_out test_size (Some seed) X y) r evs.
Proof.
  unfold two_stage_split.
  destruct (train_test_split_seeded_any X y hold_out seed) as (r1 & e1 & H1).
  destruct r1 as [[[[X' X_eval'] y'] y_eval']|e].
  - destruct (train_test_split_seeded_any X' y' test_size seed) as (r2 & e2 & H2).
    destruct r2 as [[[[Xtr Xte] ytr] yte]|e].
    + eexists; eexists.
      eapply pure_run_bind; [exact H1|]. cbv beta iota.
      eapply pure_run_bind; [exact H2|]. cbv beta iota.
      apply pure_run_ret.
    + eexists; eexists.
      eapply pure_run_bind; [exact H1|]. cbv beta iota.
      apply pure_run_bind_raise. exact H2.
  - eexists; eexists. apply pure_run_bind_raise. exact H1.
Qed.

(** C7. Splitting the same data twice with the same integer seed yields
    the same subsets, whatever the state of numpy's global generator and
    of the working directory in the two runs; this holds for one
    [train_test_split] and for the two-stage partition (train, test and
    hold-out), and neither run touches the global generator. *)
Theorem split_same_seed_same_partition
    (X : Frame features) (y : Frame Z) (hold_out test_size : Q) (seed : Z)
    (w1 w2 : world) :
  result_of (train_test_split X y test_size (Some seed) w1)
  = result_of (train_test_split X y test_size (Some seed) w2)
  /\ result_of (two_stage_split hold_out test_size (Some seed) X y w1)
     = result_of (two_stage_split hold_out test_size (Some seed) X y w2)
  /\ world_of (two_stage_split hold_out test_size (Some seed) X y w1) = w1.
Proof.
  destruct (train_test_split_seeded_any X y test_size seed) as (r & e & H).
  destruct (two_stage_split_seeded_any hold_out test_size seed X y) as (r' & e' & H').
  rewrite (H w1), (H w2), (H' w1), (H' w2). repeat split.
Qed.

End SplitDeterminism.

(* ------------------------------------------------------------------ *)
(** ** Positional selection *)

Lemma index_app {A : Type} (f g : Frame A) : index (f ++ g) = index f ++ index g.
Proof. apply map_app. Qed.

Lemma iloc_app {A : Type} (f : Frame A) (ps qs : list nat) :
  iloc f (ps ++ qs) = iloc f ps ++ iloc f qs.
Proof. apply flat_map_app. Qed.

Lemma iloc_seq_from {A : Type} (pre f : Frame A) :
  iloc (pre ++ f) (seq (length pre) (length f)) = f.
Proof.
  revert pre. induction f as [|a f IH]; intros pre; simpl.
  - reflexivity.
  - rewrite nth_error_app2, Nat.sub_diag by lia. simpl. f_equal.
    specialize (IH (pre ++ [a])).
    rewrite <- app_assoc, length_app, Nat.add_1_r in IH. exact IH.
Qed.

Lemma iloc_seq {A : Type} (f : Frame A) : iloc f (seq 0 (length f)) = f.
Proof. apply (iloc_seq_from [] f). Qed.

Lemma iloc_length {A : Type} (f : Frame A) (ps : list nat) :
  Forall (fun p => (p < length f)%nat) ps ->
  length (iloc f ps) = length ps.
Proof.
  induction 1 as [|p ps Hp _ IH]; simpl.
  - reflexivity.
  - apply nth_error_Some in Hp.
    destruct (nth_error f p); [|congruence]. simpl. now rewrite IH.
Qed.

Lemma iloc_perm {A : Type} (f : Frame A) (ps : list nat) :
  Permutation ps (seq 0 (length f)) ->
  Permutation (iloc f ps) f.
Proof.
  intros H. rewrite <- (iloc_seq f) at 2.
  unfold iloc. now apply Permutation_flat_map.
Qed.

Lemma iloc_incl {A : Type} (f : Frame A) (ps : list nat) : incl (iloc f ps) f.
Proof.
  intros r Hr. apply in_flat_map in Hr. destruct Hr as (p & _ & Hr).
  destruct (nth_error f p) eqn:E; simpl in Hr; [|contradiction].
  destruct Hr as [<-|[]]. eapply nth_error_In; eassumption.
Qed.

Lemma index_iloc_incl {A : Type} (f : Frame A) (ps : list nat) :
  incl (index (iloc f ps)) (index f).
Proof. apply incl_map, iloc_incl. Qed.

(* ------------------------------------------------------------------ *)
(** ** [train_test_split]: the two subsets partition the data *)

Lemma n_test_of_le (test_size : Q) (n : nat) :
  test_size < 1 -> (n_test_of test_size n <= n)%nat.
Proof.
  intros H. unfold n_test_of.
  assert (Qceiling (test_size * inject_Z (Z.of_nat n)) <= Z.of_nat n)%Z as Hc.
  { rewrite <- (Qceiling_Z (Z.of_nat n)) at 2.
    apply Qceiling_resp_le.
    assert (0 <= inject_Z (Z.of_nat n)) as Hn
      by (unfold Qle; simpl; lia).
    rewrite <- (Qmult_1_l (inject_Z (Z.of_nat n))) at 2.
    apply Qmult_le_compat_r; [apply Qlt_le_weak; exact H | exact Hn]. }
  lia.
Qed.

Section SplitPartition.

Context {L : Library} {LL : LibraryLaws L}.

Lemma rng_permutation_length (g : RandomState) (n : nat) :
  length (fst (rng_permutation g n)) = n.
Proof.
  rewrite (Permutation_length (rng_permutation_perm g n)). apply length_seq.
Qed.

Lemma rng_permutation_range (g : RandomState) (n : nat) :
  Forall (fun p => (p < n)%nat) (fst (rng_permutation g n)).
Proof.
  apply Forall_forall. intros p Hp.
  apply (Permutation_in _ (rng_permutation_perm g n)) in Hp.
  apply in_seq in Hp. lia.
Qed.

(** What a seeded split returns: the test subset has [ceil(test_size * n)]
    records, and test and train subsets together are a rearrangement of the
    data, for the features and for the labels alike. *)
Lemma seeded_split_partition {A B : Type} (X : Frame A) (y : Frame B)
    (test_size : Q) (seed : Z) :
  test_size < 1 ->
  match seeded_split X y test_size seed with
  | (X_train, X_test, y_train, y_test) =>
      Permutation (X_test ++ X_train) X
      /\ length X_test = n_test_of test_size (length X)
      /\ length X_train = (length X - n_test_of test_size (length X))%nat
      /\ (length y = length X -> Permutation (y_test ++ y_train) y)
  end.
Proof.
  intros Hlt. unfold seeded_split.
  set (perm := fst (rng_permutation (RandomState_seed seed) (length X))).
  set (n_test := n_test_of test_size (length X)).
  assert (length perm = length X) as Hlen by apply rng_permutation_length.
  assert (n_test <= length X)%nat as Hle by (apply n_test_of_le; exact Hlt).
  assert (firstn (length X - n_test) (skipn n_test perm) = skipn n_test perm) as Htr.
  { apply firstn_all2. rewrite length_skipn. lia. }
  rewrite Htr.
  assert (Forall (fun p => (p < length X)%nat) perm) as Hrange
    by apply rng_permutation_range.
  assert (Permutation perm (seq 0 (length X))) as Hperm
    by apply rng_permutation_perm.
  repeat split.
  - rewrite <- iloc_app, firstn_skipn. now apply iloc_perm.
  - rewrite iloc_length.
    + rewrite length_firstn. lia.
    + rewrite <- (firstn_skipn n_test perm) in Hrange.
      apply Forall_app in Hrange. tauto.
  - rewrite iloc_length.
    + rewrite length_skipn. lia.
    + rewrite <- (firstn_skipn n_test perm) in Hrange.
      apply Forall_app in Hrange. tauto.
  - intros Hy. rewrite <- iloc_app, firstn_skipn.
    apply iloc_perm. now rewrite Hy.
Qed.

End SplitPartition.

Lemma NoDup_app_disjoint {A : Type} (l l' : list A) :
  NoDup (l ++ l') -> forall x, In x l -> ~ In x l'.
Proof.
  induction l as [|a l IH]; simpl; intros H x Hx; [contradiction|].
  inversion H as [|? ? Hnotin Hnd]; subst.
  destruct Hx as [<-|Hx].
  - intros Hin. apply Hnotin. apply in_or_app. now right.
  - now apply IH.
Qed.

Lemma n_test_of_Qeq (f f' : Q) (n : nat) : f == f' -> n_test_of f n = n_test_of f' n.
Proof. intros H. unfold n_test_of. now rewrite H. Qed.

Lemma Qle_bool_1_false (f : Q) : f < 1 -> Qle_bool 1 f = false.
Proof.
  intros H. destruct (Qle_bool 1 f) eqn:E; [|reflexivity].
  apply Qle_bool_iff in E. exfalso. eapply Qlt_irrefl, Qlt_le_trans; eassumption.
Qed.

Section TwoStage.

Context {L : Library} {LL : LibraryLaws L}.

(** C8. For fractions in (0,1) the two-stage partition returns three
    subsets whose sizes add up to the size of the data and whose records
    are pairwise distinct (together they are a rearrangement of the data,
    every record in exactly one subset);
    on 100 records with a hold-out fraction of 0.2 and a test fraction of
    0.2, the hold-out subset has 20 records, the train subset 64 and the
    test subset 16. *)
Theorem two_stage_split_partition
    (X : Frame features) (y : Frame Z) (hold_out test_size : Q) (seed : Z)
    (w : world) :
  0 < hold_out -> hold_out < 1 -> 0 < test_size -> test_size < 1 ->
  NoDup (index X) ->
  exists p evs,
    two_stage_split hold_out test_size (Some seed) X y w = (Return p, w, evs)
    /\ (length (X_train p) + length (X_test p) + length (X_eval p) = length X)%nat
    /\ Permutation (X_train p ++ X_test p ++ X_eval p) X
    /\ (forall r, In r (index (X_train p)) -> ~ In r (index (X_test p)))
    /\ (forall r, In r (index (X_train p)) -> ~ In r (index (X_eval p)))
    /\ (forall r, In r (index (X_test p)) -> ~ In r (index (X_eval p)))
    /\ (length X = 100%nat -> hold_out == 0.2 -> test_size == 0.2 ->
        length (X_eval p) = 20%nat
        /\ length (X_train p) = 64%nat
        /\ length (X_test p) = 16%nat).
Proof.
  intros _ Hh _ Ht Hnd.
  pose proof (train_test_split_seeded X y hold_out seed (Qle_bool_1_false Hh)) as H1.
  pose proof (seeded_split_partition X y (test_size:=hold_out) seed Hh) as P1.
  destruct (seeded_split X y hold_out seed) as [[[X' Xev] y'] yev].
  destruct P1 as (Pp1 & Pte1 & Ptr1 & _).
  pose proof (train_test_split_seeded X' y' test_size seed (Qle_bool_1_false Ht)) as H2.
  pose proof (seeded_split_partition X' y' (test_size:=test_size) seed Ht) as P2.
  destruct (seeded_split X' y' test_size seed) as [[[Xtr Xte] ytr] yte].
  destruct P2 as (Pp2 & Pte2 & Ptr2 & _).
  simpl in H1, H2.
  eexists; eexists. split.
  { unfold two_stage_split.
    eapply pure_run_bind; [exact H1|]. cbv beta iota.
    eapply pure_run_bind; [exact H2|]. cbv beta iota.
    apply pure_run_ret. }
  simpl.
  pose proof (n_test_of_le (length X) Hh) as Hle1.
  pose proof (n_test_of_le (length X') Ht) as Hle2.
  assert (Permutation (Xtr ++ Xte ++ Xev) X) as Hperm.
  { rewrite app_assoc.
    transitivity (X' ++ Xev).
    - apply Permutation_app_tail. rewrite <- Pp2. apply Permutation_app_comm.
    - rewrite <- Pp1. apply Permutation_app_comm. }
  assert (NoDup (index Xtr ++ index Xte ++ index Xev)) as Hnd'.
  { rewrite <- !index_app.
    eapply Permutation_NoDup; [symmetry; apply (Permutation_map fst Hperm) | exact Hnd]. }
  split; [lia|]. split; [exact Hperm|].
  split; [|split; [|split]].
  - intros r Hr Hr'.
    eapply NoDup_app_disjoint; [exact Hnd' | exact Hr | apply in_or_app; now left].
  - intros r Hr Hr'.
    eapply NoDup_app_disjoint; [exact Hnd' | exact Hr | apply in_or_app; now right].
  - apply NoDup_app_remove_l in Hnd'. intros r Hr.
    eapply NoDup_app_disjoint; [exact Hnd' | exact Hr].
  - intros Hn Eh Et.
    rewrite Pte1, Ptr2, Pte2, Ptr1.
    rewrite (n_test_of_Qeq _ Eh), Hn.
    rewrite !(n_test_of_Qeq _ Et).
    repeat split; reflexivity.
Qed.

End TwoStage.

(* ------------------------------------------------------------------ *)
(** ** The small library obeys the laws *)

Lemma rotation_perm (g n : nat) : Permutation (rotation g n) (seq 0 n).
Proof.
  unfold rotation.
  rewrite Permutation_app_comm. now rewrite firstn_skipn.
Qed.

Lemma toy_library_laws : LibraryLaws toy_library.
Proof.
  constructor; simpl.
  - intros g n. apply rotation_perm.
  - intros g n k H. rewrite length_firstn, length_seq. lia.
  - intros g n k. apply Forall_forall. intros i Hi.
    assert (In i (firstn k (seq 0 n) ++ skipn k (seq 0 n))) as Hin
      by (apply in_or_app; now left).
    rewrite firstn_skipn in Hin. apply in_seq in Hin. lia.
  - intros g n k. apply (NoDup_app_remove_r _ (skipn k (seq 0 n))).
    rewrite firstn_skipn. apply seq_NoDup.
  - intros scores H. destruct scores; [congruence|]. simpl. lia.
Qed.

Lemma index_sample_X (n : nat) : index (sample_X n) = seq 0 n.
Proof.
  unfold index, sample_X. rewrite map_map. simpl. apply map_id.
Qed.

Lemma index_sample_y (n : nat) : index (sample_y n) = seq 0 n.
Proof.
  unfold index, sample_y. rewrite map_map. simpl. apply map_id.
Qed.

(** C8 on the sample data: 100 records, both fractions 0.2. *)
Lemma two_stage_split_partition_sample :
  exists p evs,
    @two_stage_split toy_library 0.2 0.2 (Some 42%Z) (sample_X 100) (sample_y 100)
                     toy_world
    = (Return p, toy_world, evs)
    /\ length (X_eval p) = 20%nat
    /\ length (X_train p) = 64%nat
    /\ length (X_test p) = 16%nat.
Proof.
  destruct (@two_stage_split_partition toy_library toy_library_laws
              (sample_X 100) (sample_y 100) 0.2 0.2 42%Z toy_world)
    as (p & evs & Hrun & _ & _ & _ & _ & _ & Hsizes).
  - reflexivity.
  - reflexivity.
  - reflexivity.
  - reflexivity.
  - rewrite index_sample_X. apply seq_NoDup.
  - exists p, evs. split; [exact Hrun|].
    apply Hsizes.
    + unfold sample_X. rewrite length_map. apply length_seq.
    + reflexivity.
    + reflexivity.
Defined.

(* ------------------------------------------------------------------ *)
(** ** [export_model] *)

Section ExportModel.

Context {L : Library}.

Lemma read_file_head (name : string) (c : file_content)
    (fs : list (string * file_content)) :
  read_file name ((name, c) :: fs) = Some c.
Proof. unfold read_file. simpl. now rewrite String.eqb_refl. Qed.

(** C10 (the behaviour of the code). As the notebooks stand, [pickle] is
    never imported: [export_model(m, a)] creates [Customer_Churn_<a>.pkl],
    raises [NameError] and leaves the file empty, so nothing can be loaded
    from it.  Were [pickle] imported, the file would hold the global [rfc],
    whatever model [m] was passed. *)
Theorem export_model_ignores_its_argument
    (m rfc : Model) (algorithm_name : string) (w : world) :
  let file_name := ("Customer_Churn_" ++ algorithm_name ++ ".pkl")%string in
  let as_is := export_model {| g_rfc := Some rfc; g_pickle := false |}
                            m algorithm_name w in
  let with_import := export_model {| g_rfc := Some rfc; g_pickle := true |}
                                  m algorithm_name w in
  result_of as_is = Raise (NameError "pickle")
  /\ read_file file_name (files (world_of as_is)) = Some []
  /\ pickle_load file_name (world_of as_is) = None
  /\ result_of with_import = Return tt
  /\ pickle_load file_name (world_of with_import) = Some rfc.
Proof.
  cbv zeta. unfold export_model, pickle_load, bind, open_wb, lookup_global,
    pickle_dump, ret, raise, result_of, world_of.
  cbn [g_pickle g_rfc fst snd files].
  rewrite !read_file_head. repeat split.
Qed.

End ExportModel.

(* ------------------------------------------------------------------ *)
(** ** The standardisation cell *)

Section ScalerFacts.

Context {L : Library}.






End ScalerFacts.



(* ------------------------------------------------------------------ *)
(** ** Counting in lists *)

Section Counting.

Local Open Scope nat_scope.

Lemma filter_none {A : Type} (f : A -> bool) (l : list A) :
  (forall x, In x l -> f x = false) -> filter f l = [].
Proof.
  induction l as [|a l IH]; simpl; intros H; [reflexivity|].
  rewrite (H a) by now left. apply IH. intros x Hx. apply H. now right.
Qed.

Lemma filter_all {A : Type} (f : A -> bool) (l : list A) :
  (forall x, In x l -> f x = true) -> filter f l = l.
Proof.
  induction l as [|a l IH]; simpl; intros H; [reflexivity|].
  rewrite (H a) by now left. f_equal. apply IH. intros x Hx. apply H. now right.
Qed.

Lemma length_filter_map {A B : Type} (g : A -> B) (f : B -> bool) (l : list A) :
  length (filter f (map g l)) = length (filter (fun a => f (g a)) l).
Proof.
  induction l as [|a l IH]; simpl; [reflexivity|].
  destruct (f (g a)); simpl; now rewrite IH.
Qed.

Lemma seq_add_map (s m : nat) : seq s m = map (Nat.add s) (seq 0 m).
Proof.
  induction s as [|s IH]; simpl.
  - symmetry. apply map_id.
  - rewrite <- seq_shift, IH, map_map. reflexivity.
Qed.

(** Counting the places below [n] that are at least [s] and satisfy [Q]
    once shifted down by [s]. *)
Lemma count_shift (Q : nat -> bool) (s n : nat) :
  length (filter (fun r => negb (r <? s) && Q (r - s)) (seq 0 n))
  = length (filter Q (seq 0 (n - s))).
Proof.
  destruct (Nat.le_gt_cases n s) as [Hle|Hgt].
  - replace (n - s) with 0 by lia. simpl.
    rewrite filter_none; [reflexivity|].
    intros r Hr. apply in_seq in Hr.
    destruct (Nat.ltb_spec r s); [reflexivity | lia].
  - replace n with (s + (n - s)) at 1 by lia.
    rewrite seq_app, filter_app, length_app.
    rewrite filter_none.
    + simpl. rewrite (seq_add_map s (n - s)).
      rewrite length_filter_map. f_equal. apply filter_ext_in.
      intros r Hr.
      destruct (Nat.ltb_spec (s + r) s); [lia|]. simpl. f_equal. lia.
    + intros r Hr. apply in_seq in Hr.
      destruct (Nat.ltb_spec r s); [reflexivity | lia].
Qed.

Lemma count_below (s n : nat) :
  length (filter (fun r => r <? s) (seq 0 n)) = Nat.min s n.
Proof.
  destruct (Nat.le_gt_cases n s) as [Hle|Hgt].
  - rewrite filter_all, length_seq; [lia|].
    intros r Hr. apply in_seq in Hr. apply Nat.ltb_lt. lia.
  - replace n with (s + (n - s)) at 1 by lia.
    rewrite seq_app, filter_app, length_app.
    rewrite filter_all, length_seq.
    + rewrite filter_none; [simpl; lia|].
      intros r Hr. apply in_seq in Hr. apply Nat.ltb_ge. lia.
    + intros r Hr. apply in_seq in Hr. apply Nat.ltb_lt. lia.
Qed.

(* ------------------------------------------------------------------ *)
(** ** [KFold]: sizes and places of the folds *)

Lemma fold_of_count (sizes : list nat) :
  forall i n, (i < length sizes)%nat ->
    length (filter (fun r => (fold_of sizes r =? i)%nat) (seq 0 n))
    = Nat.min (nth i sizes 0%nat) (n - list_sum (firstn i sizes)).
Proof.
  induction sizes as [|s rest IH]; intros i n Hi; simpl in Hi; [lia|].
  destruct i as [|i].
  - simpl. rewrite Nat.sub_0_r, <- count_below.
    f_equal. apply filter_ext. intros r.
    destruct (r <? s)%nat; reflexivity.
  - simpl nth. simpl firstn.
    change (list_sum (s :: firstn i rest)) with (s + list_sum (firstn i rest)).
    replace (n - (s + list_sum (firstn i rest)))
      with (n - s - list_sum (firstn i rest)) by lia.
    rewrite <- (IH i (n - s)) by lia.
    rewrite <- count_shift. f_equal. apply filter_ext. intros r.
    cbn [fold_of]. destruct (r <? s)%nat; reflexivity.
Qed.

Lemma fold_of_lt (sizes : list nat) :
  forall r, (r < list_sum sizes)%nat -> (fold_of sizes r < length sizes)%nat.
Proof.
  induction sizes as [|s rest IH]; intros r Hr; simpl in *; [lia|].
  destruct (Nat.ltb_spec r s); [lia|].
  apply -> Nat.succ_lt_mono. apply IH. lia.
Qed.

Lemma sum_fold_sizes_prefix (q e i : nat) :
  list_sum (map (fun j => (q + (if j <? e then 1 else 0))%nat) (seq 0 i))
  = (i * q + Nat.min i e)%nat.
Proof.
  induction i as [|i IH]; [reflexivity|].
  rewrite seq_S, map_app, list_sum_app, IH, Nat.add_0_l.
  change (list_sum (map (fun j => q + (if j <? e then 1 else 0)) [i]))
    with (q + (if i <? e then 1 else 0) + 0).
  destruct (Nat.ltb_spec i e); lia.
Qed.

Lemma length_fold_sizes (m K : nat) : length (fold_sizes m K) = K.
Proof. unfold fold_sizes. now rewrite length_map, length_seq. Qed.

Lemma sum_fold_sizes (m K : nat) : (0 < K)%nat -> list_sum (fold_sizes m K) = m.
Proof.
  intros HK. unfold fold_sizes. rewrite sum_fold_sizes_prefix.
  pose proof (Nat.div_mod_eq m K). pose proof (Nat.mod_upper_bound m K). nia.
Qed.

Lemma firstn_seq_le (i : nat) :
  forall s K, i <= K -> firstn i (seq s K) = seq s i.
Proof.
  induction i as [|i IH]; intros s K Hi; [reflexivity|].
  destruct K as [|K]; [lia|]. simpl. f_equal. apply IH. lia.
Qed.

Lemma firstn_fold_sizes (m K i : nat) :
  (i <= K)%nat ->
  list_sum (firstn i (fold_sizes m K)) = (i * (m / K) + Nat.min i (m mod K))%nat.
Proof.
  intros Hi. unfold fold_sizes.
  rewrite firstn_map, firstn_seq_le by lia.
  apply sum_fold_sizes_prefix.
Qed.

Lemma nth_fold_sizes (m K i : nat) :
  i < K ->
  nth i (fold_sizes m K) 0 = m / K + (if i <? m mod K then 1 else 0).
Proof.
  intros Hi. unfold fold_sizes.
  assert (nth_error (map (fun j => m / K + (if j <? m mod K then 1 else 0)) (seq 0 K)) i
          = Some (m / K + (if i <? m mod K then 1 else 0))) as H.
  { rewrite nth_error_map.
    rewrite nth_error_seq.
    destruct (Nat.ltb_spec i K); [reflexivity | lia]. }
  now apply nth_error_nth.
Qed.

(** The share of a class of [cnt] members in fold [i]: [cnt // K], and one
    more in the first [cnt % K] folds. *)
Lemma share_eq (K cnt i : nat) :
  i < K ->
  share K cnt i = cnt / K + (if i <? cnt mod K then 1 else 0).
Proof.
  intros Hi. unfold share.
  rewrite fold_of_count by now rewrite length_fold_sizes.
  rewrite nth_fold_sizes, firstn_fold_sizes by lia.
  destruct (Nat.le_gt_cases K cnt) as [Hge|Hlt].
  - rewrite Nat.max_l by lia.
    pose proof (Nat.div_mod_eq cnt K) as Hdm.
    pose proof (Nat.mod_upper_bound cnt K) as Hub.
    set (q := cnt / K) in *. set (e := cnt mod K) in *.
    assert ((i + 1) * q <= K * q) as Hq by (apply Nat.mul_le_mono_r; lia).
    destruct (Nat.ltb_spec i e); lia.
  - rewrite Nat.max_r by lia.
    rewrite Nat.div_same, Nat.Div0.mod_same by lia.
    rewrite Nat.div_small, Nat.mod_small by lia.
    destruct (Nat.ltb_spec i 0); [lia|].
    destruct (Nat.ltb_spec i cnt); lia.
Qed.

Lemma share_bounds (K cnt i : nat) :
  i < K ->
  K * share K cnt i + 1 <= cnt + K
  /\ cnt + 1 <= K * share K cnt i + K
  /\ (K <= cnt -> 1 <= share K cnt i).
Proof.
  intros Hi. rewrite share_eq by exact Hi.
  pose proof (Nat.div_mod_eq cnt K) as Hdm.
  pose proof (Nat.mod_upper_bound cnt K) as Hub.
  set (q := cnt / K) in *. set (e := cnt mod K) in *.
  repeat split.
  - destruct (Nat.ltb_spec i e); lia.
  - destruct (Nat.ltb_spec i e); lia.
  - intros Hge. assert (1 <= q) by (destruct q; [lia | lia]).
    lia.
Qed.

(* ------------------------------------------------------------------ *)
(** ** Counting by class *)

Lemma list_sum_map_update (cl : list Z) (g g' : Z -> nat) (c0 : Z) (d : nat) :
  NoDup cl -> In c0 cl ->
  (forall c, In c cl -> c <> c0 -> g c = g' c) ->
  g c0 = d + g' c0 ->
  list_sum (map g cl) = d + list_sum (map g' cl).
Proof.
  intros Hnd Hin Hother Hc0.
  induction Hnd as [|c cl Hnotin Hnd IH]; [contradiction|].
  simpl. destruct Hin as [->|Hin].
  - rewrite Hc0.
    assert (map g cl = map g' cl) as ->; [|lia].
    apply map_ext_in. intros c Hc. apply Hother; [now right|].
    intros ->. contradiction.
  - rewrite IH; [|exact Hin|].
    + rewrite (Hother c); [lia | now left | intros ->; contradiction].
    + intros c' Hc'. apply Hother. now right.
Qed.

Lemma list_sum_map_zero (cl : list Z) : list_sum (map (fun _ => 0) cl) = 0.
Proof. induction cl; simpl; auto. Qed.

Lemma list_sum_map_ge (cl : list Z) (f : Z -> nat) (c : Z) :
  In c cl -> f c <= list_sum (map f cl).
Proof.
  induction cl as [|a cl IH]; simpl; intros H; [contradiction|].
  destruct H as [->|H]; [lia|]. specialize (IH H). lia.
Qed.

(** Samples counted by class: those of [ranks seen y] that satisfy [P] are,
    class by class, the ranks from [count seen c] on that satisfy [P c]. *)
Lemma ranks_count (P : Z -> nat -> bool) (cl : list Z) :
  NoDup cl ->
  forall y seen, incl y cl ->
    length (filter (fun cr => P (fst cr) (snd cr)) (ranks seen y))
    = list_sum (map (fun c => length (filter (P c)
                                        (seq (count_occ Z.eq_dec seen c)
                                             (count_occ Z.eq_dec y c)))) cl).
Proof.
  intros Hnd y. induction y as [|c0 y IH]; intros seen Hincl.
  - simpl. symmetry. apply list_sum_map_zero.
  - cbn [ranks filter fst snd].
    assert (In c0 cl) as Hc0 by (apply Hincl; now left).
    assert (incl y cl) as Hy by (intros c Hc; apply Hincl; now right).
    rewrite (@list_sum_map_update cl
               (fun c => length (filter (P c) (seq (count_occ Z.eq_dec seen c)
                                                  (count_occ Z.eq_dec (c0 :: y) c))))
               (fun c => length (filter (P c) (seq (count_occ Z.eq_dec (c0 :: seen) c)
                                                  (count_occ Z.eq_dec y c))))
               c0 (if P c0 (count_occ Z.eq_dec seen c0) then 1 else 0)
               Hnd Hc0).
    + rewrite <- (IH (c0 :: seen) Hy).
      destruct (P c0 (count_occ Z.eq_dec seen c0)); reflexivity.
    + intros c _ Hne. rewrite !count_occ_cons_neq by congruence. reflexivity.
    + rewrite !count_occ_cons_eq by reflexivity. simpl.
      destruct (P c0 (count_occ Z.eq_dec seen c0)); reflexivity.
Qed.

Lemma assign_folds_ranks (K : nat) (y_all : list Z) :
  forall y seen,
    assign_folds K y_all seen y
    = map (fun cr => fold_of (fold_sizes (Nat.max (count_occ Z.eq_dec y_all (fst cr)) K) K)
                             (snd cr))
          (ranks seen y).
Proof.
  induction y as [|c y IH]; intros seen; simpl; [reflexivity|].
  now rewrite IH.
Qed.

Lemma length_ranks : forall y seen, length (ranks seen y) = length y.
Proof. induction y as [|c y IH]; intros seen; simpl; auto. Qed.

Lemma length_make_test_folds (K : nat) (y : list Z) :
  length (make_test_folds K y) = length y.
Proof.
  unfold make_test_folds. now rewrite assign_folds_ranks, length_map, length_ranks.
Qed.

(** The members of a class, summed over the classes, are all the samples. *)
Lemma length_by_class (y : list Z) :
  length y = list_sum (map (count_occ Z.eq_dec y) (nodup Z.eq_dec y)).
Proof.
  transitivity (length (filter (fun cr : Z * nat => (fun _ _ => true) (fst cr) (snd cr))
                               (ranks [] y))).
  - rewrite filter_all by reflexivity. symmetry. apply length_ranks.
  - rewrite (@ranks_count (fun _ _ => true) _ (NoDup_nodup Z.eq_dec y) y []).
    + f_equal. apply map_ext. intros c.
      rewrite filter_all by reflexivity. apply length_seq.
    + intros c Hc. now apply nodup_In.
Qed.

Lemma length_filter_combine_snd {A B : Type} (f : B -> bool) :
  forall (l : list A) (tf : list B),
    length l = length tf ->
    length (filter (fun p => f (snd p)) (combine l tf)) = length (filter f tf).
Proof.
  induction l as [|a l IH]; intros [|b tf] H; simpl in *; try lia.
  destruct (f b); simpl; rewrite IH by lia; reflexivity.
Qed.

(** The size of test fold [i]: the shares of the classes, added up. *)
Lemma length_test_indices (K : nat) (y : list Z) (i : nat) :
  length (test_indices (make_test_folds K y) i)
  = list_sum (map (fun c => share K (count_occ Z.eq_dec y c) i) (nodup Z.eq_dec y)).
Proof.
  unfold test_indices. rewrite length_map.
  rewrite (length_filter_combine_snd (fun t => t =? i)) by now rewrite length_seq.
  unfold make_test_folds. rewrite assign_folds_ranks, length_filter_map.
  rewrite (@ranks_count
             (fun c r => fold_of (fold_sizes (Nat.max (count_occ Z.eq_dec y c) K) K) r =? i)
             _ (NoDup_nodup Z.eq_dec y) y []).
  - reflexivity.
  - intros c Hc. now apply nodup_In.
Qed.

Lemma sum_share_bounds (K i : nat) (cnt : Z -> nat) (cl : list Z) :
  i < K ->
  K * list_sum (map (fun c => share K (cnt c) i) cl) + length cl
  <= list_sum (map cnt cl) + K * length cl
  /\ list_sum (map cnt cl) + length cl
     <= K * list_sum (map (fun c => share K (cnt c) i) cl) + K * length cl.
Proof.
  intros Hi. induction cl as [|c cl IH]; simpl; [lia|].
  destruct (@share_bounds K (cnt c) i Hi) as (H1 & H2 & _).
  rewrite Nat.mul_add_distr_l, (Nat.mul_succ_r K (length cl)). lia.
Qed.

(* ------------------------------------------------------------------ *)
(** ** The test folds partition the positions *)

Lemma assign_folds_lt (K : nat) (y_all : list Z) :
  0 < K ->
  forall y seen,
    (forall c, count_occ Z.eq_dec seen c + count_occ Z.eq_dec y c
               <= count_occ Z.eq_dec y_all c) ->
    Forall (fun t => t < K) (assign_folds K y_all seen y).
Proof.
  intros HK. induction y as [|c0 y IH]; intros seen Hinv; simpl; constructor.
  - pose proof (@fold_of_lt (fold_sizes (Nat.max (count_occ Z.eq_dec y_all c0) K) K)
                             (count_occ Z.eq_dec seen c0)) as Hlt.
    rewrite length_fold_sizes, sum_fold_sizes in Hlt by exact HK.
    apply Hlt.
    specialize (Hinv c0). rewrite count_occ_cons_eq in Hinv by reflexivity. lia.
  - apply IH. intros c. specialize (Hinv c).
    destruct (Z.eq_dec c0 c) as [->|Hne].
    + rewrite !count_occ_cons_eq in * by reflexivity. lia.
    + rewrite !count_occ_cons_neq in * by exact Hne. lia.
Qed.

Lemma make_test_folds_lt (K : nat) (y : list Z) :
  0 < K -> Forall (fun t => t < K) (make_test_folds K y).
Proof.
  intros HK. apply assign_folds_lt; [exact HK|]. intros c. simpl. lia.
Qed.

Lemma filter_lt_succ {A : Type} (l : list (A * nat)) (K : nat) :
  Permutation (filter (fun p => snd p <? K) l ++ filter (fun p => snd p =? K) l)
              (filter (fun p => snd p <? S K) l).
Proof.
  induction l as [|[a t] l IH]; simpl; [constructor|].
  destruct (Nat.ltb_spec t K), (Nat.eqb_spec t K), (Nat.ltb_spec t (S K));
    try lia; simpl.
  - now constructor.
  - rewrite <- Permutation_middle. now constructor.
  - exact IH.
Qed.

Lemma filter_by_fold_perm {A : Type} (l : list (A * nat)) (K : nat) :
  Permutation (concat (map (fun i => filter (fun p => snd p =? i) l) (seq 0 K)))
              (filter (fun p => snd p <? K) l).
Proof.
  induction K as [|K IH].
  - simpl. rewrite filter_none; [constructor | reflexivity].
  - rewrite seq_S, map_app, concat_app. simpl. rewrite app_nil_r.
    rewrite IH. apply filter_lt_succ.
Qed.

Lemma map_fst_combine_seq {B : Type} (l : list nat) (tf : list B) :
  length l = length tf -> map fst (combine l tf) = l.
Proof.
  revert tf. induction l as [|a l IH]; intros [|b tf] H; simpl in *; try lia.
  - reflexivity.
  - f_equal. apply IH. lia.
Qed.

Lemma test_indices_partition (tf : list nat) (K : nat) :
  Forall (fun t => t < K) tf ->
  Permutation (concat (map (test_indices tf) (seq 0 K))) (seq 0 (length tf)).
Proof.
  intros Hlt. unfold test_indices.
  rewrite <- (map_map (fun i => filter (fun p => snd p =? i)
                                       (combine (seq 0 (length tf)) tf))
                      (map fst)).
  rewrite <- concat_map.
  rewrite filter_by_fold_perm.
  rewrite filter_all.
  - rewrite map_fst_combine_seq; [reflexivity | apply length_seq].
  - intros [a t] Hin. apply in_combine_r in Hin.
    rewrite Forall_forall in Hlt. apply Nat.ltb_lt. now apply Hlt.
Qed.

Lemma filter_negb_perm {A : Type} (f : A -> bool) (l : list A) :
  Permutation (filter (fun a => negb (f a)) l ++ filter f l) l.
Proof.
  induction l as [|a l IH]; simpl; [constructor|].
  destruct (f a); simpl.
  - rewrite <- Permutation_middle. now constructor.
  - now constructor.
Qed.

Lemma train_test_indices_perm (tf : list nat) (i : nat) :
  Permutation (train_indices tf i ++ test_indices tf i) (seq 0 (length tf)).
Proof.
  unfold train_indices, test_indices. rewrite <- map_app.
  rewrite (filter_negb_perm (fun p => snd p =? i)).
  rewrite map_fst_combine_seq; [reflexivity | apply length_seq].
Qed.

End Counting.

(* ------------------------------------------------------------------ *)
(** ** Cross-validation: what one pass does *)

Lemma iloc_concat {A : Type} (f : Frame A) (ls : list (list nat)) :
  iloc f (concat ls) = concat (map (iloc f) ls).
Proof.
  induction ls as [|l ls IH]; simpl; [reflexivity|].
  now rewrite iloc_app, IH.
Qed.

Lemma forallb_false_witness {A : Type} (f : A -> bool) (l : list A) (x : A) :
  In x l -> f x = false -> forallb f l = false.
Proof.
  intros Hin Hx. destruct (forallb f l) eqn:E; [|reflexivity].
  rewrite forallb_forall in E. rewrite (E x Hin) in Hx. discriminate.
Qed.

Lemma StratifiedKFold_split_ok (K : nat) (y : list Z) :
  stratifiable K y -> StratifiedKFold_split K y = Return (cv_folds K y).
Proof.
  intros (HK & c & Hc). unfold StratifiedKFold_split.
  destruct (Nat.leb_spec K 1); [lia|].
  pose proof (count_occ_bound Z.eq_dec c y).
  destruct (Nat.ltb_spec (length y) K); [lia|].
  rewrite (@forallb_false_witness _ _ (nodup Z.eq_dec y) c).
  - reflexivity.
  - apply nodup_In. apply (count_occ_In Z.eq_dec). lia.
  - apply Nat.ltb_ge. exact Hc.
Qed.

Lemma length_cv_folds (K : nat) (y : list Z) : length (cv_folds K y) = K.
Proof. unfold cv_folds. now rewrite length_map, length_seq. Qed.

Lemma count_fits_cv_pass (est : estimator) (X : Frame features) (s : scoring)
    (folds : list (list nat * list nat)) :
  length (filter is_fit (cv_pass est X s folds)) = length folds.
Proof.
  unfold cv_pass. induction folds as [|fold folds IH]; simpl; [reflexivity|].
  now rewrite IH.
Qed.

(** What is true of every fold of a stratified K-fold split. *)
Lemma cv_folds_facts (K : nat) (X : Frame features) (y : list Z) :
  length X = length y ->
  stratifiable K y ->
  Permutation (concat (map (fun fold => iloc X (snd fold)) (cv_folds K y))) X
  /\ Forall (fun fold =>
               Permutation (iloc X (fst fold) ++ iloc X (snd fold)) X
               /\ iloc X (snd fold) <> []
               /\ (K * length (iloc X (snd fold)) < length X + K * n_classes y)%nat
               /\ (length X < K * length (iloc X (snd fold)) + K * n_classes y)%nat)
            (cv_folds K y).
Proof.
  intros Hlen (HK & c & Hc).
  assert (length (make_test_folds K y) = length X) as Htf
    by now rewrite length_make_test_folds.
  split.
  - rewrite <- (map_map snd (iloc X)), <- iloc_concat.
    apply iloc_perm. unfold cv_folds. rewrite map_map. simpl.
    rewrite <- Htf. apply test_indices_partition.
    apply make_test_folds_lt. lia.
  - apply Forall_forall. intros fold Hin.
    unfold cv_folds in Hin. apply in_map_iff in Hin.
    destruct Hin as (i & <- & Hi). apply in_seq in Hi. simpl.
    pose proof (train_test_indices_perm (make_test_folds K y) i) as Hperm.
    rewrite Htf in Hperm.
    assert (Forall (fun p => (p < length X)%nat) (test_indices (make_test_folds K y) i))
      as Hrange.
    { apply Forall_forall. intros p Hp.
      assert (In p (seq 0 (length X))) as Hp'
        by (eapply Permutation_in; [exact Hperm | apply in_or_app; now right]).
      apply in_seq in Hp'. lia. }
    assert (In c (nodup Z.eq_dec y)) as Hcin
      by (apply nodup_In; apply (count_occ_In Z.eq_dec); lia).
    assert (1 <= length (test_indices (make_test_folds K y) i))%nat as Hpos.
    { rewrite length_test_indices.
      etransitivity;
        [|apply (list_sum_map_ge (nodup Z.eq_dec y)
                   (fun c => share K (count_occ Z.eq_dec y c) i) c Hcin)].
      apply share_bounds; [lia | exact Hc]. }
    rewrite (iloc_length _ Hrange).
    split; [|split; [|split]].
    + rewrite <- iloc_app. now apply iloc_perm.
    + intros Hnil. apply (f_equal (@length _)) in Hnil.
      rewrite (iloc_length _ Hrange) in Hnil. simpl in Hnil. lia.
    + rewrite length_test_indices.
      destruct (@sum_share_bounds K i (count_occ Z.eq_dec y) (nodup Z.eq_dec y))
        as (Hup & _); [lia|].
      rewrite <- length_by_class in Hup. unfold n_classes.
      assert (1 <= length (nodup Z.eq_dec y))%nat
        by (destruct (nodup Z.eq_dec y); [contradiction | simpl; lia]).
      lia.
    + rewrite length_test_indices.
      destruct (@sum_share_bounds K i (count_occ Z.eq_dec y) (nodup Z.eq_dec y))
        as (_ & Hlow); [lia|].
      rewrite <- length_by_class in Hlow. unfold n_classes.
      assert (1 <= length (nodup Z.eq_dec y))%nat
        by (destruct (nodup Z.eq_dec y); [contradiction | simpl; lia]).
      lia.
Qed.

Lemma forallb_false_elim {A : Type} (f : A -> bool) (l : list A) :
  forallb f l = false -> exists x, In x l /\ f x = false.
Proof.
  induction l as [|a l IH]; simpl; [discriminate|].
  destruct (f a) eqn:E; simpl.
  - intros H. destruct (IH H) as (x & Hin & Hx). exists x. now split; [right|].
  - intros _. exists a. now split; [left|].
Qed.

Lemma StratifiedKFold_split_Return (K : nat) (y : list Z)
    (folds : list (list nat * list nat)) :
  StratifiedKFold_split K y = Return folds ->
  stratifiable K y /\ folds = cv_folds K y.
Proof.
  unfold StratifiedKFold_split.
  destruct (Nat.leb_spec K 1); [discriminate|].
  destruct (Nat.ltb_spec (length y) K); [discriminate|].
  destruct (forallb _ (nodup Z.eq_dec y)) eqn:E; [discriminate|].
  intros [= <-]. split; [|reflexivity]. split; [assumption|].
  apply forallb_false_elim in E. destruct E as (c & _ & Hc).
  exists c. now apply Nat.ltb_ge.
Qed.

Lemma StratifiedKFold_split_raises (K : nat) (y : list Z) :
  ~ stratifiable K y ->
  exists msg, StratifiedKFold_split K y = Raise (ValueError msg).
Proof.
  intros Hn. destruct (StratifiedKFold_split K y) as [folds|e] eqn:E.
  - exfalso. apply Hn. now apply StratifiedKFold_split_Return in E.
  - unfold StratifiedKFold_split in E.
    destruct (K <=? 1)%nat; [injection E as <-; eexists; reflexivity|].
    destruct (length y <? K)%nat; [injection E as <-; eexists; reflexivity|].
    destruct (forallb _ _); [injection E as <-; eexists; reflexivity|discriminate].
Qed.

Lemma all_or_first_Return {A B : Type} (g : A -> outcome B) (l : list A)
    (bs : list B) :
  all_or_first g l = Return bs <-> Forall2 (fun a b => g a = Return b) l bs.
Proof.
  revert bs. induction l as [|a l IH]; intros bs; simpl.
  - split.
    + intros [= <-]. constructor.
    + intros H. inversion H. reflexivity.
  - split.
    + destruct (g a) as [b|e] eqn:Ea; [|discriminate].
      destruct (all_or_first g l) as [bs'|e]; [|discriminate].
      intros [= <-]. constructor; [exact Ea|]. now apply IH.
    + intros H. inversion H as [|? b ? bs' Ha Hl]; subst.
      rewrite Ha. apply IH in Hl. now rewrite Hl.
Qed.

Lemma all_or_first_map {A B : Type} (g : A -> outcome B) (h : A -> B)
    (l : list A) :
  (forall a, In a l -> g a = Return (h a)) ->
  all_or_first g l = Return (map h l).
Proof.
  intros H. apply all_or_first_Return.
  induction l as [|a l IH]; simpl; constructor.
  - apply H. now left.
  - apply IH. intros b Hb. apply H. now right.
Qed.

Lemma log_until_raise_full {A B : Type} (g : A -> outcome B)
    (ev full : A -> list event) (l : list A) (bs : list B) :
  (forall a b, g a = Return b -> ev a = full a) ->
  all_or_first g l = Return bs ->
  log_until_raise g ev l = flat_map full l.
Proof.
  intros Hev. revert bs. induction l as [|a l IH]; intros bs; simpl.
  - reflexivity.
  - destruct (g a) as [b|e] eqn:Ea; [|discriminate].
    destruct (all_or_first g l) as [bs'|e] eqn:El; [|discriminate].
    intros _. now rewrite (Hev a b Ea), (IH bs').
Qed.

Lemma Forall2_accepts {L : Library} (est : estimator) (X : Frame features)
    (y : Frame Z) (s : scoring) (folds : list (list nat * list nat)) (qs : list Q) :
  Forall2 (fun fold q => fold_score est X y s fold = Return q) folds qs ->
  accepts est X y s folds.
Proof.
  induction 1 as [|fold q folds qs Hq _ IH]; intros f Hf.
  - destruct Hf.
  - destruct Hf as [<-|Hf]; [now exists q | now apply IH].
Qed.

Lemma accepts_Forall2 {L : Library} (est : estimator) (X : Frame features)
    (y : Frame Z) (s : scoring) (folds : list (list nat * list nat)) :
  accepts est X y s folds ->
  Forall2 (fun fold q => fold_score est X y s fold = Return q) folds
          (map (fun fold => score_of (fold_score est X y s fold)) folds).
Proof.
  intros Ha. induction folds as [|fold folds IH]; simpl; constructor.
  - destruct (Ha fold (or_introl eq_refl)) as (q & ->). reflexivity.
  - apply IH. intros f Hf. apply Ha. now right.
Qed.

Section CrossValidation.

Context {L : Library}.

Lemma pure_run_mapM_any {A B : Type} (f : A -> M B) (g : A -> outcome B)
    (ev : A -> list event) (l : list A) :
  (forall a, pure_run (f a) (g a) (ev a)) ->
  pure_run (mapM f l) (all_or_first g l) (log_until_raise g ev l).
Proof.
  intros H. induction l as [|a l IH]; simpl.
  - apply pure_run_ret.
  - destruct (g a) as [b|e] eqn:Ea.
    + eapply pure_run_bind; [rewrite <- Ea; apply H|]. cbv beta.
      destruct (all_or_first g l) as [bs|e].
      * rewrite <- (app_nil_r (log_until_raise g ev l)).
        eapply pure_run_bind; [exact IH|]. apply pure_run_ret.
      * apply pure_run_bind_raise. exact IH.
    + rewrite app_nil_r. apply pure_run_bind_raise. rewrite <- Ea. apply H.
Qed.

Lemma pure_run_mapM {A B : Type} (f : A -> M B) (g : A -> B)
    (ev : A -> list event) (l : list A) :
  (forall a, In a l -> pure_run (f a) (Return (g a)) (ev a)) ->
  pure_run (mapM f l) (Return (map g l)) (flat_map ev l).
Proof.
  induction l as [|a l IH]; intros H; simpl.
  - apply pure_run_ret.
  - eapply pure_run_bind; [apply H; now left|]. cbv beta.
    rewrite <- (app_nil_r (flat_map ev l)).
    eapply pure_run_bind; [apply IH; intros b Hb; apply H; now right|].
    apply pure_run_ret.
Qed.


Lemma fit_and_score_run (est : estimator) (X : Frame features) (y : Frame Z)
    (s : scoring) (fold : list nat * list nat) :
  pure_run (fit_and_score est X y s fold)
           (fold_score est X y s fold) (cycle_events est X y s fold).
Proof.
  destruct fold as [train test]. intros w.
  unfold fit_and_score, fold_score, cycle_events, estimator_fit, bind, emit, lift.
  cbn [fst snd].
  destruct (lib_fit est (iloc X train) (iloc y train)); reflexivity.
Qed.

Lemma cycle_events_full (est : estimator) (X : Frame features) (y : Frame Z)
    (s : scoring) (fold : list nat * list nat) (q : Q) :
  fold_score est X y s fold = Return q ->
  cycle_events est X y s fold
  = [Fit est (index (iloc X (fst fold))); Score s (index (iloc X (snd fold)))].
Proof.
  unfold fold_score, cycle_events.
  destruct (lib_fit est (iloc X (fst fold)) (iloc y (fst fold)));
    [reflexivity|discriminate].
Qed.


(** A cross-validation pass, once the lengths agree and the folds are made:
    the scores of the folds in order, or the first exception of the
    learner, and the cycles up to there. *)
Lemma cross_val_score_run (est : estimator) (X : Frame features) (y : Frame Z)
    (s : scoring) (K : nat) :
  length X = length y ->
  stratifiable K (values y) ->
  pure_run (cross_val_score est X y s K)
           (all_or_first (fold_score est X y s) (cv_folds K (values y)))
           (log_until_raise (fold_score est X y s) (cycle_events est X y s)
                            (cv_folds K (values y))).
Proof.
  intros Hlen Hs. unfold cross_val_score.
  rewrite Hlen, Nat.eqb_refl. cbn [negb].
  rewrite (StratifiedKFold_split_ok Hs).
  eapply pure_run_bind with (evs := []); [apply pure_run_lift|].
  apply pure_run_mapM_any. intros fold. apply fit_and_score_run.
Qed.


Lemma cross_val_score_returns (est : estimator) (X : Frame features) (y : Frame Z)
    (s : scoring) (K : nat) (w : world) (qs : list Q) :
  result_of (cross_val_score est X y s K w) = Return qs ->
  length X = length y
  /\ stratifiable K (values y)
  /\ Forall2 (fun fold q => fold_score est X y s fold = Return q)
             (cv_folds K (values y)) qs.
Proof.
  intros H.
  assert (length X = length y) as Hlen.
  { unfold cross_val_score in H.
    destruct (Nat.eqb_spec (length X) (length y)); [assumption|discriminate]. }
  assert (stratifiable K (values y)) as Hs.
  { unfold cross_val_score in H. rewrite Hlen, Nat.eqb_refl in H. cbn [negb] in H.
    apply result_of_bind in H. destruct H as (folds & Hf & _).
    now apply StratifiedKFold_split_Return in Hf. }
  split; [assumption|]. split; [assumption|].
  rewrite (@cross_val_score_run est X y s K Hlen Hs w) in H.
  now apply all_or_first_Return.
Qed.



Lemma show_cv_classification_report_returns
    (classifier : estimator) (X : Frame features) (y : Frame Z) (K : nat)
    (w : world) :
  returns (result_of (show_cv_classification_report classifier X y K w)) ->
  length X = length y
  /\ stratifiable K (values y)
  /\ forall s, accepts classifier X y s (cv_folds K (values y)).
Proof.
  intros (v & H). unfold show_cv_classification_report in H.
  apply result_of_bind in H. destruct H as (a & Ha & H).
  apply result_of_bind in H. destruct H as (p & Hp & H).
  apply result_of_bind in H. destruct H as (r & Hr & H).
  apply result_of_bind in H. destruct H as (f & Hf & _).
  apply cross_val_score_returns in Ha, Hp, Hr, Hf.
  destruct Ha as (Hlen & Hs & Ha). destruct Hp as (_ & _ & Hp).
  destruct Hr as (_ & _ & Hr). destruct Hf as (_ & _ & Hf).
  split; [assumption|]. split; [assumption|].
  intros [| | |]; eapply Forall2_accepts; eassumption.
Qed.



End CrossValidation.



(* ------------------------------------------------------------------ *)
(** ** Randomized search *)

Lemma NoDup_ParameterGrid (space : param_space) :
  Forall (fun kv => NoDup (snd kv)) space -> NoDup (ParameterGrid space).
Proof.
  induction 1 as [|[k vs] rest Hvs _ IH]; simpl.
  - constructor; [intros []|constructor].
  - simpl in Hvs. induction Hvs as [|v vs Hv _ IHv]; simpl; [constructor|].
    apply NoDup_app.
    + apply NoDup_map_NoDup_ForallPairs; [|exact IH].
      intros p q _ _ E. now injection E.
    + exact IHv.
    + intros p Hp Hq. apply in_map_iff in Hp. destruct Hp as (p' & <- & _).
      apply in_flat_map in Hq. destruct Hq as (v' & Hv' & Hq).
      apply in_map_iff in Hq. destruct Hq as (q' & E & _).
      injection E as Ev _. subst v'. contradiction.
Qed.

Lemma NoDup_map_nth {A : Type} (l : list A) (d : A) (picks : list nat) :
  NoDup l -> NoDup picks -> Forall (fun i => (i < length l)%nat) picks ->
  NoDup (map (fun i => nth i l d) picks).
Proof.
  intros Hl Hp Hr. apply NoDup_map_NoDup_ForallPairs; [|exact Hp].
  intros i j Hi Hj E. rewrite Forall_forall in Hr.
  eapply (proj1 (NoDup_nth l d) Hl); [apply Hr, Hi | apply Hr, Hj | exact E].
Qed.

Lemma count_fits_search_events {L : Library} (est : estimator)
    (candidates : list params) (s : scoring) (X : Frame features)
    (folds : list (list nat * list nat)) (best : params) :
  length (filter is_fit (search_events est candidates s X folds best))
  = (length candidates * length folds + 1)%nat.
Proof.
  unfold search_events. rewrite filter_app, length_app. simpl. f_equal.
  induction candidates as [|p candidates IH]; simpl; [reflexivity|].
  now rewrite filter_app, length_app, count_fits_cv_pass, IH.
Qed.

Section Search.

Context {L : Library} {LL : LibraryLaws L}.

Lemma candidate_events_full (est : estimator) (X : Frame features) (y : Frame Z)
    (s : scoring) (folds : list (list nat * list nat)) (p : params) (qs : list Q) :
  candidate_scores est X y s folds p = Return qs ->
  candidate_events est X y s folds p = cv_pass (set_params est p) X s folds.
Proof.
  intros H. unfold candidate_events, cv_pass.
  eapply log_until_raise_full; [|exact H].
  intros fold q. apply cycle_events_full.
Qed.

(** The run of [evaluate_candidates] once the folds are made, whatever the
    learner does. *)
Lemma evaluate_candidates_run (est : estimator) (candidates : list params)
    (cv : nat) (s : scoring) (X : Frame features) (y : Frame Z) (w : world) :
  stratifiable cv (values y) ->
  evaluate_candidates est candidates cv s X y w
  = match all_or_first (candidate_scores est X y s (cv_folds cv (values y)))
                       candidates with
    | Raise e =>
        (Raise e, w,
         log_until_raise (candidate_scores est X y s (cv_folds cv (values y)))
                         (candidate_events est X y s (cv_folds cv (values y)))
                         candidates)
    | Return scores =>
        match candidates with
        | [] => (Raise (ValueError "not enough values to unpack"), w, [])
        | _ :: _ =>
            match lib_fit (set_params est (nth (lib_best_index scores) candidates []))
                          X y with
            | Return best =>
                (Return {| cv_results_params := candidates;
                           cv_results_scores := scores;
                           best_index_ := lib_best_index scores;
                           best_params_ := nth (lib_best_index scores) candidates [];
                           best_estimator_ := best |},
                 w,
                 search_events est candidates s X (cv_folds cv (values y))
                               (nth (lib_best_index scores) candidates []))
            | Raise e =>
                (Raise e, w,
                 search_events est candidates s X (cv_folds cv (values y))
                               (nth (lib_best_index scores) candidates []))
            end
        end
    end.
Proof.
  intros Hs. unfold evaluate_candidates.
  rewrite (StratifiedKFold_split_ok Hs).
  unfold bind at 1, lift. cbv beta iota.
  assert (pure_run
            (mapM (fun p => mapM (fit_and_score (set_params est p) X y s)
                                 (cv_folds cv (values y))) candidates)
            (all_or_first (candidate_scores est X y s (cv_folds cv (values y)))
                          candidates)
            (log_until_raise (candidate_scores est X y s (cv_folds cv (values y)))
                             (candidate_events est X y s (cv_folds cv (values y)))
                             candidates)) as Hall.
  { apply pure_run_mapM_any. intros p. apply pure_run_mapM_any.
    intros fold. apply fit_and_score_run. }
  unfold bind at 1. rewrite (Hall w).
  destruct (all_or_first (candidate_scores est X y s (cv_folds cv (values y)))
                         candidates) as [scores|e] eqn:E; [|reflexivity].
  assert (log_until_raise (candidate_scores est X y s (cv_folds cv (values y)))
                          (candidate_events est X y s (cv_folds cv (values y)))
                          candidates
          = flat_map (fun p => cv_pass (set_params est p) X s (cv_folds cv (values y)))
                     candidates) as Hlog.
  { eapply log_until_raise_full; [|exact E].
    intros p qs. apply candidate_events_full. }
  rewrite Hlog.
  destruct candidates as [|p0 candidates]; [reflexivity|].
  unfold search_events, estimator_fit, bind, emit, lift, ret. cbv beta iota zeta.
  destruct (lib_fit _ X y); rewrite ?app_nil_r; reflexivity.
Qed.

Lemma evaluate_candidates_returns (est : estimator) (candidates : list params)
    (cv : nat) (s : scoring) (X : Frame features) (y : Frame Z)
    (w w' : world) (res : search_result) (evs : list event) :
  evaluate_candidates est candidates cv s X y w = (Return res, w', evs) ->
  w' = w
  /\ candidates <> []
  /\ stratifiable cv (values y)
  /\ cv_results_params res = candidates
  /\ evs = search_events est candidates s X (cv_folds cv (values y))
                         (best_params_ res)
  /\ Forall2 (fun p qs =>
                Forall2 (fun fold q => fold_score (set_params est p) X y s fold
                                       = Return q)
                        (cv_folds cv (values y)) qs)
             candidates (cv_results_scores res)
  /\ In (best_params_ res) candidates
  /\ lib_fit (set_params est (best_params_ res)) X y = Return (best_estimator_ res).
Proof.
  intros H.
  assert (stratifiable cv (values y)) as Hs.
  { unfold evaluate_candidates in H. unfold bind at 1, lift in H.
    destruct (StratifiedKFold_split cv (values y)) as [folds|e] eqn:E;
      [|discriminate].
    now apply StratifiedKFold_split_Return in E. }
  rewrite (@evaluate_candidates_run est candidates cv s X y w Hs) in H.
  destruct (all_or_first _ candidates) as [scores|e] eqn:E; [|discriminate].
  destruct candidates as [|p0 candidates]; [discriminate|].
  destruct (lib_fit _ X y) as [best|e] eqn:Efit; [|discriminate].
  apply all_or_first_Return in E.
  assert (In (nth (lib_best_index scores) (p0 :: candidates) []) (p0 :: candidates))
    as Hin.
  { apply nth_In. rewrite (Forall2_length E).
    apply lib_best_index_lt. apply Forall2_length in E.
    destruct scores; discriminate. }
  injection H as <- <- <-. cbn [cv_results_params cv_results_scores best_params_
                                best_estimator_].
  split; [reflexivity|]. split; [discriminate|]. split; [assumption|].
  split; [reflexivity|]. split; [reflexivity|].
  split; [|split; [exact Hin|assumption]].
  eapply Forall2_impl; [|exact E]. intros p qs Hp.
  now apply all_or_first_Return.
Qed.

Lemma evaluate_candidates_accepted (est : estimator) (candidates : list params)
    (cv : nat) (s : scoring) (X : Frame features) (y : Frame Z) (w : world) :
  candidates <> [] ->
  stratifiable cv (values y) ->
  (forall p, In p candidates ->
             accepts (set_params est p) X y s (cv_folds cv (values y))
             /\ returns (lib_fit (set_params est p) X y)) ->
  exists res evs, evaluate_candidates est candidates cv s X y w = (Return res, w, evs).
Proof.
  intros Hne Hs Ha.
  rewrite (@evaluate_candidates_run est candidates cv s X y w Hs).
  assert (all_or_first (candidate_scores est X y s (cv_folds cv (values y)))
                       candidates
          = Return (map (fun p =>
                           map (fun fold =>
                                  score_of (fold_score (set_params est p) X y s fold))
                               (cv_folds cv (values y)))
                        candidates)) as E.
  { apply all_or_first_map. intros p Hp. apply all_or_first_map.
    intros fold Hfold. destruct (proj1 (Ha p Hp) fold Hfold) as (q & ->).
    reflexivity. }
  rewrite E. destruct candidates as [|p0 candidates]; [congruence|].
  set (scores := map _ (p0 :: candidates)).
  assert (In (nth (lib_best_index scores) (p0 :: candidates) []) (p0 :: candidates))
    as Hin.
  { apply nth_In.
    replace (length (p0 :: candidates)) with (length scores)
      by (unfold scores; apply length_map).
    apply lib_best_index_lt. unfold scores. discriminate. }
  destruct (proj2 (Ha _ Hin)) as (best & ->).
  eexists. eexists. reflexivity.
Qed.

Lemma ParameterSampler_pure (space : param_space) (n_iter : nat) (seed : Z) :
  (n_iter <= length (ParameterGrid space))%nat ->
  pure_run (ParameterSampler space n_iter (Some seed))
           (Return (map (fun i => nth i (ParameterGrid space) [])
                        (fst (sample_without_replacement
                                (RandomState_seed seed)
                                (length (ParameterGrid space)) n_iter))))
           [].
Proof.
  intros Hle. unfold ParameterSampler.
  destruct (Nat.ltb_spec (length (ParameterGrid space)) n_iter); [lia|].
  eapply pure_run_bind with (evs := []) (evs' := []);
    [apply pure_run_with_rng | apply pure_run_ret].
Qed.

Lemma ParameterSampler_candidates (space : param_space) (n_iter : nat) (seed : Z) :
  (n_iter <= length (ParameterGrid space))%nat ->
  Forall (fun kv => NoDup (snd kv)) space ->
  let candidates :=
    map (fun i => nth i (ParameterGrid space) [])
        (fst (sample_without_replacement (RandomState_seed seed)
                                         (length (ParameterGrid space)) n_iter)) in
  length candidates = n_iter
  /\ NoDup candidates
  /\ Forall (fun p => In p (ParameterGrid space)) candidates.
Proof.
  intros Hle Hnd. cbv zeta. split; [|split].
  - rewrite length_map. now apply sample_without_replacement_length.
  - apply NoDup_map_nth.
    + now apply NoDup_ParameterGrid.
    + apply sample_without_replacement_NoDup.
    + apply sample_without_replacement_range.
  - apply Forall_forall. intros p Hin.
    apply in_map_iff in Hin. destruct Hin as (i & <- & Hi).
    apply nth_In.
    pose proof (sample_without_replacement_range (RandomState_seed seed)
                  (length (ParameterGrid space)) n_iter) as Hr.
    rewrite Forall_forall in Hr. now apply Hr.
Qed.

(** What a seeded randomized search has done when it returns. *)
Lemma randomized_search_returns (est : estimator) (space : param_space)
    (cv : nat) (s : scoring) (n_iter : nat) (seed : Z)
    (X : Frame features) (y : Frame Z) (w w' : world)
    (res : search_result) (evs : list event) :
  Forall (fun kv => NoDup (snd kv)) space ->
  RandomizedSearchCV_fit est space cv s n_iter (Some seed) X y w
  = (Return res, w', evs) ->
  w' = w
  /\ (0 < n_iter <= length (ParameterGrid space))%nat
  /\ length X = length y
  /\ stratifiable cv (values y)
  /\ evs = search_events est (cv_results_params res) s X (cv_folds cv (values y))
                         (best_params_ res)
  /\ length (cv_results_params res) = n_iter
  /\ NoDup (cv_results_params res)
  /\ Forall (fun p => In p (ParameterGrid space)) (cv_results_params res)
  /\ Forall2 (fun p qs =>
                Forall2 (fun fold q => fold_score (set_params est p) X y s fold
                                       = Return q)
                        (cv_folds cv (values y)) qs)
             (cv_results_params res) (cv_results_scores res)
  /\ In (best_params_ res) (cv_results_params res)
  /\ lib_fit (set_params est (best_params_ res)) X y = Return (best_estimator_ res)
  /\ length (filter is_fit evs) = (n_iter * cv + 1)%nat.
Proof.
  intros Hnd H. unfold RandomizedSearchCV_fit, BaseSearchCV_fit in H.
  destruct (cv <=? 1)%nat; [discriminate|].
  destruct (Nat.eqb_spec (length X) (length y)) as [Hlen|]; [|discriminate].
  cbn [negb] in H. unfold bind at 1 in H.
  assert (n_iter <= length (ParameterGrid space))%nat as Hle.
  { unfold ParameterSampler in H.
    destruct (Nat.ltb_spec (length (ParameterGrid space)) n_iter);
      [discriminate|assumption]. }
  rewrite (@ParameterSampler_pure space n_iter seed Hle w) in H.
  destruct (@ParameterSampler_candidates space n_iter seed Hle Hnd) as (Hn & Hnodup & Hin).
  set (candidates := map _ _) in *.
  destruct (evaluate_candidates est candidates cv s X y w) as [[r w1] l1] eqn:E.
  injection H as -> <- <-.
  apply evaluate_candidates_returns in E.
  destruct E as (-> & Hne & Hs & Hp & -> & Hsc & Hbest & Hfit).
  rewrite Hp.
  split; [reflexivity|]. split; [|split; [assumption|split; [assumption|]]].
  - split; [|assumption]. destruct candidates; [congruence|]. simpl in Hn. lia.
  - split; [reflexivity|]. repeat (split; [assumption|]).
    rewrite count_fits_search_events, length_cv_folds, Hn. reflexivity.
Qed.

Lemma randomized_search_accepted (est : estimator) (space : param_space)
    (cv : nat) (s : scoring) (n_iter : nat) (seed : Z)
    (X : Frame features) (y : Frame Z) (w : world) :
  (0 < n_iter <= length (ParameterGrid space))%nat ->
  Forall (fun kv => NoDup (snd kv)) space ->
  length X = length y ->
  stratifiable cv (values y) ->
  (forall p, In p (ParameterGrid space) ->
             accepts (set_params est p) X y s (cv_folds cv (values y))
             /\ returns (lib_fit (set_params est p) X y)) ->
  exists res evs,
    RandomizedSearchCV_fit est space cv s n_iter (Some seed) X y w
    = (Return res, w, evs).
Proof.
  intros (Hpos & Hle) Hnd Hlen Hs Ha.
  unfold RandomizedSearchCV_fit, BaseSearchCV_fit.
  destruct Hs as (Hcv & Hc).
  destruct (Nat.leb_spec cv 1); [lia|].
  rewrite Hlen, Nat.eqb_refl. cbn [negb]. unfold bind at 1.
  rewrite (@ParameterSampler_pure space n_iter seed Hle w).
  destruct (@ParameterSampler_candidates space n_iter seed Hle Hnd) as (Hn & _ & Hin).
  set (candidates := map _ _) in *.
  destruct (@evaluate_candidates_accepted est candidates cv s X y w)
    as (res & evs & E).
  - destruct candidates; [simpl in Hn; lia|discriminate].
  - split; assumption.
  - intros p Hp. apply Ha. rewrite Forall_forall in Hin. now apply Hin.
  - rewrite E. exists res, evs. now rewrite app_nil_l.
Qed.

(** C9, as the code has it. From a space whose lists of values hold no
    value twice, the sampler draws [n_iter] different points of the grid.
    A seeded search that returns has scored exactly [n_iter] different
    candidates of the grid, each on each of the [cv] folds of the training
    data, and refitted one of them: [n_iter * cv + 1] fits.  It returns when
    [n_iter] is at least 1 and at most the size of the grid, features and
    labels have one length, the folds can be made, and the learner accepts
    every point of the grid.  With [n_iter = 0], or when the folds cannot
    be made, it raises ValueError and nothing is fitted.  The grid of the
    notebooks has [2 * 19 * 4 * 19] points, of which their search scores
    10. *)
Theorem randomized_search_evaluates_n_iter :
  (forall (space : param_space) (n_iter : nat) (seed : Z) (w : world),
      (n_iter <= length (ParameterGrid space))%nat ->
      Forall (fun kv => NoDup (snd kv)) space ->
      exists candidates,
        ParameterSampler space n_iter (Some seed) w = (Return candidates, w, [])
        /\ length candidates = n_iter
        /\ NoDup candidates
        /\ Forall (fun p => In p (ParameterGrid space)) candidates)
  /\ (forall (est : estimator) (space : param_space) (cv : nat) (s : scoring)
             (n_iter : nat) (seed : Z) (X : Frame features) (y : Frame Z)
             (w w' : world) (res : search_result) (evs : list event),
         Forall (fun kv => NoDup (snd kv)) space ->
         RandomizedSearchCV_fit est space cv s n_iter (Some seed) X y w
         = (Return res, w', evs) ->
         w' = w
         /\ evs = search_events est (cv_results_params res) s X
                                (cv_folds cv (values y)) (best_params_ res)
         /\ length (cv_results_params res) = n_iter
         /\ NoDup (cv_results_params res)
         /\ Forall (fun p => In p (ParameterGrid space)) (cv_results_params res)
         /\ Forall2 (fun p qs =>
                       Forall2 (fun fold q =>
                                  fold_score (set_params est p) X y s fold = Return q)
                               (cv_folds cv (values y)) qs)
                    (cv_results_params res) (cv_results_scores res)
         /\ In (best_params_ res) (cv_results_params res)
         /\ length (filter is_fit evs) = (n_iter * cv + 1)%nat)
  /\ (forall (est : estimator) (space : param_space) (cv : nat) (s : scoring)
             (n_iter : nat) (seed : Z) (X : Frame features) (y : Frame Z)
             (w : world),
         (0 < n_iter <= length (ParameterGrid space))%nat ->
         Forall (fun kv => NoDup (snd kv)) space ->
         length X = length y ->
         stratifiable cv (values y) ->
         (forall p, In p (ParameterGrid space) ->
                    accepts (set_params est p) X y s (cv_folds cv (values y))
                    /\ returns (lib_fit (set_params est p) X y)) ->
         returns (result_of
                    (RandomizedSearchCV_fit est space cv s n_iter (Some seed) X y w)))
  /\ (forall (est : estimator) (space : param_space) (cv : nat) (s : scoring)
             (n_iter : nat) (seed : Z) (X : Frame features) (y : Frame Z)
             (w : world),
         n_iter = 0%nat \/ ~ stratifiable cv (values y) ->
         exists msg,
           RandomizedSearchCV_fit est space cv s n_iter (Some seed) X y w
           = (Raise (ValueError msg), w, []))
  /\ length (ParameterGrid param_dist) = (2 * 19 * 4 * 19)%nat
  /\ (forall (rfc : estimator) (X_train : Frame features) (y_train : Frame Z)
             (w : world),
         length X_train = length y_train ->
         stratifiable 10 (values y_train) ->
         (forall p, In p (ParameterGrid param_dist) ->
                    accepts (set_params rfc p) X_train y_train accuracy
                            (cv_folds 10 (values y_train))
                    /\ returns (lib_fit (set_params rfc p) X_train y_train)) ->
         exists res,
           rand_fit rfc X_train y_train w
           = (Return res, w,
              search_events rfc (cv_results_params res) accuracy X_train
                            (cv_folds 10 (values y_train)) (best_params_ res))
           /\ length (cv_results_params res) = 10%nat
           /\ NoDup (cv_results_params res)
           /\ length (cv_results_scores res) = 10%nat
           /\ Forall (fun fold_scores => length fold_scores = 10%nat)
                     (cv_results_scores res)).
Proof.
  assert (length (ParameterGrid param_dist) = (2 * 19 * 4 * 19)%nat) as Hsize
    by (vm_compute; reflexivity).
  assert (Forall (fun kv : string * list pv => NoDup (snd kv)) param_dist) as Hdist.
  { repeat (apply Forall_cons; [|]); try apply Forall_nil; cbn [snd].
    - unfold criterion_options.
      repeat (constructor; [simpl; intuition discriminate|]). constructor.
    - unfold max_depth_range, range.
      apply NoDup_map_NoDup_ForallPairs; [|apply seq_NoDup].
      intros i j _ _ E. injection E as E. lia.
    - unfold max_features_options.
      repeat (constructor; [simpl; intuition discriminate|]). constructor.
    - unfold estimator_range, range.
      apply NoDup_map_NoDup_ForallPairs; [|apply seq_NoDup].
      intros i j _ _ E. injection E as E. lia. }
  split; [|split; [|split; [|split; [|split]]]].
  - intros space n_iter seed w Hn Hnd.
    eexists. split; [now apply ParameterSampler_pure|].
    now apply ParameterSampler_candidates.
  - intros est space cv s n_iter seed X y w w' res evs Hnd H.
    apply randomized_search_returns in H; [|exact Hnd].
    destruct H as (Hw & _ & _ & _ & He & Hn & Hno & Hin & Hsc & Hb & _ & Hfits).
    repeat split; assumption.
  - intros est space cv s n_iter seed X y w Hn Hnd Hlen Hs Ha.
    destruct (@randomized_search_accepted est space cv s n_iter seed X y w
                Hn Hnd Hlen Hs Ha) as (res & evs & E).
    exists res. now rewrite E.
  - intros est space cv s n_iter seed X y w Hcase.
    unfold RandomizedSearchCV_fit, BaseSearchCV_fit.
    destruct (cv <=? 1)%nat eqn:Ecv; [eexists; reflexivity|].
    destruct (negb (length X =? length y)%nat); [eexists; reflexivity|].
    unfold bind at 1. unfold ParameterSampler.
    destruct (length (ParameterGrid space) <? n_iter)%nat eqn:Egrid;
      [eexists; reflexivity|].
    apply Nat.ltb_ge in Egrid.
    pose proof (@ParameterSampler_pure space n_iter seed Egrid w) as Hsam.
    unfold ParameterSampler in Hsam.
    apply Nat.ltb_ge in Egrid. rewrite Egrid in Hsam. rewrite Hsam.
    unfold evaluate_candidates. unfold bind at 1, lift.
    destruct (StratifiedKFold_split cv (values y)) as [folds|e] eqn:Esplit.
    + destruct Hcase as [->|Hns];
        [|exfalso; apply Hns; now apply StratifiedKFold_split_Return in Esplit].
      assert (fst (sample_without_replacement (RandomState_seed seed)
                     (length (ParameterGrid space)) 0) = []) as ->.
      { apply length_zero_iff_nil.
        apply sample_without_replacement_length. apply Nat.le_0_l. }
      eexists. reflexivity.
    + destruct (StratifiedKFold_split_raises (K := cv) (y := values y))
        as (msg & Hmsg).
      { intros Hs. rewrite (StratifiedKFold_split_ok Hs) in Esplit. discriminate. }
      rewrite Esplit in Hmsg. injection Hmsg as ->. eexists. reflexivity.
  - exact Hsize.
  - intros rfc X_train y_train w Hlen Hs Ha. unfold rand_fit.
    destruct (@randomized_search_accepted rfc param_dist 10 accuracy 10 42%Z
                X_train y_train w) as (res & evs & E); try assumption.
    { rewrite Hsize. simpl. lia. }
    pose proof E as E'. apply randomized_search_returns in E'; [|exact Hdist].
    destruct E' as (_ & _ & _ & _ & -> & Hn & Hno & _ & Hsc & _).
    exists res. split; [exact E|]. repeat split; try assumption.
    + rewrite <- (Forall2_length Hsc). exact Hn.
    + clear - Hsc. induction Hsc as [|p qs ps qss Hq _ IH]; constructor.
      * rewrite <- (Forall2_length Hq). apply length_cv_folds.
      * exact IH.
Qed.

End Search.

Lemma toy_library_accepts (est : estimator) (X : Frame features) (y : Frame Z)
    (s : scoring) (folds : list (list nat * list nat)) :
  algo est = RandomForestClassifier ->
  @accepts toy_library est X y s folds
  /\ returns (@lib_fit toy_library est X y).
Proof.
  intros Halgo. split.
  - intros fold _. exists 0. unfold fold_score. cbn.
    unfold too_few_records. cbn. now rewrite Halgo.
  - eexists. reflexivity.
Qed.

(** C9 on the sample data: the notebooks' search on 30 records. *)
Lemma randomized_search_evaluates_n_iter_sample :
  exists res,
    @rand_fit toy_library
      {| algo := RandomForestClassifier; hyper := [("random_state", PInt 42)]%string |}
      (sample_X 30) (sample_y 30) toy_world
    = (Return res, toy_world,
       search_events
         {| algo := RandomForestClassifier; hyper := [("random_state", PInt 42)]%string |}
         (cv_results_params res) accuracy (sample_X 30)
         (cv_folds 10 (values (sample_y 30))) (best_params_ res))
    /\ length (cv_results_params res) = 10%nat
    /\ NoDup (cv_results_params res)
    /\ length (cv_results_scores res) = 10%nat
    /\ Forall (fun fold_scores => length fold_scores = 10%nat) (cv_results_scores res).
Proof.
  apply (@randomized_search_evaluates_n_iter toy_library toy_library_laws).
  - reflexivity.
  - split; [lia|]. exists 0%Z. vm_compute. lia.
  - intros p _. now apply toy_library_accepts.
Defined.

(** C9 as the specification states it fails: with 10 candidates asked for
    of a grid of 2888, the search on 12 records, six of each label, raises
    ValueError and scores no candidate, since ten folds cannot be made;
    and a search asked for no candidate raises ValueError too. *)
Lemma randomized_search_raises_without_folds :
  (exists msg,
      @rand_fit toy_library
        {| algo := RandomForestClassifier; hyper := [("random_state", PInt 42)]%string |}
        (sample_X 12) (sample_y 12) toy_world
      = (Raise (ValueError msg), toy_world, []))
  /\ (exists msg,
         @RandomizedSearchCV_fit toy_library
           {| algo := RandomForestClassifier;
              hyper := [("random_state", PInt 42)]%string |}
           param_dist 10 accuracy 0 (Some 42%Z) (sample_X 30) (sample_y 30) toy_world
         = (Raise (ValueError msg), toy_world, [])).
Proof.
  split; eexists; vm_compute; reflexivity.
Qed.

(* ------------------------------------------------------------------ *)
(** ** Which records the events of a run touch *)

Section Emits.

Context {L : Library}.

Lemma emits_ret {A : Type} (P : event -> Prop) (Q : A -> Prop) (a : A) :
  Q a -> emits P Q (ret a).
Proof.
  intros HQ w. split; [constructor|].
  intros a' H. inversion H. now subst.
Qed.

Lemma emits_raise {A : Type} (P : event -> Prop) (Q : A -> Prop) (e : exn) :
  emits P Q (raise e).
Proof. intros w. split; [constructor | discriminate]. Qed.

Lemma emits_lift {A : Type} (P : event -> Prop) (Q : A -> Prop) (o : outcome A) :
  (forall a, o = Return a -> Q a) -> emits P Q (lift o).
Proof. intros H w. split; [constructor | exact H]. Qed.

Lemma emits_emit (P : event -> Prop) (ev : event) :
  P ev -> emits P (fun _ => True) (emit ev).
Proof. intros H w. split; [repeat constructor; exact H | trivial]. Qed.

Lemma emits_bind {A B : Type} (P : event -> Prop) (Q : A -> Prop) (R : B -> Prop)
    (m : M A) (f : A -> M B) :
  emits P Q m ->
  (forall a, Q a -> emits P R (f a)) ->
  emits P R (bind m f).
Proof.
  intros Hm Hf w. destruct (Hm w) as (Hev & Hres). split.
  - rewrite events_of_bind. apply Forall_app. split; [exact Hev|].
    destruct (result_of (m w)) as [a|e] eqn:E; [|constructor].
    apply (Hf a (Hres a eq_refl)).
  - intros b Hb. apply result_of_bind in Hb. destruct Hb as (a & Ha & Hb).
    apply (Hf a (Hres a Ha) (world_of (m w))). exact Hb.
Qed.

Lemma emits_weaken {A : Type} (P : event -> Prop) (Q Q' : A -> Prop) (m : M A) :
  emits P Q m -> (forall a, Q a -> Q' a) -> emits P Q' m.
Proof.
  intros Hm HQ w. destruct (Hm w) as (Hev & Hres). split; [exact Hev|].
  intros a Ha. apply HQ, Hres, Ha.
Qed.

Lemma emits_mapM {A B : Type} (P : event -> Prop) (f : A -> M B) (l : list A) :
  (forall a, emits P (fun _ => True) (f a)) ->
  emits P (fun _ => True) (mapM f l).
Proof.
  intros H. induction l as [|a l IH]; simpl.
  - now apply emits_ret.
  - eapply emits_bind; [apply H|]. intros b _.
    eapply emits_bind; [exact IH|]. intros bs _. now apply emits_ret.
Qed.

Lemma emits_pure_run {A : Type} (P : event -> Prop) (Q : A -> Prop) (m : M A)
    (r : outcome A) (evs : list event) :
  pure_run m r evs -> Forall P evs -> (forall a, r = Return a -> Q a) ->
  emits P Q m.
Proof.
  intros Hrun Hev HQ w. rewrite (Hrun w). split; [exact Hev | exact HQ].
Qed.

(** The cells that touch the world log nothing. *)
Lemma emits_silent {A : Type} (P : event -> Prop) (m : M A) :
  (forall w, events_of (m w) = []) -> emits P (fun _ => True) m.
Proof. intros H w. rewrite H. split; [constructor | trivial]. Qed.

Variable R : list nat.

Lemma within_Fit (est : estimator) (rows : list nat) :
  incl rows R -> within R (Fit est rows).
Proof. intros H. split; [reflexivity | exact H]. Qed.

Lemma within_Score (s : scoring) (rows : list nat) :
  incl rows R -> within R (Score s rows).
Proof. intros H. split; [reflexivity | exact H]. Qed.

Lemma within_Predict (rows : list nat) : within R (Predict rows).
Proof. split; [reflexivity | apply incl_nil_l]. Qed.

Lemma emits_estimator_fit (est : estimator) (X : Frame features) (y : Frame Z) :
  incl (index X) R ->
  emits (within R) (fun _ => True) (estimator_fit est X y).
Proof.
  intros H. unfold estimator_fit.
  eapply emits_bind; [apply emits_emit, within_Fit, H|].
  intros _ _. apply emits_lift with (Q := fun _ => True); trivial.
Qed.

Lemma emits_model_predict (m : Model) (X : Frame features) :
  emits (within R) (fun _ => True) (model_predict m X).
Proof.
  unfold model_predict.
  eapply emits_bind; [apply emits_emit, within_Predict|].
  intros _ _. apply emits_lift with (Q := fun _ => True); trivial.
Qed.

Lemma emits_model_predict_proba (m : Model) (X : Frame features) :
  emits (within R) (fun _ => True) (model_predict_proba m X).
Proof.
  unfold model_predict_proba.
  eapply emits_bind; [apply emits_emit, within_Predict|].
  intros _ _. apply emits_lift with (Q := fun _ => True); trivial.
Qed.

Lemma emits_fit_and_score (est : estimator) (X : Frame features) (y : Frame Z)
    (s : scoring) (fold : list nat * list nat) :
  incl (index X) R ->
  emits (within R) (fun _ => True) (fit_and_score est X y s fold).
Proof.
  intros H. destruct fold as [train test]. unfold fit_and_score.
  eapply emits_bind.
  { apply emits_estimator_fit. eapply incl_tran; [apply index_iloc_incl | exact H]. }
  intros m _. eapply emits_bind.
  { apply emits_emit, within_Score.
    eapply incl_tran; [apply index_iloc_incl | exact H]. }
  intros _ _. apply emits_lift with (Q := fun _ => True); trivial.
Qed.

Lemma emits_cross_val_score (est : estimator) (X : Frame features) (y : Frame Z)
    (s : scoring) (K : nat) :
  incl (index X) R ->
  emits (within R) (fun _ => True) (cross_val_score est X y s K).
Proof.
  intros H. unfold cross_val_score.
  destruct (negb _); [apply emits_raise|].
  eapply emits_bind; [apply emits_lift with (Q := fun _ => True); trivial|].
  intros folds _. apply emits_mapM. intros fold. now apply emits_fit_and_score.
Qed.

Lemma emits_show_cv_classification_report (est : estimator)
    (X : Frame features) (y : Frame Z) (K : nat) :
  incl (index X) R ->
  emits (within R) (fun _ => True) (show_cv_classification_report est X y K).
Proof.
  intros H. unfold show_cv_classification_report.
  eapply emits_bind; [now apply emits_cross_val_score|]. intros a _.
  eapply emits_bind; [now apply emits_cross_val_score|]. intros p _.
  eapply emits_bind; [now apply emits_cross_val_score|]. intros r _.
  eapply emits_bind; [now apply emits_cross_val_score|]. intros f _.
  now apply emits_ret.
Qed.

Lemma emits_evaluate_candidates (est : estimator) (candidates : list params)
    (cv : nat) (s : scoring) (X : Frame features) (y : Frame Z) :
  incl (index X) R ->
  emits (within R) (fun _ => True) (evaluate_candidates est candidates cv s X y).
Proof.
  intros H. unfold evaluate_candidates.
  eapply emits_bind; [apply emits_lift with (Q := fun _ => True); trivial|].
  intros folds _. eapply emits_bind.
  { apply emits_mapM. intros p. apply emits_mapM. intros fold.
    now apply emits_fit_and_score. }
  intros scores _. destruct candidates; [apply emits_raise|]. cbv zeta.
  eapply emits_bind; [now apply emits_estimator_fit|].
  intros best _. now apply emits_ret.
Qed.

Lemma emits_BaseSearchCV_fit (est : estimator) (param_iterator : M (list params))
    (cv : nat) (s : scoring) (X : Frame features) (y : Frame Z) :
  incl (index X) R ->
  emits (within R) (fun _ => True) param_iterator ->
  emits (within R) (fun _ => True) (BaseSearchCV_fit est param_iterator cv s X y).
Proof.
  intros H Hit. unfold BaseSearchCV_fit.
  destruct (cv <=? 1)%nat; [apply emits_raise|].
  destruct (negb _); [apply emits_raise|].
  eapply emits_bind; [exact Hit|].
  intros candidates _. now apply emits_evaluate_candidates.
Qed.

Lemma emits_GridSearchCV_fit (est : estimator) (grid : param_space)
    (cv : nat) (s : scoring) (X : Frame features) (y : Frame Z) :
  incl (index X) R ->
  emits (within R) (fun _ => True) (GridSearchCV_fit est grid cv s X y).
Proof.
  intros H. unfold GridSearchCV_fit.
  destruct (existsb _ grid); [apply emits_raise|].
  apply emits_BaseSearchCV_fit; [exact H | now apply emits_ret].
Qed.

Lemma emits_with_rng {A : Type} (random_state : option Z)
    (draw : RandomState -> A * RandomState) :
  emits (within R) (fun _ => True) (with_rng random_state draw).
Proof.
  apply emits_silent. intros w. unfold with_rng.
  destruct (draw (check_random_state random_state w)).
  destruct random_state; reflexivity.
Qed.

Lemma emits_RandomizedSearchCV_fit (est : estimator) (space : param_space)
    (cv : nat) (s : scoring) (n_iter : nat) (random_state : option Z)
    (X : Frame features) (y : Frame Z) :
  incl (index X) R ->
  emits (within R) (fun _ => True)
        (RandomizedSearchCV_fit est space cv s n_iter random_state X y).
Proof.
  intros H. unfold RandomizedSearchCV_fit, ParameterSampler.
  apply emits_BaseSearchCV_fit; [exact H|].
  destruct (_ <? n_iter)%nat; [apply emits_raise|].
  eapply emits_bind; [apply emits_with_rng|].
  intros picks _. now apply emits_ret.
Qed.

Lemma emits_show_accuracy (y_actuals : Frame Z) (y_predictions : list Z)
    (classification_type : string) :
  emits (within R) (fun _ => True)
        (show_accuracy y_actuals y_predictions classification_type).
Proof.
  unfold show_accuracy.
  eapply emits_bind; [apply emits_lift with (Q := fun _ => True); trivial|].
  intros a _.
  eapply emits_bind; [apply emits_lift with (Q := fun _ => True); trivial|].
  intros na _. now apply emits_ret.
Qed.

Lemma emits_export_model (g : globals) (m : Model) (algorithm_name : string) :
  emits (within R) (fun _ => True) (export_model g m algorithm_name).
Proof.
  unfold export_model.
  eapply emits_bind with (Q := fun _ => True);
    [apply emits_silent; reflexivity|]. intros file_target _.
  eapply emits_bind with (Q := fun _ => True).
  { unfold lookup_global. destruct (g_pickle g);
      [now apply emits_ret | apply emits_raise]. }
  intros _ _.
  eapply emits_bind with (Q := fun _ => True).
  { unfold lookup_global. destruct (g_rfc g);
      [now apply emits_ret | apply emits_raise]. }
  intros rfc _.
  eapply emits_bind with (Q := fun _ => True);
    [apply emits_silent; reflexivity|]. intros _ _.
  now apply emits_ret.
Qed.

Lemma emits_knn_cells (X : Frame features) (y : Frame Z) :
  incl (index X) R ->
  emits (within R) (fun _ => True) (knn_cells X y).
Proof.
  intros H. unfold knn_cells.
  eapply emits_bind; [now apply emits_show_cv_classification_report|]. intros _ _.
  eapply emits_bind; [now apply emits_GridSearchCV_fit|]. intros grid _.
  eapply emits_bind; [now apply emits_show_cv_classification_report|]. intros _ _.
  now apply emits_ret.
Qed.

Lemma emits_forest_cells (p : partition) :
  incl (index (X_train p)) R ->
  incl (index (X_ p)) R ->
  emits (within R) (fun _ => True) (forest_cells p).
Proof.
  intros Htr HX. unfold forest_cells, rand_fit.
  eapply emits_bind; [now apply emits_estimator_fit|]. intros rfc_fitted _.
  eapply emits_bind; [apply emits_model_predict|]. intros y_pred _.
  eapply emits_bind; [apply emits_model_predict_proba|]. intros y_probs _.
  eapply emits_bind; [apply emits_show_accuracy|]. intros _ _.
  eapply emits_bind; [now apply emits_RandomizedSearchCV_fit|]. intros rand _.
  cbv zeta.
  eapply emits_bind; [now apply emits_estimator_fit|]. intros rfc_fitted' _.
  eapply emits_bind; [apply emits_model_predict|]. intros y_pred' _.
  eapply emits_bind; [apply emits_model_predict_proba|]. intros y_probs' _.
  eapply emits_bind; [apply emits_show_accuracy|]. intros _ _.
  eapply emits_bind; [now apply emits_show_cv_classification_report|]. intros _ _.
  apply emits_export_model.
Qed.

End Emits.

(* ------------------------------------------------------------------ *)
(** ** The hold-out records after the partition *)

Lemma after_first_split_app (l1 l2 : list event) (a b : list nat) :
  Forall (fun ev => is_split ev = false) l1 ->
  after_first_split (l1 ++ Split a b :: l2) = Some (b, l2).
Proof.
  induction 1 as [|ev l1 Hev _ IH]; simpl; [reflexivity|].
  destruct ev; try discriminate; exact IH.
Qed.

Lemma after_first_split_none (l : list event) :
  Forall (fun ev => is_split ev = false) l -> after_first_split l = None.
Proof.
  induction 1 as [|ev l Hev _ IH]; simpl; [reflexivity|].
  destruct ev; try discriminate; exact IH.
Qed.

Lemma index_scale_frame (p : scaler_params) (X : Frame features) :
  index (scale_frame p X) = index X.
Proof. unfold index, scale_frame. rewrite map_map. reflexivity. Qed.

Section HoldOut.

Context {L : Library} {LL : LibraryLaws L}.

Lemma StandardScaler_transform_index (sc sc' : StandardScaler)
    (X X' : Frame features) :
  StandardScaler_transform sc X = Return (X', sc') -> index X' = index X.
Proof.
  unfold StandardScaler_transform. destruct sc as [p|]; [|discriminate].
  destruct X as [|r X0]; [discriminate|]. intros H. injection H as <- _.
  apply (index_scale_frame p (r :: X0)).
Qed.

Lemma StandardScaler_fit_transform_index (sc sc' : StandardScaler)
    (X X' : Frame features) :
  StandardScaler_fit_transform sc X = Return (X', sc') -> index X' = index X.
Proof.
  unfold StandardScaler_fit_transform. destruct X; [discriminate|].
  apply StandardScaler_transform_index.
Qed.

Lemma normalization_cell_index (a b c d a' b' c' d' : Frame features)
    (sc : StandardScaler) :
  normalization_cell a b c d = Return (a', b', c', d', sc) ->
  index a' = index a /\ index b' = index b
  /\ index c' = index c /\ index d' = index d.
Proof.
  unfold normalization_cell.
  destruct (StandardScaler_fit_transform None a) as [[a1 sc1]|] eqn:E1; [|discriminate].
  destruct (StandardScaler_transform sc1 b) as [[b1 sc2]|] eqn:E2; [|discriminate].
  destruct (StandardScaler_fit_transform sc2 c) as [[c1 sc3]|] eqn:E3; [|discriminate].
  destruct (StandardScaler_transform sc3 d) as [[d1 sc4]|] eqn:E4; [|discriminate].
  intros H. inversion H; subst.
  apply StandardScaler_fit_transform_index in E1, E3.
  apply StandardScaler_transform_index in E2, E4.
  repeat split; assumption.
Qed.

Lemma emits_normalization_cells (R : list nat) (p0 : partition) :
  emits (within R) (same_records p0) (normalization_cells p0).
Proof.
  unfold normalization_cells.
  eapply emits_bind.
  - apply emits_lift with (Q := fun out =>
      index (fst (fst (fst (fst out)))) = index (X_train p0)
      /\ index (snd (fst (fst out))) = index (X_ p0)).
    intros [[[[a b] c] d] sc] H. apply normalization_cell_index in H. simpl. tauto.
  - intros [[[[a b] c] d] sc] (Ha & Hc). simpl in Ha, Hc.
    apply emits_ret. split; assumption.
Qed.

Lemma emits_pca_cells (R : list nat) (p0 : partition) :
  emits (within R) (same_records p0) (pca_cells p0).
Proof.
  unfold pca_cells. apply emits_ret.
  split; unfold project, index; simpl; rewrite map_map; reflexivity.
Qed.

Lemma partition_cells_run (X : Frame features) (y : Frame Z) :
  NoDup (index X) ->
  exists p,
    pure_run (partition_cells X y) (Return p)
             [Split (index (X_ p)) (index (X_eval p));
              Split (index (X_train p)) (index (X_test p))]
    /\ incl (index (X_train p)) (index (X_ p))
    /\ (forall r, In r (index (X_ p)) -> ~ In r (index (X_eval p)))
    /\ length (index (X_eval p)) = n_test_of hold_out_percent (length X).
Proof.
  intros Hnd.
  assert (hold_out_percent < 1) as Hh by reflexivity.
  assert (0.2 < 1) as Ht by reflexivity.
  pose proof (train_test_split_seeded X y hold_out_percent 42%Z
                (Qle_bool_1_false Hh)) as H1.
  pose proof (seeded_split_partition X y (test_size:=hold_out_percent) 42%Z Hh) as P1.
  destruct (seeded_split X y hold_out_percent 42%Z) as [[[X' Xev] y'] yev].
  destruct P1 as (Pp1 & Pte1 & _ & _).
  pose proof (train_test_split_seeded X' y' 0.2 42%Z (Qle_bool_1_false Ht)) as H2.
  pose proof (seeded_split_partition X' y' (test_size:=0.2) 42%Z Ht) as P2.
  destruct (seeded_split X' y' 0.2 42%Z) as [[[Xtr Xte] ytr] yte].
  destruct P2 as (Pp2 & _ & _ & _).
  simpl in H1, H2.
  exists {| X_train := Xtr; X_test := Xte; X_ := X'; X_eval := Xev;
            y_train := ytr; y_test := yte; y_ := y'; y_eval := yev |}.
  cbn [X_train X_test X_ X_eval].
  split; [|split; [|split]].
  - unfold partition_cells, two_stage_split.
    eapply pure_run_bind with (evs := [_]) (evs' := [_]); [exact H1|]. cbv beta iota.
    eapply pure_run_bind with (evs := [_]) (evs' := []); [exact H2|]. cbv beta iota.
    apply pure_run_ret.
  - intros r Hr.
    apply (Permutation_in r (Permutation_map fst Pp2)).
    unfold index in *. rewrite map_app. apply in_or_app. now right.
  - intros r Hr Hr'.
    assert (NoDup (index Xev ++ index X')) as Hnd'.
    { rewrite <- index_app.
      eapply Permutation_NoDup; [symmetry; apply (Permutation_map fst Pp1) | exact Hnd]. }
    eapply NoDup_app_disjoint; [exact Hnd' | exact Hr' | exact Hr].
  - unfold index. rewrite length_map. exact Pte1.
Qed.

(** After the partition, scaling (and projecting, in the PCA notebook) and
    the random-forest cells touch only records of the train/test set. *)
Lemma emits_cells_after_partition (p0 : partition) :
  incl (index (X_train p0)) (index (X_ p0)) ->
  emits (within (index (X_ p0))) (fun _ => True)
        (p <- normalization_cells p0 ;; forest_cells p).
Proof.
  intros Hincl.
  eapply emits_bind; [apply emits_normalization_cells|].
  intros p1 (Htr1 & HX1).
  apply emits_forest_cells.
  - rewrite Htr1. exact Hincl.
  - rewrite HX1. apply incl_refl.
Qed.

Lemma emits_cells_after_partition_pca (p0 : partition) :
  incl (index (X_train p0)) (index (X_ p0)) ->
  emits (within (index (X_ p0))) (fun _ => True)
        (p <- normalization_cells p0 ;; p <- pca_cells p ;; forest_cells p).
Proof.
  intros Hincl.
  eapply emits_bind; [apply emits_normalization_cells|].
  intros p1 (Htr1 & HX1).
  eapply emits_bind; [apply emits_pca_cells|].
  intros p2 (Htr2 & HX2).
  apply emits_forest_cells.
  - rewrite Htr2, Htr1. exact Hincl.
  - rewrite HX2, HX1. apply incl_refl.
Qed.

(** The log of the cells from the partition on: the two splits, then
    events within the train/test set. *)
Lemma events_from_partition (X : Frame features) (y : Frame Z)
    (k : partition -> M unit) (w : world) :
  NoDup (index X) ->
  (forall p0, incl (index (X_train p0)) (index (X_ p0)) ->
              emits (within (index (X_ p0))) (fun _ => True) (k p0)) ->
  exists tr ho a b rest,
    events_of (bind (partition_cells X y) k w) = Split tr ho :: Split a b :: rest
    /\ length ho = n_test_of hold_out_percent (length X)
    /\ Forall (fun ev => forall r, In r (learning_rows ev) -> ~ In r ho) rest.
Proof.
  intros Hnd Hk.
  destruct (partition_cells_run X y Hnd) as (p0 & Hrun & Hincl & Hdisj & Hlen).
  rewrite events_of_bind, (Hrun w).
  unfold events_of, result_of, world_of. cbn [fst snd].
  do 5 eexists. split; [reflexivity|]. split; [exact Hlen|].
  destruct (Hk p0 Hincl w) as (Hev & _).
  eapply Forall_impl; [|exact Hev].
  intros ev (_ & Hin) r Hr. apply Hdisj, Hin, Hr.
Qed.

(** C1, as the code has it. From the split that makes the hold-out subset on,
    no hold-out record takes part in a classifier fit, a search or a
    cross-validation fold, up to the end of the run.  In the PCA notebook
    that split is the first event of the run, so this covers every fit; in
    the first notebook it is preceded by the K-nearest-neighbours cells, of
    which the statement says nothing.  The hold-out subset is the test side
    of the first split and has [ceil(0.2 * n)] records. *)
Theorem holdout_unused_after_partition
    (X : Frame features) (y : Frame Z) (w : world) :
  NoDup (index X) ->
  (forall hold_out post,
      after_first_split (events_of (notebook X y w)) = Some (hold_out, post) ->
      length hold_out = n_test_of hold_out_percent (length X)
      /\ forall ev r, In ev post -> In r (learning_rows ev) -> ~ In r hold_out)
  /\ (forall hold_out post,
         after_first_split (events_of (notebook_pca X y w)) = Some (hold_out, post) ->
         before_first_split (events_of (notebook_pca X y w)) = []
         /\ length hold_out = n_test_of hold_out_percent (length X)
         /\ forall ev r, In ev post -> In r (learning_rows ev) -> ~ In r hold_out).
Proof.
  intros Hnd. split.
  - intros hold_out post Hsplit.
    unfold notebook in Hsplit. rewrite events_of_bind in Hsplit.
    destruct (@emits_knn_cells L (index X) X y (incl_refl _) w) as (Hev1 & _).
    assert (Forall (fun ev => is_split ev = false) (events_of (knn_cells X y w)))
      as Hns by (eapply Forall_impl; [|exact Hev1]; intros ev H; apply H).
    destruct (result_of (knn_cells X y w)) as [[]|e].
    + destruct (@events_from_partition X y
                  (fun p0 => p <- normalization_cells p0 ;; forest_cells p)
                  (world_of (knn_cells X y w)) Hnd emits_cells_after_partition)
        as (tr & ho & a & b & rest & Hev & Hlen & Hrest).
      rewrite Hev, (after_first_split_app _ _ _ Hns) in Hsplit.
      injection Hsplit as <- <-. split; [exact Hlen|].
      intros ev r [<-|Hin] Hr; [contradiction|].
      rewrite Forall_forall in Hrest. now apply (Hrest ev Hin).
    + rewrite app_nil_r, (after_first_split_none Hns) in Hsplit. discriminate.
  - intros hold_out post Hsplit.
    unfold notebook_pca in *.
    destruct (@events_from_partition X y
                (fun p0 => p <- normalization_cells p0 ;; p <- pca_cells p ;;
                           forest_cells p)
                w Hnd emits_cells_after_partition_pca)
      as (tr & ho & a & b & rest & Hev & Hlen & Hrest).
    rewrite Hev in *. simpl in Hsplit. injection Hsplit as <- <-.
    split; [reflexivity|]. split; [exact Hlen|].
    intros ev r [<-|Hin] Hr; [contradiction|].
    rewrite Forall_forall in Hrest. now apply (Hrest ev Hin).
Qed.

End HoldOut.

(** C1 on the sample data: the first notebook on 30 records.  The hold-out
    subset has 6 records, and no event after the split that makes it
    touches one of them. *)
Lemma holdout_unused_after_partition_sample :
  exists hold_out post,
    after_first_split
      (events_of (@notebook toy_library (sample_X 30) (sample_y 30) toy_world))
    = Some (hold_out, post)
    /\ length hold_out = 6%nat
    /\ Forall (fun ev => Forall (fun r => ~ In r hold_out) (learning_rows ev)) post.
Proof.
  destruct (after_first_split
              (events_of (@notebook toy_library (sample_X 30) (sample_y 30) toy_world)))
    as [[hold_out post]|] eqn:E.
  - exists hold_out, post. split; [reflexivity|].
    assert (NoDup (index (sample_X 30))) as Hnd
      by (rewrite index_sample_X; apply seq_NoDup).
    destruct (proj1 (@holdout_unused_after_partition toy_library toy_library_laws
                       (sample_X 30) (sample_y 30) toy_world Hnd)
                    hold_out post E) as (Hlen & Hrows).
    split; [rewrite Hlen; reflexivity|].
    apply Forall_forall. intros ev Hev.
    apply Forall_forall. intros r Hr. exact (Hrows ev r Hev Hr).
  - exfalso. vm_compute in E. discriminate.
Defined.

(** C1 as the specification states it fails on the first notebook: on the sample data the
    records 12 to 17 become the hold-out subset, and record 12 is among the
    records of the first classifier fit of the run, a training fold of the
    K-nearest-neighbours cross-validation that precedes the partition. *)
Lemma knn_cells_fit_on_holdout_records :
  exists post rows,
    after_first_split
      (events_of (@notebook toy_library (sample_X 30) (sample_y 30) toy_world))
    = Some ([12; 13; 14; 15; 16; 17]%nat, post)
    /\ In (Fit {| algo := KNeighborsClassifier; hyper := [] |} rows)
          (before_first_split
             (events_of (@notebook toy_library (sample_X 30) (sample_y 30) toy_world)))
    /\ In 12%nat rows.
Proof.
  destruct (after_first_split
              (events_of (@notebook toy_library (sample_X 30) (sample_y 30) toy_world)))
    as [[hold_out post]|] eqn:E.
  - vm_compute in E. injection E as <- <-.
    eexists. exists (seq 4 26). split; [reflexivity|]. split.
    + vm_compute. left. reflexivity.
    + vm_compute. tauto.
  - exfalso. vm_compute in E. discriminate.
Qed.

(* ================================================================== *)
(** * Further properties of the notebooks' code *)
(* ================================================================== *)

(* ------------------------------------------------------------------ *)
(** ** The null accuracy as a baseline *)

Lemma count_binary (labels : Series) :
  is_binary labels ->
  (count_occ Z.eq_dec labels 0%Z + count_occ Z.eq_dec labels 1%Z = length labels)%nat.
Proof.
  induction 1 as [|v l Hv _ IH]; [reflexivity|].
  destruct Hv; subst v.
  - rewrite count_occ_cons_eq, count_occ_cons_neq by congruence. simpl. lia.
  - rewrite count_occ_cons_neq, count_occ_cons_eq by congruence. simpl. lia.
Qed.

Lemma share_range (k n : nat) :
  (k <= n)%nat -> (0 < n)%nat ->
  0 <= inject_Z (Z.of_nat k) / inject_Z (Z.of_nat n)
  /\ inject_Z (Z.of_nat k) / inject_Z (Z.of_nat n) <= 1.
Proof.
  intros Hk Hn.
  assert (0 < inject_Z (Z.of_nat n)) as Hpos
    by (change 0 with (inject_Z 0); rewrite <- Zlt_Qlt; lia).
  split.
  - apply Qle_shift_div_l; [exact Hpos|]. rewrite Qmult_0_l.
    change 0 with (inject_Z 0). rewrite <- Zle_Qle. lia.
  - apply Qle_shift_div_r; [exact Hpos|]. rewrite Qmult_1_l.
    rewrite <- Zle_Qle. lia.
Qed.

Lemma null_accuracy_score_value (v : Z) (l : list Z) :
  exists r,
    null_accuracy_score CLASSIFICATION_TYPE (v :: l) "Binary" = Return (Fin r)
    /\ r == Qmax (inject_Z (Zsum (v :: l)) / inject_Z (Z.of_nat (length (v :: l))))
                 (1 - inject_Z (Zsum (v :: l)) / inject_Z (Z.of_nat (length (v :: l)))).
Proof.
  unfold null_accuracy_score.
  change "Binary"%string with CLASSIFICATION_TYPE.
  rewrite null_accuracy_branch_self.
  unfold astype_int, Series_mean. cbv beta iota. unfold float_sub.
  destruct (py_max_Fin (inject_Z (Zsum (v :: l)) / inject_Z (Z.of_nat (length (v :: l))))
              (1 - inject_Z (Zsum (v :: l)) / inject_Z (Z.of_nat (length (v :: l)))))
    as (r & Hr & Hmax).
  exists r. split; [now rewrite Hr | exact Hmax].
Qed.

(** X1. With the argument ['Binary'] the function never raises.  On an
    empty Series it returns NaN; on any other it returns a number that is at
    least 1/2, and at most 1 when the labels are 0/1. *)
Theorem null_accuracy_score_range (labels : Series) :
  (labels = []
   /\ null_accuracy_score CLASSIFICATION_TYPE labels "Binary" = Return NaN)
  \/ (labels <> []
      /\ exists r,
           null_accuracy_score CLASSIFICATION_TYPE labels "Binary" = Return (Fin r)
           /\ (1 # 2) <= r
           /\ (is_binary labels -> r <= 1)).
Proof.
  destruct labels as [|v l]; [left; split; reflexivity|].
  right. split; [discriminate|].
  destruct (null_accuracy_score_value v l) as (r & Hr & Hmax).
  exists r. split; [exact Hr|].
  set (m := inject_Z (Zsum (v :: l)) / inject_Z (Z.of_nat (length (v :: l)))) in *.
  split.
  - rewrite Hmax. destruct (Q.max_spec m (1 - m)) as [[H E]|[H E]]; rewrite E; lra.
  - intros Hb. rewrite Hmax.
    assert (0 <= m /\ m <= 1) as (H0 & H1).
    { unfold m. rewrite (Zsum_binary Hb). apply share_range.
      - apply count_occ_bound.
      - simpl. lia. }
    destruct (Q.max_spec m (1 - m)) as [[H E]|[H E]]; rewrite E; lra.
Qed.

Lemma matches_constant (labels : list Z) (c : Z) :
  length (filter (fun ab => Z.eqb (fst ab) (snd ab))
                 (combine labels (repeat c (length labels))))
  = count_occ Z.eq_dec labels c.
Proof.
  induction labels as [|v l IH]; [reflexivity|].
  cbn [length repeat combine filter fst snd count_occ].
  destruct (Z.eqb_spec v c), (Z.eq_dec v c); try congruence; simpl; now rewrite IH.
Qed.

Lemma all_match (a b : list Z) :
  length a = length b ->
  (length (filter (fun ab => Z.eqb (fst ab) (snd ab)) (combine a b)) = length a
   <-> b = a).
Proof.
  revert b. induction a as [|x a IH]; intros [|z b] Hlen; try discriminate.
  - split; reflexivity.
  - injection Hlen as Hlen. specialize (IH b Hlen).
    pose proof (filter_length_le (fun ab => Z.eqb (fst ab) (snd ab)) (combine a b))
      as Hle.
    assert (length (combine a b) = length a) as Hc
      by (rewrite length_combine, <- Hlen; apply Nat.min_id).
    cbn [combine filter fst snd length].
    destruct (Z.eqb_spec x z) as [->|Hne].
    + cbn [length]. split.
      * intros H. f_equal. apply IH. lia.
      * intros [= ->]. f_equal. now apply IH.
    + split; [lia | congruence].
Qed.

Section Baseline.

Context {L : Library}.

(** X2. [show_accuracy] changes nothing and logs nothing.  Without one
    prediction per actual label it raises the ValueError of
    [accuracy_score].  Otherwise, on labels that are not empty, it returns
    an accuracy between 0 and 1, which is 1 exactly when every prediction
    is the actual label; and on 0/1 labels the accuracy of predicting 1
    everywhere is the positive fraction, never more than the null accuracy
    shown beside it. *)
Theorem show_accuracy_range
    (y_actuals : Frame Z) (y_predictions : list Z) (w : world) :
  (length y_predictions <> length y_actuals ->
   exists msg,
     show_accuracy y_actuals y_predictions CLASSIFICATION_TYPE w
     = (Raise (ValueError msg), w, []))
  /\ (length y_predictions = length y_actuals ->
      y_actuals <> [] ->
      exists a r,
        show_accuracy y_actuals y_predictions CLASSIFICATION_TYPE w
        = (Return (Fin a, Fin r), w, [])
        /\ 0 <= a /\ a <= 1
        /\ (a == 1 <-> y_predictions = values y_actuals)
        /\ (is_binary (values y_actuals) ->
            Forall (fun p => p = 1%Z) y_predictions ->
            a == positive_fraction (values y_actuals) /\ a <= r)).
Proof.
  assert (length (values y_actuals) = length y_actuals) as Hlen
    by (unfold values; apply length_map).
  split.
  - intros Hne. unfold show_accuracy, accuracy_score, bind, lift.
    destruct (Nat.eqb_spec (length (values y_actuals)) (length y_predictions));
      [congruence|].
    eexists. reflexivity.
  - intros Heq Hne.
    destruct (values y_actuals) as [|v l] eqn:Ev.
    { destruct y_actuals; [congruence | discriminate]. }
    destruct (null_accuracy_score_value v l) as (r & Hr & Hmax).
    change "Binary"%string with CLASSIFICATION_TYPE in Hr.
    set (k := length (filter (fun ab => Z.eqb (fst ab) (snd ab))
                             (combine (v :: l) y_predictions))).
    set (n := length (v :: l)) in *.
    assert (0 < n)%nat as Hn by (unfold n; simpl; lia).
    assert (k <= n)%nat as Hk.
    { unfold k. etransitivity; [apply filter_length_le|].
      rewrite length_combine. apply Nat.le_min_l. }
    assert (~ inject_Z (Z.of_nat n) == 0) as Hnz
      by (change 0 with (inject_Z 0); rewrite inject_Z_injective; lia).
    exists (inject_Z (Z.of_nat k) / inject_Z (Z.of_nat n)), r.
    destruct (@share_range k n Hk Hn) as (H0 & H1).
    split; [|split; [exact H0|split; [exact H1|split]]].
    + unfold show_accuracy, accuracy_score, bind, lift, ret.
      rewrite Ev, Hr. fold n.
      destruct (Nat.eqb_spec n (length y_predictions)); [|lia].
      reflexivity.
    + rewrite <- (all_match (v :: l) y_predictions) by (fold n; lia).
      fold k. fold n. split.
      * intros H. apply Nat2Z.inj. apply inject_Z_injective.
        rewrite <- (@Qmult_div_r (inject_Z (Z.of_nat k)) (inject_Z (Z.of_nat n)) Hnz), H.
        ring.
      * intros ->. unfold Qdiv. now apply Qmult_inv_r.
    + intros Hb Hones.
      assert (y_predictions = repeat 1%Z n) as Hrep.
      { replace n with (length y_predictions) by (fold n in Hlen; lia).
        apply Forall_eq_repeat.
        eapply Forall_impl; [|exact Hones]. intros p Hp. now symmetry. }
      assert (inject_Z (Z.of_nat k) / inject_Z (Z.of_nat n)
              == positive_fraction (v :: l)) as Hpos.
      { unfold positive_fraction, k. rewrite Hrep. unfold n.
        now rewrite (matches_constant (v :: l) 1). }
      split; [exact Hpos|].
      rewrite Hpos, Hmax, (Zsum_binary Hb). apply Q.le_max_l.
Qed.

End Baseline.

(* ------------------------------------------------------------------ *)
(** ** The share of the most frequent label *)

Lemma fold_max_ge (f : Z -> nat) (cl : list Z) (c : Z) :
  In c cl -> (f c <= fold_right Nat.max 0%nat (map f cl))%nat.
Proof.
  induction cl as [|a cl IH]; simpl; intros H; [contradiction|].
  destruct H as [->|H]; [lia|]. specialize (IH H). lia.
Qed.

Lemma fold_max_attained (f : Z -> nat) (cl : list Z) :
  cl <> [] ->
  exists c, In c cl /\ fold_right Nat.max 0%nat (map f cl) = f c.
Proof.
  induction cl as [|a cl IH]; [congruence|]. intros _.
  destruct cl as [|b cl].
  - exists a. split; [now left|]. simpl. lia.
  - destruct IH as (c & Hc & Hmax); [discriminate|].
    change (fold_right Nat.max 0%nat (map f (a :: b :: cl)))
      with (Nat.max (f a) (fold_right Nat.max 0%nat (map f (b :: cl)))).
    rewrite Hmax.
    destruct (Nat.le_gt_cases (f c) (f a)).
    + exists a. split; [now left | lia].
    + exists c. split; [now right | lia].
Qed.

Lemma top_count (labels : Series) :
  labels <> [] ->
  exists top c,
    head1_item (value_counts labels) = Return top
    /\ In c labels
    /\ top = count_occ Z.eq_dec labels c
    /\ forall c', (count_occ Z.eq_dec labels c' <= top)%nat.
Proof.
  intros Hne.
  assert (nodup Z.eq_dec labels <> []) as Hnd.
  { destruct labels as [|v l]; [congruence|]. intros H.
    assert (In v (nodup Z.eq_dec (v :: l))) as Hin by (apply nodup_In; now left).
    rewrite H in Hin. contradiction. }
  destruct (fold_max_attained (count_occ Z.eq_dec labels) Hnd) as (c & Hc & Hmax).
  exists (count_occ Z.eq_dec labels c), c.
  split; [|split; [|split]].
  - unfold head1_item, value_counts.
    destruct (nodup Z.eq_dec labels) as [|a cl] eqn:E; [congruence|].
    cbn [map]. f_equal. rewrite <- Hmax. rewrite map_map. reflexivity.
  - now apply nodup_In in Hc.
  - reflexivity.
  - intros c'. rewrite <- Hmax.
    destruct (in_dec Z.eq_dec c' labels) as [Hin|Hnot].
    + apply (fold_max_ge (count_occ Z.eq_dec labels)). now apply nodup_In.
    + rewrite (proj1 (count_occ_not_In Z.eq_dec labels c') Hnot). lia.
Qed.

(** X3. The multi-class expression of the unreachable arm, taken on its
    own: on an empty Series it raises the ValueError of [.item()], where
    the binary arm returns NaN; on any other it returns the share of the
    most frequent label, the largest count divided by the length, a number
    in (0, 1] that is at least 1/2 on 0/1 labels. *)
Theorem most_frequent_share_range (labels : Series) :
  (labels = []
   /\ most_frequent_share labels
      = Raise (ValueError "can only convert an array of size 1 to a Python scalar")
   /\ null_accuracy_score CLASSIFICATION_TYPE labels "Binary" = Return NaN)
  \/ (labels <> []
      /\ exists top c,
           most_frequent_share labels
           = Return (Fin (inject_Z (Z.of_nat top)
                          / inject_Z (Z.of_nat (length labels))))
           /\ In c labels
           /\ top = count_occ Z.eq_dec labels c
           /\ (forall c', (count_occ Z.eq_dec labels c' <= top)%nat)
           /\ 0 < inject_Z (Z.of_nat top) / inject_Z (Z.of_nat (length labels))
           /\ inject_Z (Z.of_nat top) / inject_Z (Z.of_nat (length labels)) <= 1
           /\ (is_binary labels ->
               (1 # 2) <= inject_Z (Z.of_nat top)
                          / inject_Z (Z.of_nat (length labels)))).
Proof.
  destruct labels as [|v l]; [left; repeat split; reflexivity|].
  right. split; [discriminate|].
  destruct (@top_count (v :: l)) as (top & c & Htop & Hc & Hcount & Hge);
    [discriminate|].
  assert (0 < length (v :: l))%nat as Hn by (simpl; lia).
  assert (0 < top)%nat as Hpos
    by (rewrite Hcount; apply (count_occ_In Z.eq_dec); exact Hc).
  assert (top <= length (v :: l))%nat as Hle
    by (rewrite Hcount; apply count_occ_bound).
  assert (0 < inject_Z (Z.of_nat (length (v :: l)))) as Hnpos
    by (change 0 with (inject_Z 0); rewrite <- Zlt_Qlt; lia).
  exists top, c.
  split; [unfold most_frequent_share; now rewrite Htop|].
  split; [exact Hc|]. split; [exact Hcount|]. split; [exact Hge|].
  split; [|split].
  - apply Qlt_shift_div_l; [exact Hnpos|].
    rewrite Qmult_0_l. change 0 with (inject_Z 0). rewrite <- Zlt_Qlt. lia.
  - now apply share_range.
  - intros Hb. pose proof (count_binary Hb) as Hsum.
    pose proof (Hge 0%Z) as G0. pose proof (Hge 1%Z) as G1.
    apply Qle_shift_div_l; [exact Hnpos|].
    assert ((1 # 2) * inject_Z (Z.of_nat (length (v :: l)))
            == inject_Z (Z.of_nat (length (v :: l))) / 2) as -> by field.
    apply Qle_shift_div_r; [reflexivity|].
    change 2 with (inject_Z 2). rewrite <- inject_Z_mult, <- Zle_Qle. lia.
Qed.

(* ------------------------------------------------------------------ *)
(** ** [export_model] and the other files of the working directory *)

Lemma string_length_append (a s : string) :
  String.length (a ++ s) = (String.length a + String.length s)%nat.
Proof. induction a as [|ch a IH]; simpl; [reflexivity | now rewrite IH]. Qed.

Lemma string_append_cancel_r (s : string) :
  forall a b : string, (a ++ s)%string = (b ++ s)%string -> a = b.
Proof.
  induction a as [|ch a IH]; intros [|ch' b] H; simpl in H.
  - reflexivity.
  - apply (f_equal String.length) in H. simpl in H.
    rewrite string_length_append in H. lia.
  - apply (f_equal String.length) in H. simpl in H.
    rewrite string_length_append in H. lia.
  - injection H as -> H. f_equal. now apply IH.
Qed.

Section ExportFrame.

Context {L : Library}.

Lemma read_file_remove_other (name other : string)
    (fs : list (string * file_content)) :
  other <> name -> read_file other (remove_file name fs) = read_file other fs.
Proof.
  intros Hne. unfold read_file, remove_file.
  induction fs as [|[k c] fs IH]; [reflexivity|]. simpl.
  destruct (String.eqb_spec k name) as [->|Hk]; simpl.
  - destruct (String.eqb_spec name other) as [E|_]; [congruence | exact IH].
  - destruct (String.eqb k other); [reflexivity | exact IH].
Qed.

Lemma read_file_write_other (name other : string) (c : file_content)
    (fs : list (string * file_content)) :
  other <> name ->
  read_file other ((name, c) :: remove_file name fs) = read_file other fs.
Proof.
  intros Hne. rewrite <- (read_file_remove_other fs Hne).
  unfold read_file. simpl.
  destruct (String.eqb_spec name other); [congruence | reflexivity].
Qed.

(** X4. Whatever the globals and whether it fails or not, [export_model]
    touches one file only: every other file of the working directory reads
    as before, and numpy's generator is left alone.  Different algorithm
    names give different file names, so two exports never overwrite one
    another. *)
Theorem export_model_touches_one_file
    (g : globals) (m : Model) (algorithm_name other : string) (w : world) :
  other <> ("Customer_Churn_" ++ algorithm_name ++ ".pkl")%string ->
  read_file other (files (world_of (export_model g m algorithm_name w)))
  = read_file other (files w)
  /\ np_random (world_of (export_model g m algorithm_name w)) = np_random w
  /\ (forall b : string,
         ("Customer_Churn_" ++ algorithm_name ++ ".pkl")%string
         = ("Customer_Churn_" ++ b ++ ".pkl")%string ->
         algorithm_name = b).
Proof.
  intros Hne. split; [|split].
  - unfold export_model, bind, open_wb, lookup_global, pickle_dump, ret, raise, world_of.
    destruct (g_pickle g); cbn [fst snd files].
    + destruct (g_rfc g) as [rfc|]; cbn [fst snd files].
      * rewrite read_file_write_other by exact Hne.
        now rewrite read_file_write_other by exact Hne.
      * now rewrite read_file_write_other by exact Hne.
    + now rewrite read_file_write_other by exact Hne.
  - unfold export_model, bind, open_wb, lookup_global, pickle_dump, ret, raise, world_of.
    destruct (g_pickle g); cbn [fst snd np_random];
      [destruct (g_rfc g); reflexivity | reflexivity].
  - intros b H. simpl in H. injection H as H.
    now apply string_append_cancel_r in H.
Qed.

End ExportFrame.

(** X4 on a working directory that holds an earlier export of another
    model: the failing export of the notebooks leaves it as it was. *)
Lemma export_model_touches_one_file_sample :
  read_file "Customer_Churn_KNN.pkl"
    (files (world_of
              (@export_model toy_library
                 {| g_rfc := None; g_pickle := false |}
                 ({| algo := RandomForestClassifier; hyper := [] |}, [])
                 "RandomForestsClassifier"
                 {| np_random := 0%nat : @RandomState toy_library;
                    files := [("Customer_Churn_KNN.pkl"%string,
                               [({| algo := KNeighborsClassifier; hyper := [] |},
                                 [])])] |})))
  = Some [({| algo := KNeighborsClassifier; hyper := [] |}, [])].
Proof.
  apply (@export_model_touches_one_file toy_library).
  discriminate.
Defined.

(* ------------------------------------------------------------------ *)
(** ** How a run of the notebooks ends *)

Section RunEnds.

Context {L : Library}.

Lemma bind_raises {A B : Type} (m : M A) (f : A -> M B) :
  (forall a w, exists e, result_of (f a w) = Raise e) ->
  forall w, exists e, result_of (bind m f w) = Raise e.
Proof.
  intros Hf w. unfold bind, result_of.
  destruct (m w) as [[[a|e] w1] l1].
  - destruct (Hf a w1) as (e & He). unfold result_of in He.
    destruct (f a w1) as [[r w2] l2]. simpl in *. now exists e.
  - now exists e.
Qed.

Lemma export_model_without_pickle (rfc : option Model) (m : Model)
    (algorithm_name : string) (w : world) :
  result_of (export_model {| g_rfc := rfc; g_pickle := false |} m algorithm_name w)
  = Raise (NameError "pickle").
Proof. reflexivity. Qed.

Lemma forest_cells_raise (p : partition) (w : world) :
  exists e, result_of (forest_cells p w) = Raise e.
Proof.
  revert w. unfold forest_cells.
  apply bind_raises. intros rfc_fitted.
  apply bind_raises. intros y_pred.
  apply bind_raises. intros y_probs.
  apply bind_raises. intros _.
  apply bind_raises. intros rand. cbv zeta.
  apply bind_raises. intros rfc_fitted'.
  apply bind_raises. intros y_pred'.
  apply bind_raises. intros y_probs'.
  apply bind_raises. intros _.
  apply bind_raises. intros _ w.
  eexists. apply export_model_without_pickle.
Qed.

(** X5. No run of either notebook from top to bottom completes: whatever
    the data and the library do, the run ends in an exception.  The last
    cell calls [export_model], which needs [pickle], and no cell imports
    it. *)
Theorem notebooks_never_complete (X : Frame features) (y : Frame Z) (w : world) :
  (exists e, result_of (notebook X y w) = Raise e)
  /\ (exists e, result_of (notebook_pca X y w) = Raise e).
Proof.
  split.
  - revert w. unfold notebook.
    apply bind_raises. intros _.
    apply bind_raises. intros p.
    apply bind_raises. intros p'. apply forest_cells_raise.
  - revert w. unfold notebook_pca.
    apply bind_raises. intros p.
    apply bind_raises. intros p'.
    apply bind_raises. intros p''. apply forest_cells_raise.
Qed.

End RunEnds.

(* ------------------------------------------------------------------ *)
(** ** The exhaustive search of the K-nearest-neighbours cells *)

Section Grid.

Local Open Scope nat_scope.

Lemma ParameterGrid_In (space : param_space) (p : params) :
  In p (ParameterGrid space)
  <-> Forall2 (fun kv sp => fst kv = fst sp /\ In (snd kv) (snd sp)) p space.
Proof.
  revert p. induction space as [|[k vs] rest IH]; intros p; simpl.
  - split.
    + intros [<-|[]]. constructor.
    + intros H. inversion H. now left.
  - rewrite in_flat_map. split.
    + intros (v & Hv & Hin). apply in_map_iff in Hin. destruct Hin as (q & <- & Hq).
      constructor; [now split|]. now apply IH.
    + intros H. inversion H as [|[k' v] sp q rest' [Hk Hv] Hrest]; subst.
      simpl in Hk, Hv. subst k'. exists v. split; [exact Hv|].
      apply in_map_iff. exists q. split; [reflexivity|]. now apply IH.
Qed.

Lemma length_ParameterGrid (space : param_space) :
  length (ParameterGrid space) = space_size space.
Proof.
  induction space as [|[k vs] rest IH]; simpl; [reflexivity|].
  rewrite <- IH. generalize (ParameterGrid rest) as G. intros G.
  induction vs as [|v vs IHv]; simpl; [reflexivity|].
  rewrite length_app, length_map. f_equal. exact IHv.
Qed.

Lemma existsb_empty_values (space : param_space) :
  existsb (fun kv : string * list pv =>
             match snd kv with [] => true | _ :: _ => false end) space = false
  <-> Forall (fun kv => snd kv <> []) space.
Proof.
  induction space as [|[k vs] rest IH]; simpl.
  - split; [constructor|reflexivity].
  - destruct vs as [|v vs]; simpl.
    + split; [discriminate|]. intros H. inversion H as [|? ? Hk _]. now elim Hk.
    + rewrite IH. split.
      * intros H. constructor; [discriminate|exact H].
      * intros H. now inversion H.
Qed.

Lemma ParameterGrid_nonempty (space : param_space) :
  Forall (fun kv => snd kv <> []) space -> ParameterGrid space <> [].
Proof.
  intros H E. apply (f_equal (@length params)) in E.
  rewrite length_ParameterGrid in E. simpl in E.
  induction H as [|[k vs] rest Hvs _ IH]; simpl in E; [discriminate|].
  destruct vs as [|v vs]; [now apply Hvs|]. simpl in E. apply IH. lia.
Qed.

Context {L : Library} {LL : LibraryLaws L}.

Lemma GridSearchCV_fit_returns (est : estimator) (space : param_space)
    (cv : nat) (s : scoring) (X : Frame features) (y : Frame Z)
    (w w' : world) (res : search_result) (evs : list event) :
  GridSearchCV_fit est space cv s X y w = (Return res, w', evs) ->
  w' = w
  /\ length X = length y
  /\ stratifiable cv (values y)
  /\ cv_results_params res = ParameterGrid space
  /\ evs = search_events est (ParameterGrid space) s X (cv_folds cv (values y))
                         (best_params_ res)
  /\ Forall2 (fun p qs =>
                Forall2 (fun fold q => fold_score (set_params est p) X y s fold
                                       = Return q)
                        (cv_folds cv (values y)) qs)
             (ParameterGrid space) (cv_results_scores res)
  /\ In (best_params_ res) (ParameterGrid space)
  /\ lib_fit (set_params est (best_params_ res)) X y = Return (best_estimator_ res).
Proof.
  unfold GridSearchCV_fit, BaseSearchCV_fit.
  destruct (existsb _ space); [discriminate|].
  destruct (cv <=? 1); [discriminate|].
  destruct (Nat.eqb_spec (length X) (length y)) as [Hlen|]; [|discriminate].
  cbn [negb]. unfold bind at 1, ret. cbv beta iota.
  destruct (evaluate_candidates est (ParameterGrid space) cv s X y w)
    as [[r w1] l1] eqn:E.
  intros [= -> <- <-].
  apply evaluate_candidates_returns in E.
  destruct E as (-> & _ & Hs & Hp & -> & Hsc & Hbest & Hfit).
  split; [reflexivity|]. split; [assumption|]. split; [assumption|].
  split; [assumption|]. split; [reflexivity|]. split; [assumption|].
  split; assumption.
Qed.

Lemma GridSearchCV_fit_accepted (est : estimator) (space : param_space)
    (cv : nat) (s : scoring) (X : Frame features) (y : Frame Z) (w : world) :
  Forall (fun kv => snd kv <> []) space ->
  length X = length y ->
  stratifiable cv (values y) ->
  (forall p, In p (ParameterGrid space) ->
             accepts (set_params est p) X y s (cv_folds cv (values y))
             /\ returns (lib_fit (set_params est p) X y)) ->
  exists res evs, GridSearchCV_fit est space cv s X y w = (Return res, w, evs).
Proof.
  intros Hne Hlen Hs Ha. unfold GridSearchCV_fit, BaseSearchCV_fit.
  apply existsb_empty_values in Hne as Hex. rewrite Hex.
  pose proof Hs as (Hcv & _).
  destruct (Nat.leb_spec cv 1); [lia|].
  rewrite Hlen, Nat.eqb_refl. cbn [negb]. unfold bind at 1, ret. cbv beta iota.
  destruct (@evaluate_candidates_accepted _ _ est (ParameterGrid space) cv s X y w)
    as (res & evs & E); try assumption.
  - now apply ParameterGrid_nonempty.
  - rewrite E. now exists res, evs.
Qed.

Lemma GridSearchCV_fit_without_folds (est : estimator) (space : param_space)
    (cv : nat) (s : scoring) (X : Frame features) (y : Frame Z) (w : world) :
  length X <> length y \/ ~ stratifiable cv (values y) ->
  exists msg, GridSearchCV_fit est space cv s X y w = (Raise (ValueError msg), w, []).
Proof.
  intros Hcase. unfold GridSearchCV_fit, BaseSearchCV_fit.
  destruct (existsb _ space); [eexists; reflexivity|].
  destruct (cv <=? 1); [eexists; reflexivity|].
  destruct (Nat.eqb_spec (length X) (length y)) as [Hlen|];
    [|eexists; reflexivity].
  destruct Hcase as [Hne|Hns]; [congruence|].
  destruct (StratifiedKFold_split_raises Hns) as (msg & Hmsg).
  exists msg. cbn [negb]. unfold evaluate_candidates, bind, ret, lift.
  now rewrite Hmsg.
Qed.

(** X9. [GridSearchCV.fit] as the notebook calls it.  A parameter with no
    value to try makes it raise ValueError before anything is fitted.  When
    it returns it has left the world as it was and has scored, on every
    fold, exactly the combinations that give every parameter one of its
    values, as many as the product of the numbers of values, and refitted
    one of them: one fit per combination and fold and one more.  It
    returns when every parameter has a value, features and labels have
    one length, the folds can be made, and the learner accepts every
    combination. *)
Theorem grid_search_is_exhaustive
    (est : estimator) (space : param_space) (cv : nat) (s : scoring)
    (X : Frame features) (y : Frame Z) (w : world) :
  (Exists (fun kv => snd kv = []) space ->
   exists msg, GridSearchCV_fit est space cv s X y w = (Raise (ValueError msg), w, []))
  /\ (forall res w' evs,
         GridSearchCV_fit est space cv s X y w = (Return res, w', evs) ->
         w' = w
         /\ (forall p,
                In p (cv_results_params res)
                <-> Forall2 (fun kv sp => fst kv = fst sp /\ In (snd kv) (snd sp))
                            p space)
         /\ length (cv_results_params res) = space_size space
         /\ Forall2 (fun p qs =>
                       Forall2 (fun fold q =>
                                  fold_score (set_params est p) X y s fold = Return q)
                               (cv_folds cv (values y)) qs)
                    (cv_results_params res) (cv_results_scores res)
         /\ In (best_params_ res) (cv_results_params res)
         /\ length (filter is_fit evs) = space_size space * cv + 1)
  /\ (Forall (fun kv => snd kv <> []) space ->
      length X = length y ->
      stratifiable cv (values y) ->
      (forall p, In p (ParameterGrid space) ->
                 accepts (set_params est p) X y s (cv_folds cv (values y))
                 /\ returns (lib_fit (set_params est p) X y)) ->
      returns (result_of (GridSearchCV_fit est space cv s X y w))).
Proof.
  split; [|split].
  - intros Hex. unfold GridSearchCV_fit.
    destruct (existsb _ space) eqn:E; [eexists; reflexivity|].
    exfalso. apply existsb_empty_values in E.
    apply Exists_exists in Hex. destruct Hex as (kv & Hin & Hkv).
    rewrite Forall_forall in E. now apply (E kv Hin).
  - intros res w' evs H. apply GridSearchCV_fit_returns in H.
    destruct H as (-> & _ & _ & Hp & -> & Hsc & Hbest & _).
    rewrite Hp, count_fits_search_events, length_cv_folds, length_ParameterGrid.
    split; [reflexivity|]. split; [intros p; apply ParameterGrid_In|].
    repeat split; assumption.
  - intros Hne Hlen Hs Ha.
    destruct (@GridSearchCV_fit_accepted est space cv s X y w Hne Hlen Hs Ha)
      as (res & evs & E).
    exists res. now rewrite E.
Qed.

End Grid.

(** X9 on the sample data: the grid of the notebook, 24 values of
    [n_neighbors] by 2 of [weights], costs 481 fits. *)
Lemma grid_search_is_exhaustive_sample :
  exists res evs,
    @GridSearchCV_fit toy_library {| algo := KNeighborsClassifier; hyper := [] |}
                      param_grid 10 accuracy (sample_X 30) (sample_y 30) toy_world
    = (Return res, toy_world, evs)
    /\ length (cv_results_params res) = 48%nat
    /\ length (filter is_fit evs) = 481%nat.
Proof.
  destruct (@GridSearchCV_fit toy_library {| algo := KNeighborsClassifier; hyper := [] |}
              param_grid 10 accuracy (sample_X 30) (sample_y 30) toy_world)
    as [[[res|e] w'] evs] eqn:E.
  - destruct (@grid_search_is_exhaustive toy_library toy_library_laws
                {| algo := KNeighborsClassifier; hyper := [] |}
                param_grid 10 accuracy (sample_X 30) (sample_y 30) toy_world)
      as (_ & Hret & _).
    destruct (Hret res w' evs E) as (-> & _ & Hn & _ & _ & Hfits).
    exists res, evs. repeat split; assumption.
  - exfalso. vm_compute in E. discriminate.
Defined.

(* ------------------------------------------------------------------ *)
(** ** When the folds cannot be made *)

Section NoFolds.

Context {L : Library}.

Lemma cross_val_score_without_folds (est : estimator) (X : Frame features)
    (y : Frame Z) (s : scoring) (K : nat) (w : world) :
  length X <> length y \/ ~ stratifiable K (values y) ->
  exists msg, cross_val_score est X y s K w = (Raise (ValueError msg), w, []).
Proof.
  intros Hcase. unfold cross_val_score.
  destruct (Nat.eqb_spec (length X) (length y)) as [Hlen|];
    [|eexists; reflexivity].
  destruct Hcase as [Hne|Hns]; [congruence|].
  destruct (StratifiedKFold_split_raises Hns) as (msg & Hmsg).
  exists msg. cbn [negb]. unfold bind, lift. now rewrite Hmsg.
Qed.

(** X10. The cross-validated report can return only when features and
    labels have one length and the K folds can be made, that is when K is
    at least 2 and some class has at least K records.  Otherwise the
    report and the grid search both raise ValueError with nothing fitted
    or scored and the world as it was. *)
Theorem cross_validation_needs_folds
    (classifier : estimator) (X : Frame features) (y : Frame Z) (K : nat)
    (w : world) :
  (returns (result_of (show_cv_classification_report classifier X y K w)) ->
   length X = length y /\ stratifiable K (values y))
  /\ (length X <> length y \/ ~ stratifiable K (values y) ->
      (exists msg,
          show_cv_classification_report classifier X y K w
          = (Raise (ValueError msg), w, []))
      /\ (forall (space : param_space) (s : scoring),
             exists msg,
               GridSearchCV_fit classifier space K s X y w
               = (Raise (ValueError msg), w, []))).
Proof.
  split.
  - intros Hr. apply show_cv_classification_report_returns in Hr.
    destruct Hr as (Hlen & Hs & _). now split.
  - intros Hcase. split.
    + destruct (@cross_val_score_without_folds classifier X y accuracy K w Hcase)
        as (msg & Hmsg).
      exists msg. unfold show_cv_classification_report. unfold bind at 1.
      now rewrite Hmsg.
    + intros space s. now apply GridSearchCV_fit_without_folds.
Qed.

End NoFolds.

(** X10 on the sample data: 12 records, six of each label, cannot be cut
    into ten folds. *)
Lemma cross_validation_needs_folds_sample :
  exists msg,
    @show_cv_classification_report toy_library
       {| algo := KNeighborsClassifier; hyper := [] |}
       (sample_X 12) (sample_y 12) 10 toy_world
    = (Raise (ValueError msg), toy_world, []).
Proof.
  apply (@cross_validation_needs_folds toy_library
           {| algo := KNeighborsClassifier; hyper := [] |}
           (sample_X 12) (sample_y 12) 10 toy_world).
  right. intros Hs. pose proof (StratifiedKFold_split_ok Hs) as H.
  vm_compute in H. discriminate.
Defined.

(* ------------------------------------------------------------------ *)
(** ** The K-nearest-neighbours cells and the records later held out *)

Lemma before_first_split_app (l1 l2 : list event) (a b : list nat) :
  Forall (fun ev => is_split ev = false) l1 ->
  before_first_split (l1 ++ Split a b :: l2) = l1.
Proof.
  induction 1 as [|ev l1 Hev _ IH]; simpl; [reflexivity|].
  destruct ev; try discriminate; now rewrite IH.
Qed.

Section KnnCells.

Context {L : Library} {LL : LibraryLaws L}.

Lemma partition_cells_first_split (X : Frame features) (y : Frame Z) :
  exists p,
    pure_run (partition_cells X y) (Return p)
             [Split (index (X_ p)) (index (X_eval p));
              Split (index (X_train p)) (index (X_test p))]
    /\ incl (index (X_eval p)) (index X).
Proof.
  assert (Qle_bool 1 hold_out_percent = false) as Hh by reflexivity.
  assert (Qle_bool 1 0.2 = false) as Ht by reflexivity.
  pose proof (train_test_split_seeded X y hold_out_percent 42%Z Hh) as H1.
  assert (incl (index (snd (fst (fst (seeded_split X y hold_out_percent 42%Z)))))
               (index X)) as Hincl by apply index_iloc_incl.
  destruct (seeded_split X y hold_out_percent 42%Z) as [[[X' Xev] y'] yev].
  pose proof (train_test_split_seeded X' y' 0.2 42%Z Ht) as H2.
  destruct (seeded_split X' y' 0.2 42%Z) as [[[Xtr Xte] ytr] yte].
  simpl in H1, H2, Hincl.
  exists {| X_train := Xtr; X_test := Xte; X_ := X'; X_eval := Xev;
            y_train := ytr; y_test := yte; y_ := y'; y_eval := yev |}.
  cbn [X_train X_test X_ X_eval]. split; [|exact Hincl].
  unfold partition_cells, two_stage_split.
  eapply pure_run_bind with (evs := [_]) (evs' := [_]); [exact H1|]. cbv beta iota.
  eapply pure_run_bind with (evs := [_]) (evs' := []); [exact H2|]. cbv beta iota.
  apply pure_run_ret.
Qed.

(** When the K-nearest-neighbours cells run to their end, the grid search
    among them has refitted its best candidate on all the records. *)
Lemma knn_cells_returns (X : Frame features) (y : Frame Z) (w : world) :
  returns (result_of (knn_cells X y w)) ->
  length X = length y
  /\ stratifiable 10 (values y)
  /\ exists est, In (Fit est (index X)) (events_of (knn_cells X y w)).
Proof.
  intros (v & H). unfold knn_cells in *.
  rewrite events_of_bind.
  apply result_of_bind in H. destruct H as (v1 & H1 & H). rewrite H1.
  set (w1 := world_of (show_cv_classification_report
                         {| algo := KNeighborsClassifier; hyper := [] |} X y 10 w)) in *.
  rewrite events_of_bind.
  apply result_of_bind in H. destruct H as (grid & Hg & _). rewrite Hg.
  destruct (GridSearchCV_fit {| algo := KNeighborsClassifier; hyper := [] |}
              param_grid 10 accuracy X y w1) as [[rg wg] lg] eqn:Eg.
  unfold result_of in Hg. cbn [fst] in Hg. subst rg.
  apply GridSearchCV_fit_returns in Eg.
  destruct Eg as (_ & Hlen & Hs & _ & -> & _).
  split; [assumption|]. split; [assumption|].
  eexists. apply in_or_app. right. apply in_or_app. left.
  unfold events_of. cbn [snd]. unfold search_events.
  apply in_or_app. right. now left.
Qed.

(** X6. In the first notebook, whenever a run reaches the split that makes
    the hold-out subset, the grid search over the K-nearest-neighbours
    parameters has ended with a fit on all records of the data, before that
    split: every record the split puts in the hold-out subset has taken
    part in it. *)
Theorem knn_search_refits_on_every_record
    (X : Frame features) (y : Frame Z) (w : world)
    (hold_out : list nat) (post : list event) :
  after_first_split (events_of (notebook X y w)) = Some (hold_out, post) ->
  (exists est,
      In (Fit est (index X)) (before_first_split (events_of (notebook X y w))))
  /\ incl hold_out (index X)
  /\ length X = length y
  /\ stratifiable 10 (values y).
Proof.
  intros Hsplit.
  assert (Forall (fun ev => is_split ev = false) (events_of (knn_cells X y w)))
    as Hns.
  { destruct (@emits_knn_cells L (index X) X y (incl_refl _) w) as (Hev & _).
    eapply Forall_impl; [|exact Hev]. intros ev H. apply H. }
  destruct (partition_cells_first_split X y) as (p & Hpart & Hincl).
  unfold notebook in *. rewrite events_of_bind in *.
  destruct (result_of (knn_cells X y w)) as [[]|e] eqn:Er.
  - destruct (@knn_cells_returns X y w) as (Hlen & Hs & est & Hin).
    { exists tt. exact Er. }
    rewrite events_of_bind, (Hpart (world_of (knn_cells X y w))) in *.
    unfold events_of at 2, result_of at 1, world_of at 2 in Hsplit.
    unfold events_of at 2, result_of at 1, world_of at 2.
    cbn [fst snd app] in *.
    rewrite (after_first_split_app _ _ _ Hns) in Hsplit.
    injection Hsplit as <- _.
    rewrite (before_first_split_app _ _ _ Hns).
    split; [now exists est|]. split; [assumption|]. now split.
  - rewrite app_nil_r, (after_first_split_none Hns) in Hsplit. discriminate.
Qed.

End KnnCells.

(** X6 on the sample data: 30 records, 15 of each label. *)
Lemma knn_search_refits_on_every_record_sample :
  exists est hold_out post,
    In (Fit est (index (sample_X 30)))
       (before_first_split
          (events_of (@notebook toy_library (sample_X 30) (sample_y 30) toy_world)))
    /\ after_first_split
         (events_of (@notebook toy_library (sample_X 30) (sample_y 30) toy_world))
       = Some (hold_out, post)
    /\ incl hold_out (index (sample_X 30)).
Proof.
  destruct (after_first_split
              (events_of (@notebook toy_library (sample_X 30) (sample_y 30) toy_world)))
    as [[hold_out post]|] eqn:E.
  - destruct (@knn_search_refits_on_every_record toy_library toy_library_laws
                (sample_X 30) (sample_y 30) toy_world hold_out post E)
      as ((est & Hin) & Hincl & _).
    exists est, hold_out, post.
    split; [exact Hin|]. split; [reflexivity | exact Hincl].
  - exfalso. vm_compute in E. discriminate.
Defined.

(* ------------------------------------------------------------------ *)
(** ** Labels and features through the two splits *)

Lemma index_iloc_same {A B : Type} (X : Frame A) (y : Frame B) (ps : list nat) :
  index X = index y -> index (iloc X ps) = index (iloc y ps).
Proof.
  intros H. unfold index, iloc. induction ps as [|p ps IH]; simpl; [reflexivity|].
  rewrite !map_app, IH. f_equal.
  assert (nth_error (map fst X) p = nth_error (map fst y) p) as Hp
      by (unfold index in H; now rewrite H).
  rewrite !nth_error_map in Hp.
  destruct (nth_error X p), (nth_error y p); simpl in *; congruence.
Qed.

Section Alignment.

Context {L : Library}.

Lemma train_test_split_run {A B : Type} (X : Frame A) (y : Frame B)
    (test_size : Q) (random_state : option Z) (w : world) :
  test_size < 1 ->
  exists ind_train ind_test w' evs,
    train_test_split X y test_size random_state w
    = (Return (iloc X ind_train, iloc X ind_test, iloc y ind_train, iloc y ind_test),
       w', evs).
Proof.
  intros Hlt. unfold train_test_split. rewrite (Qle_bool_1_false Hlt).
  unfold bind at 1, with_rng.
  destruct (rng_permutation (check_random_state random_state w) (length X))
    as [perm g'].
  destruct random_state; cbn; do 4 eexists; reflexivity.
Qed.

(** X7. Whatever the seed, when the labels carry the index of the features
    and both fractions are below 1, the two splits return, and each of the
    four subsets of labels carries the index of its subset of features, in
    the same order; the rows of every subset are rows of the data. *)
Theorem labels_follow_their_records
    (X : Frame features) (y : Frame Z) (hold_out test_size : Q)
    (random_state : option Z) (w : world) :
  index X = index y -> hold_out < 1 -> test_size < 1 ->
  exists p,
    result_of (two_stage_split hold_out test_size random_state X y w) = Return p
    /\ index (y_train p) = index (X_train p)
    /\ index (y_test p) = index (X_test p)
    /\ index (y_eval p) = index (X_eval p)
    /\ index (y_ p) = index (X_ p)
    /\ incl (X_train p) X /\ incl (X_test p) X /\ incl (X_eval p) X
    /\ incl (y_train p) y /\ incl (y_test p) y /\ incl (y_eval p) y.
Proof.
  intros Hidx Hh Ht. unfold two_stage_split.
  destruct (train_test_split_run X y random_state w Hh)
    as (a & b & w1 & e1 & H1).
  destruct (train_test_split_run (iloc X a) (iloc y a) random_state w1 Ht)
    as (c & d & w2 & e2 & H2).
  unfold bind at 1. rewrite H1. cbv beta iota.
  unfold bind at 1. rewrite H2. cbv beta iota.
  unfold ret, result_of. cbn [fst].
  eexists. split; [reflexivity|]. cbn [X_train X_test X_ X_eval y_train y_test y_ y_eval].
  assert (index (iloc X a) = index (iloc y a)) as Ha by now apply index_iloc_same.
  repeat split.
  - symmetry. now apply index_iloc_same.
  - symmetry. now apply index_iloc_same.
  - symmetry. now apply index_iloc_same.
  - now symmetry.
  - eapply incl_tran; apply iloc_incl.
  - eapply incl_tran; apply iloc_incl.
  - apply iloc_incl.
  - eapply incl_tran; apply iloc_incl.
  - eapply incl_tran; apply iloc_incl.
  - apply iloc_incl.
Qed.

End Alignment.

(** X7 on the sample data, with numpy's global generator. *)
Lemma labels_follow_their_records_sample :
  exists p,
    result_of (@two_stage_split toy_library 0.2 0.2 None (sample_X 10) (sample_y 10)
                                toy_world) = Return p
    /\ index (y_train p) = index (X_train p)
    /\ index (y_eval p) = index (X_eval p).
Proof.
  destruct (@labels_follow_their_records toy_library (sample_X 10) (sample_y 10)
              0.2 0.2 None toy_world)
    as (p & Hrun & Htr & _ & Hev & _).
  - now rewrite index_sample_X, index_sample_y.
  - reflexivity.
  - reflexivity.
  - exists p. repeat split; assumption.
Defined.

(* ------------------------------------------------------------------ *)
(** ** The sizes of the three subsets *)

Lemma n_test_of_fifth (n : nat) : n_test_of 0.2 n = ((n + 4) / 5)%nat.
Proof.
  unfold n_test_of, Qceiling, Qfloor. cbn [Qmult Qopp inject_Z Qnum Qden].
  change (Z.pos (10 * 1)) with 10%Z.
  assert (- (- (2 * Z.of_nat n) / 10) = (Z.of_nat n + 4) / 5)%Z as ->.
  { Z.to_euclidean_division_equations. lia. }
  apply Nat2Z.inj. rewrite Nat2Z.inj_div, Z2Nat.id.
  - f_equal. lia.
  - apply Z.div_pos; lia.
Qed.

Lemma two_fifths_bounds (n ho te tr : nat) :
  ho = ((n + 4) / 5)%nat -> te = ((n - ho + 4) / 5)%nat -> tr = (n - ho - te)%nat ->
  (25 * tr <= 16 * n /\ 16 * n < 25 * tr + 45 /\ tr + te + ho = n)%nat.
Proof.
  intros ? ? ?.
  pose proof (Nat.div_mod_eq (n + 4) 5).
  pose proof (Nat.mod_upper_bound (n + 4) 5).
  pose proof (Nat.div_mod_eq (n - ho + 4) 5).
  pose proof (Nat.mod_upper_bound (n - ho + 4) 5).
  lia.
Qed.

Section Sizes.

Context {L : Library} {LL : LibraryLaws L}.

(** X8. The partition cells return on data of any size n: the hold-out
    subset has ceil(n/5) records, the test subset a fifth, rounded up, of
    what is left, and the training subset the rest, which is never more
    than 64% of the data and less than two records short of it.  With
    fewer than two records the training subset is empty. *)
Theorem partition_cells_sizes (X : Frame features) (y : Frame Z) (w : world) :
  exists p,
    result_of (partition_cells X y w) = Return p
    /\ length (X_eval p) = ((length X + 4) / 5)%nat
    /\ length (X_test p) = ((length X - length (X_eval p) + 4) / 5)%nat
    /\ (length (X_train p) + length (X_test p) + length (X_eval p) = length X)%nat
    /\ (25 * length (X_train p) <= 16 * length X)%nat
    /\ (16 * length X < 25 * length (X_train p) + 45)%nat
    /\ ((length X < 2)%nat -> X_train p = []).
Proof.
  assert (hold_out_percent < 1) as Hh by reflexivity.
  assert (0.2 < 1) as Ht by reflexivity.
  pose proof (train_test_split_seeded X y hold_out_percent 42%Z
                (Qle_bool_1_false Hh)) as H1.
  pose proof (seeded_split_partition X y 42%Z Hh) as P1.
  destruct (seeded_split X y hold_out_percent 42%Z) as [[[X' Xev] y'] yev].
  pose proof (train_test_split_seeded X' y' 0.2 42%Z (Qle_bool_1_false Ht)) as H2.
  pose proof (seeded_split_partition X' y' 42%Z Ht) as P2.
  destruct (seeded_split X' y' 0.2 42%Z) as [[[Xtr Xte] ytr] yte].
  destruct P1 as (_ & Lev & LX' & _). destruct P2 as (_ & Lte & Ltr & _).
  unfold hold_out_percent in Lev, LX'.
  rewrite n_test_of_fifth in Lev, LX', Lte, Ltr.
  exists {| X_train := Xtr; X_test := Xte; X_ := X'; X_eval := Xev;
            y_train := ytr; y_test := yte; y_ := y'; y_eval := yev |}.
  cbn [X_train X_test X_ X_eval].
  assert (pure_run (partition_cells X y)
            (Return {| X_train := Xtr; X_test := Xte; X_ := X'; X_eval := Xev;
                       y_train := ytr; y_test := yte; y_ := y'; y_eval := yev |})
            ([Split (index X') (index Xev)] ++ [Split (index Xtr) (index Xte)] ++ []))
    as Hrun.
  { unfold partition_cells, two_stage_split.
    eapply pure_run_bind; [exact H1|]. cbv beta iota.
    eapply pure_run_bind; [exact H2|]. cbv beta iota.
    apply pure_run_ret. }
  split; [unfold result_of; now rewrite (Hrun w)|].
  assert (length Xte = ((length X - length Xev + 4) / 5)%nat) as Lte'
      by (rewrite Lte, LX', Lev; reflexivity).
  assert (length Xtr = (length X - length Xev - length Xte)%nat) as Ltr'
      by (rewrite Ltr, Lte, LX', Lev; reflexivity).
  destruct (@two_fifths_bounds _ _ _ _ Lev Lte' Ltr') as (B1 & B2 & B3).
  repeat split; try assumption; try lia.
  intros Hsmall. apply length_zero_iff_nil. lia.
Qed.

End Sizes.

(** X8 on 43 sample records: 9 held out, 7 for testing and 27 for
    training. *)
Lemma partition_cells_sizes_sample :
  exists p,
    result_of (@partition_cells toy_library (sample_X 43) (sample_y 43) toy_world)
    = Return p
    /\ length (X_eval p) = 9%nat
    /\ length (X_test p) = 7%nat
    /\ length (X_train p) = 27%nat.
Proof.
  destruct (@partition_cells_sizes toy_library toy_library_laws
              (sample_X 43) (sample_y 43) toy_world)
    as (p & Hrun & Hev & Hte & Hsum & _).
  assert (length (sample_X 43) = 43%nat) as Hn
      by (unfold sample_X; rewrite length_map; apply length_seq).
  rewrite Hn in Hev, Hte, Hsum.
  assert (length (X_eval p) = 9%nat) as Hev' by (rewrite Hev; reflexivity).
  rewrite Hev' in Hte.
  assert (length (X_test p) = 7%nat) as Hte' by (rewrite Hte; reflexivity).
  exists p. repeat split; try assumption. lia.
Defined.

(* ------------------------------------------------------------------ *)
(** ** The cell that lists the estimator counts of the sampled candidates *)

Lemma sorted_insert_perm (v : Z) (l : list Z) :
  Permutation (sorted_insert v l) (v :: l).
Proof.
  induction l as [|x l IH]; simpl; [reflexivity|].
  destruct (Z.leb v x); [reflexivity|].
  rewrite IH. apply perm_swap.
Qed.

Lemma sorted_insert_sorted (v : Z) (l : list Z) :
  Sorted Z.le l -> Sorted Z.le (sorted_insert v l).
Proof.
  induction l as [|x l IH]; intros HS; simpl.
  - repeat constructor.
  - destruct (Z.leb_spec v x) as [Hle|Hgt].
    + constructor; [exact HS|]. now constructor.
    + inversion HS as [|? ? HS' Hhd]; subst.
      constructor; [now apply IH|].
      destruct l as [|b l]; simpl.
      * constructor. lia.
      * destruct (Z.leb_spec v b); constructor; [lia|].
        now inversion Hhd.
Qed.

Lemma py_sort_perm (l : list Z) : Permutation (py_sort l) l.
Proof.
  induction l as [|v l IH]; simpl; [reflexivity|].
  rewrite sorted_insert_perm. now constructor.
Qed.

Lemma py_sort_sorted (l : list Z) : Sorted Z.le (py_sort l).
Proof.
  induction l as [|v l IH]; simpl; [constructor|].
  now apply sorted_insert_sorted.
Qed.

Lemma estimators_loop_spec (param_estimators : list params) :
  forall (estimators vs : list Z),
    map (int_param "n_estimators") param_estimators = map Some vs ->
    Sorted Z.le estimators ->
    exists l,
      estimators_loop estimators param_estimators = Some l
      /\ Sorted Z.le l
      /\ Permutation l (estimators ++ vs).
Proof.
  induction param_estimators as [|d rest IH]; intros estimators vs Hvs HS.
  - destruct vs; [|discriminate]. exists estimators.
    rewrite app_nil_r. now repeat split.
  - destruct vs as [|v vs]; [discriminate|]. simpl in Hvs.
    injection Hvs as Hd Hrest. simpl. rewrite Hd.
    destruct (IH (py_sort (estimators ++ [v])) vs Hrest (py_sort_sorted _))
      as (l & Hl & Hsorted & Hperm).
    exists l. repeat split; [exact Hl|exact Hsorted|].
    rewrite Hperm, py_sort_perm, <- app_assoc. reflexivity.
Qed.

Lemma grid_candidate_n_estimators (p : params) :
  In p (ParameterGrid param_dist) ->
  exists v, int_param "n_estimators" p = Some v /\ (2 <= v <= 20)%Z.
Proof.
  intros H. apply ParameterGrid_In in H. unfold param_dist in H.
  inversion H as [|[k1 v1] ? p1 ? [K1 _] H1]; subst.
  inversion H1 as [|[k2 v2] ? p2 ? [K2 _] H2]; subst.
  inversion H2 as [|[k3 v3] ? p3 ? [K3 _] H3]; subst.
  inversion H3 as [|[k4 v4] ? p4 ? [K4 V4] H4]; subst.
  inversion H4; subst. simpl in K1, K2, K3, K4. subst. cbn [snd] in V4.
  unfold estimator_range, range in V4.
  apply in_map_iff in V4. destruct V4 as (n & <- & Hn). apply in_seq in Hn.
  exists (Z.of_nat n). split; [reflexivity|lia].
Qed.

(** X11. On candidates taken from the grid of the random-forest search,
    the cell that lists their estimator counts ends with a list in
    ascending order, holding the counts of the candidates, each as often as
    it occurs, and all between 2 and 20: the list is sorted, so it does not
    follow the order of the candidates and of their scores. *)
Theorem estimators_cell_sorted (param_estimators : list params) :
  Forall (fun p => In p (ParameterGrid param_dist)) param_estimators ->
  exists estimators,
    estimators_cell param_estimators = Some estimators
    /\ Sorted Z.le estimators
    /\ Permutation (map Some estimators)
                   (map (int_param "n_estimators") param_estimators)
    /\ Forall (fun v => (2 <= v <= 20)%Z) estimators.
Proof.
  intros Hgrid.
  assert (exists vs, map (int_param "n_estimators") param_estimators = map Some vs
                     /\ Forall (fun v => (2 <= v <= 20)%Z) vs) as (vs & Hvs & Hrange).
  { induction Hgrid as [|p ps Hp _ (vs & Hvs & Hrange)].
    - exists []. split; [reflexivity|constructor].
    - destruct (grid_candidate_n_estimators Hp) as (v & Hv & Hb).
      exists (v :: vs). simpl. rewrite Hv, Hvs. split; [reflexivity|].
      now constructor. }
  destruct (@estimators_loop_spec param_estimators [] vs Hvs (Sorted_nil _))
    as (l & Hl & Hsorted & Hperm).
  simpl in Hperm. exists l. repeat split.
  - exact Hl.
  - exact Hsorted.
  - rewrite Hvs. now apply Permutation_map.
  - apply Forall_forall. intros v Hv. rewrite Forall_forall in Hrange.
    apply Hrange. eapply Permutation_in; eassumption.
Qed.

(** X11 on two candidates of the grid, the first with more estimators
    than the second. *)
Lemma estimators_cell_sorted_sample :
  exists estimators,
    estimators_cell [nth 5 (ParameterGrid param_dist) [];
                     nth 0 (ParameterGrid param_dist) []] = Some estimators
    /\ Sorted Z.le estimators
    /\ Permutation (map Some estimators)
                   (map (int_param "n_estimators")
                        [nth 5 (ParameterGrid param_dist) [];
                         nth 0 (ParameterGrid param_dist) []])
    /\ Forall (fun v => (2 <= v <= 20)%Z) estimators.
Proof.
  apply estimators_cell_sorted.
  repeat constructor; apply nth_In; vm_compute; lia.
Defined.

(* ------------------------------------------------------------------ *)
(** ** The scores plotted against the number of neighbours *)

Lemma Forall2_map_r {A B C : Type} (R : A -> C -> Prop) (f : B -> C)
    (l : list A) (l' : list B) :
  Forall2 (fun a b => R a (f b)) l l' -> Forall2 R l (map f l').
Proof. induction 1; simpl; constructor; assumption. Qed.

Lemma scores_by_weight_grid (R : params -> Q -> Prop) (ks : list pv)
    (scores : list Q) :
  Forall2 R (ParameterGrid [("n_neighbors", ks); ("weights", weight_options)]%string)
          scores ->
  Forall2 (fun k sc => R [("n_neighbors", k); ("weights", PStr "uniform")]%string sc)
          ks
          (scores_by_weight
             scores
             (ParameterGrid [("n_neighbors", ks); ("weights", weight_options)]%string)
             "uniform")
  /\ Forall2 (fun k sc => R [("n_neighbors", k); ("weights", PStr "distance")]%string sc)
             ks
             (scores_by_weight
                scores
                (ParameterGrid [("n_neighbors", ks); ("weights", weight_options)]%string)
                "distance").
Proof.
  revert scores. induction ks as [|k ks IH]; intros scores H.
  - inversion H. split; constructor.
  - change (ParameterGrid [("n_neighbors", k :: ks); ("weights", weight_options)]%string)
      with ([("n_neighbors", k); ("weights", PStr "uniform")]%string
            :: [("n_neighbors", k); ("weights", PStr "distance")]%string
            :: ParameterGrid [("n_neighbors", ks); ("weights", weight_options)]%string)
      in *.
    inversion H as [|? su ? scores1 Hu H1]; subst.
    inversion H1 as [|? sd ? scores2 Hd H2]; subst.
    destruct (IH scores2 H2) as (IHu & IHd).
    unfold scores_by_weight in *. cbn [map combine].
    change (get_param "weights" [("n_neighbors", k); ("weights", PStr "uniform")]%string)
      with (PStr "uniform").
    change (get_param "weights" [("n_neighbors", k); ("weights", PStr "distance")]%string)
      with (PStr "distance").
    cbn [filter snd].
    change (is_weight "uniform" (PStr "uniform")) with true.
    change (is_weight "uniform" (PStr "distance")) with false.
    change (is_weight "distance" (PStr "uniform")) with false.
    change (is_weight "distance" (PStr "distance")) with true.
    cbv iota. cbn [map fst].
    split; constructor; assumption.
Qed.

Section ScoresByWeight.

Context {L : Library} {LL : LibraryLaws L}.

(** X13. When the grid search of the first notebook has returned, then,
    whatever way [agg] the scores of the folds are averaged, the scores the
    cell keeps for uniform weights are, in the order of [k_range], those of
    the classifier with that many neighbours and uniform weights on the ten
    folds, and likewise for distance weights: each list has one score per
    value of [k_range], so the plot against [k_range] pairs every score
    with its own K. *)
Theorem scores_by_weight_follow_k_range
    (agg : list Q -> Q) (X : Frame features) (y : Frame Z) (w w' : world)
    (grid : search_result) (evs : list event) :
  let knn := {| algo := KNeighborsClassifier; hyper := [] |} in
  GridSearchCV_fit knn param_grid 10 accuracy X y w = (Return grid, w', evs) ->
  let cv_score := fun p sc =>
    exists qs,
      sc = agg qs
      /\ Forall2 (fun fold q => fold_score (set_params knn p) X y accuracy fold
                                = Return q)
                 (cv_folds 10 (values y)) qs in
  Forall2 (fun k sc =>
             cv_score [("n_neighbors", k); ("weights", PStr "uniform")]%string sc)
          k_range
          (scores_by_weight (map agg (cv_results_scores grid))
                            (cv_results_params grid) "uniform")
  /\ Forall2 (fun k sc =>
                cv_score [("n_neighbors", k); ("weights", PStr "distance")]%string sc)
             k_range
             (scores_by_weight (map agg (cv_results_scores grid))
                               (cv_results_params grid) "distance")
  /\ length (scores_by_weight (map agg (cv_results_scores grid))
                              (cv_results_params grid) "uniform")
     = length k_range
  /\ length (scores_by_weight (map agg (cv_results_scores grid))
                              (cv_results_params grid) "distance")
     = length k_range.
Proof.
  intros knn H cv_score.
  apply GridSearchCV_fit_returns in H.
  destruct H as (_ & _ & _ & Hp & _ & Hsc & _).
  rewrite Hp.
  destruct (@scores_by_weight_grid cv_score k_range (map agg (cv_results_scores grid)))
    as (Hu & Hd).
  { apply Forall2_map_r. eapply Forall2_impl; [|exact Hsc].
    intros p qs Hq. exists qs. now split. }
  split; [exact Hu|]. split; [exact Hd|].
  split; symmetry; eapply Forall2_length; eassumption.
Qed.

End ScoresByWeight.

(** X13 on the sample data, with the least score of the folds for [agg]. *)
Lemma scores_by_weight_follow_k_range_sample :
  exists grid w' evs,
    @GridSearchCV_fit toy_library {| algo := KNeighborsClassifier; hyper := [] |}
                      param_grid 10 accuracy (sample_X 30) (sample_y 30) toy_world
    = (Return grid, w', evs)
    /\ length (scores_by_weight (map (fold_right Qmin 1) (cv_results_scores grid))
                                (cv_results_params grid) "uniform")
       = length k_range.
Proof.
  destruct (@GridSearchCV_fit toy_library {| algo := KNeighborsClassifier; hyper := [] |}
              param_grid 10 accuracy (sample_X 30) (sample_y 30) toy_world)
    as [[[grid|e] w'] evs] eqn:E.
  - exists grid, w', evs. split; [reflexivity|].
    apply (@scores_by_weight_follow_k_range toy_library toy_library_laws
             (fold_right Qmin 1) (sample_X 30) (sample_y 30) toy_world w' grid evs E).
  - exfalso. vm_compute in E. discriminate.
Defined.

(* ------------------------------------------------------------------ *)
(** ** Which model the hold-out evaluation evaluates *)

Section HoldOutEvaluation.

Context {L : Library} {LL : LibraryLaws L}.

Lemma show_accuracy_returns (y_actuals : Frame Z) (y_predictions : list Z) (w : world) :
  length y_predictions = length y_actuals ->
  exists accuracy null_accuracy,
    accuracy_score (values y_actuals) y_predictions = Return accuracy
    /\ show_accuracy y_actuals y_predictions CLASSIFICATION_TYPE w
       = (Return (accuracy, null_accuracy), w, []).
Proof.
  intros Hlen.
  assert (exists accuracy,
             accuracy_score (values y_actuals) y_predictions = Return accuracy)
    as (accuracy & Ha).
  { unfold accuracy_score, values. rewrite length_map, <- Hlen, Nat.eqb_refl.
    cbn [negb]. destruct (map snd y_actuals); eexists; reflexivity. }
  exists accuracy. unfold show_accuracy, null_accuracy_score.
  rewrite null_accuracy_branch_self, Ha. eexists. split; reflexivity.
Qed.

(** X14. When features and labels of the training subset have one length,
    ten folds can be made of the labels and the forest accepts every point
    of the grid, the randomized search returns, and its model is the one
    fitted on the training subset with its best parameters.  In the cells
    that follow, whenever the calls of the library return, with one
    prediction per hold-out record, the predictions on the hold-out records
    and the accuracy shown for them are those of that model.  The forest
    fitted on the whole train/test set in the same cell is returned unused:
    it makes no prediction. *)
Theorem holdout_accuracy_is_of_the_search_model (p : partition) (w : world) :
  let rfc := {| algo := RandomForestClassifier;
                hyper := [("random_state", PInt 42)]%string |} in
  length (X_train p) = length (y_train p) ->
  stratifiable 10 (values (y_train p)) ->
  (forall q, In q (ParameterGrid param_dist) ->
             accepts (set_params rfc q) (X_train p) (y_train p) accuracy
                     (cv_folds 10 (values (y_train p)))
             /\ returns (lib_fit (set_params rfc q) (X_train p) (y_train p))) ->
  exists rand evs,
    rand_fit rfc (X_train p) (y_train p) w = (Return rand, w, evs)
    /\ lib_fit (set_params rfc (best_params_ rand)) (X_train p) (y_train p)
       = Return (best_estimator_ rand)
    /\ forall m preds probs,
         lib_fit (best_forest rand) (X_ p) (y_ p) = Return m ->
         lib_predict (best_estimator_ rand) (X_eval p) = Return preds ->
         lib_predict_proba (best_estimator_ rand) (X_eval p) = Return probs ->
         length preds = length (y_eval p) ->
         exists accuracy null_accuracy,
           accuracy_score (values (y_eval p)) preds = Return accuracy
           /\ holdout_cells rand p w
              = (Return (m, preds, (accuracy, null_accuracy)),
                 w,
                 [Fit (best_forest rand) (index (X_ p));
                  Predict (index (X_eval p)); Predict (index (X_eval p))]).
Proof.
  intros rfc Hlen Hs Ha.
  assert (Forall (fun kv : string * list pv => NoDup (snd kv)) param_dist) as Hdist.
  { repeat (apply Forall_cons; [|]); try apply Forall_nil; cbn [snd].
    - unfold criterion_options.
      repeat (constructor; [simpl; intuition discriminate|]). constructor.
    - unfold max_depth_range, range.
      apply NoDup_map_NoDup_ForallPairs; [|apply seq_NoDup].
      intros i j _ _ E. injection E as E. lia.
    - unfold max_features_options.
      repeat (constructor; [simpl; intuition discriminate|]). constructor.
    - unfold estimator_range, range.
      apply NoDup_map_NoDup_ForallPairs; [|apply seq_NoDup].
      intros i j _ _ E. injection E as E. lia. }
  destruct (@randomized_search_accepted _ _ rfc param_dist 10 accuracy 10 42%Z
              (X_train p) (y_train p) w) as (rand & evs & Hrun); try assumption.
  { split; [lia|]. vm_compute. lia. }
  exists rand, evs. split; [exact Hrun|].
  pose proof Hrun as Hret. unfold rand_fit.
  apply randomized_search_returns in Hret; [|exact Hdist].
  destruct Hret as (_ & _ & _ & _ & _ & _ & _ & _ & _ & _ & Hfit & _).
  split; [exact Hfit|].
  intros m preds probs Hm Hpreds Hprobs Hn.
  destruct (show_accuracy_returns (y_eval p) preds w Hn)
    as (accuracy & null_accuracy & Hacc & Hshow).
  exists accuracy, null_accuracy. split; [exact Hacc|].
  unfold holdout_cells, estimator_fit, model_predict, model_predict_proba.
  unfold bind, emit, ret, lift. rewrite Hm, Hpreds, Hprobs, Hshow. reflexivity.
Qed.

End HoldOutEvaluation.

(** X14 on the sample data: a training subset of 30 records, a train/test
    set of 40 and 10 hold-out records. *)
Lemma holdout_accuracy_is_of_the_search_model_sample :
  let p := {| X_train := sample_X 30; X_test := skipn 30 (sample_X 40);
              X_ := sample_X 40; X_eval := skipn 40 (sample_X 50);
              y_train := sample_y 30; y_test := skipn 30 (sample_y 40);
              y_ := sample_y 40; y_eval := skipn 40 (sample_y 50) |} in
  exists rand evs r,
    @rand_fit toy_library
       {| algo := RandomForestClassifier; hyper := [("random_state", PInt 42)]%string |}
       (X_train p) (y_train p) toy_world = (Return rand, toy_world, evs)
    /\ @holdout_cells toy_library rand p toy_world
       = (Return r, toy_world,
          [Fit (best_forest rand) (index (X_ p));
           Predict (index (X_eval p)); Predict (index (X_eval p))]).
Proof.
  intros p.
  destruct (@holdout_accuracy_is_of_the_search_model toy_library toy_library_laws
              p toy_world) as (rand & evs & Hrun & Hfit & Hcells).
  - reflexivity.
  - split; [lia|]. exists 0%Z. vm_compute. lia.
  - intros q _. now apply toy_library_accepts.
  - assert (forall est X y (m : @Model toy_library),
               @lib_fit toy_library est X y = Return m -> m = (est, index X)) as Hinv
      by (intros est X y m [= <-]; reflexivity).
    apply Hinv in Hfit.
    destruct (Hcells (best_forest rand, index (X_ p))
                     (map (fun _ => 0%Z) (X_eval p))
                     (map (fun _ => 0) (X_eval p)))
      as (accuracy & null_accuracy & _ & Hc).
    + reflexivity.
    + rewrite Hfit. reflexivity.
    + rewrite Hfit. reflexivity.
    + reflexivity.
    + exists rand, evs. eexists. split; [exact Hrun | exact Hc].
Defined.

(** [holdout_cells] is the part of [forest_cells] between the search and
    the cross-validated report. *)
Lemma forest_cells_holdout_cells {L : Library} (p : partition) (w : world) :
  forest_cells p w
  = (let rfc := {| algo := RandomForestClassifier;
                   hyper := [("random_state", PInt 42)]%string |} in
     rfc_fitted <- estimator_fit rfc (X_train p) (y_train p) ;;
     y_pred <- model_predict rfc_fitted (X_test p) ;;
     y_probs <- model_predict_proba rfc_fitted (X_test p) ;;
     show_accuracy (y_test p) y_pred CLASSIFICATION_TYPE ;;;
     rand <- rand_fit rfc (X_train p) (y_train p) ;;
     r <- holdout_cells rand p ;;
     show_cv_classification_report (best_forest rand) (X_ p) (y_ p) 10 ;;;
     export_model {| g_rfc := Some (fst (fst r)); g_pickle := false |}
                  (fst (fst r)) "RandomForestsClassifier") w.
Proof.
  unfold forest_cells, holdout_cells, best_forest.
  unfold estimator_fit, model_predict, model_predict_proba.
  unfold bind, emit, ret, lift. cbv beta iota zeta.
  repeat match goal with
         | |- context [lib_fit ?a ?b ?c] =>
             destruct (lib_fit a b c) as [?|?];
             cbv beta iota zeta; cbn [fst snd]; try reflexivity
         | |- context [lib_predict ?a ?b] =>
             destruct (lib_predict a b) as [?|?];
             cbv beta iota zeta; cbn [fst snd]; try reflexivity
         | |- context [lib_predict_proba ?a ?b] =>
             destruct (lib_predict_proba a b) as [?|?];
             cbv beta iota zeta; cbn [fst snd]; try reflexivity
         | |- context [show_accuracy ?a ?b ?c ?v] =>
             destruct (show_accuracy a b c v) as [[[?|?] ?] ?];
             cbv beta iota zeta; cbn [fst snd]; try reflexivity
         | |- context [rand_fit ?a ?b ?c ?v] =>
             destruct (rand_fit a b c v) as [[[?|?] ?] ?];
             cbv beta iota zeta; cbn [fst snd]; try reflexivity
         | |- context [show_cv_classification_report ?a ?b ?c ?d ?v] =>
             destruct (show_cv_classification_report a b c d v) as [[[?|?] ?] ?];
             cbv beta iota zeta; cbn [fst snd]; try reflexivity
         | |- context [export_model ?a ?b ?c ?v] =>
             destruct (export_model a b c v) as [[? ?] ?];
             cbv beta iota zeta; cbn [fst snd]; try reflexivity
         end.
  all: cbn [app fst snd]; rewrite <- ?app_assoc; reflexivity.
Qed.

(* ------------------------------------------------------------------ *)
(** ** The grid search on few records *)

Lemma toy_kneighbors_laws : KNeighborsLaws toy_library.
Proof.
  constructor. intros est X y m k s X_test y_test Halgo Hk Hfit Hlt.
  injection Hfit as <-. eexists. cbn [lib_score toy_library].
  unfold too_few_records, n_neighbors_of. cbn [fst snd]. rewrite Halgo.
  unfold int_param in Hk.
  destruct (filter _ (hyper est)) as [|[key [|z|str]] rest]; try discriminate.
  injection Hk as ->. unfold index. rewrite length_map.
  apply Z.ltb_lt in Hlt. rewrite Hlt. reflexivity.
Qed.

Lemma Forall2_In_left {A B : Type} (R : A -> B -> Prop) (l : list A) (l' : list B)
    (a : A) :
  Forall2 R l l' -> In a l -> exists b, R a b.
Proof.
  induction 1 as [|x z l l' Hx _ IH]; intros Hin; [destruct Hin|].
  destruct Hin as [<-|Hin]; [now exists z | now apply IH].
Qed.

Section FewRecords.

Context {L : Library} {LL : LibraryLaws L} {KL : KNeighborsLaws L}.

Lemma GridSearchCV_fit_knn_raises (X : Frame features) (y : Frame Z) (w : world) :
  (length X <= 25)%nat ->
  exists e,
    result_of (GridSearchCV_fit {| algo := KNeighborsClassifier; hyper := [] |}
                                param_grid 10 accuracy X y w) = Raise e.
Proof.
  intros Hn.
  destruct (GridSearchCV_fit {| algo := KNeighborsClassifier; hyper := [] |}
                             param_grid 10 accuracy X y w) as [[[res|e] w'] evs] eqn:E;
    [|now exists e].
  exfalso. apply GridSearchCV_fit_returns in E.
  destruct E as (_ & Hlen & Hs & _ & _ & Hsc & _).
  assert (length X = length (values y)) as Hlen'
    by (unfold values; now rewrite length_map).
  destruct (cv_folds_facts X Hlen' Hs) as (_ & Hfolds).
  set (p25 := [("n_neighbors", PInt 25); ("weights", PStr "uniform")]%string).
  assert (In p25 (ParameterGrid param_grid)) as Hin.
  { apply ParameterGrid_In. unfold p25, param_grid.
    constructor; [|constructor; [|constructor]]; cbn [fst snd]; split;
      try reflexivity.
    - unfold k_range, range. apply in_map_iff. exists 25%nat.
      split; [reflexivity|]. apply in_seq. simpl. lia.
    - now left. }
  destruct (Forall2_In_left _ Hsc Hin) as (qs & Hqs).
  destruct (cv_folds 10 (values y)) as [|fold folds] eqn:Ef.
  { pose proof (length_cv_folds 10 (values y)) as Hl. rewrite Ef in Hl.
    discriminate. }
  inversion Hqs as [|? q ? qs' Hq _]; subst.
  inversion Hfolds as [|? ? (Hperm & Hne & _) _]; subst.
  unfold fold_score in Hq.
  destruct (lib_fit (set_params {| algo := KNeighborsClassifier; hyper := [] |} p25)
                    (iloc X (fst fold)) (iloc y (fst fold))) as [m|e] eqn:Efit;
    [|discriminate].
  assert (exists msg,
             lib_score accuracy m (iloc X (snd fold)) (iloc y (snd fold))
             = Raise (ValueError msg)) as (msg & Hmsg).
  { eapply too_few_training_records with (k := 25%Z); [| |exact Efit|].
    - reflexivity.
    - reflexivity.
    - apply Permutation_length in Hperm. rewrite length_app in Hperm.
      destruct (iloc X (snd fold)); [congruence|]. simpl in Hperm. lia. }
  rewrite Hmsg in Hq. discriminate.
Qed.

(** X15. With the law of the K-nearest-neighbours classifier of release
    0.19.0, which raises when it is to predict with more neighbours than it
    has training records: on data of at most 25 records the grid search of
    the first notebook, whose grid asks for up to 25 neighbours, ends in an
    exception, since a training fold is always smaller than the data.  The
    run then stops in the K-nearest-neighbours cells: no split is made and
    nothing is partitioned. *)
Theorem knn_grid_search_needs_records
    (X : Frame features) (y : Frame Z) (w : world) :
  (length X <= 25)%nat ->
  (exists e,
      result_of (GridSearchCV_fit {| algo := KNeighborsClassifier; hyper := [] |}
                                  param_grid 10 accuracy X y w) = Raise e)
  /\ (exists e, result_of (knn_cells X y w) = Raise e)
  /\ (exists e, result_of (notebook X y w) = Raise e)
  /\ after_first_split (events_of (notebook X y w)) = None.
Proof.
  intros Hn.
  assert (exists e, result_of (knn_cells X y w) = Raise e) as (e & He).
  { destruct (result_of (knn_cells X y w)) as [v|e] eqn:E; [|now exists e].
    exfalso. unfold knn_cells in E.
    apply result_of_bind in E. destruct E as (v1 & _ & E).
    apply result_of_bind in E. destruct E as (grid & Hg & _).
    destruct (GridSearchCV_fit_knn_raises X y
                (world_of (show_cv_classification_report
                             {| algo := KNeighborsClassifier; hyper := [] |}
                             X y 10 w)) Hn) as (e & He).
    rewrite He in Hg. discriminate. }
  split; [now apply GridSearchCV_fit_knn_raises|].
  split; [now exists e|].
  assert (Forall (fun ev => is_split ev = false) (events_of (knn_cells X y w)))
    as Hns.
  { destruct (@emits_knn_cells L (index X) X y (incl_refl _) w) as (Hev & _).
    eapply Forall_impl; [|exact Hev]. intros ev H. apply H. }
  split.
  - exists e. unfold notebook, bind, result_of in *.
    destruct (knn_cells X y w) as [[r w1] l1]. cbn [fst] in He. now subst r.
  - unfold notebook. rewrite events_of_bind, He, app_nil_r.
    now apply after_first_split_none.
Qed.

End FewRecords.

(** X15 on the sample data: 20 records, ten of each label. *)
Lemma knn_grid_search_needs_records_sample :
  after_first_split
    (events_of (@notebook toy_library (sample_X 20) (sample_y 20) toy_world))
  = None.
Proof.
  apply (@knn_grid_search_needs_records toy_library toy_library_laws
           toy_kneighbors_laws (sample_X 20) (sample_y 20) toy_world).
  unfold sample_X. rewrite length_map, length_seq. lia.
Defined.
